(** * FLTK 2.0 box drawing and the status-bar strip

    A shallow embedding of [src/UpBox.cxx] (the square box types and the
    [FrameBox] bezel interpreter) and of [StatusBarGroup] (the anchored
    status strip with its three label slots), followed by the properties
    proved about them.

    Conventions of the embedding:
    - a C++ [int] is a [Z] and every arithmetic operation wraps to 32 bits
      (module [I32]);
    - a [const char*] is the [string] of the characters before its
      terminating NUL; a null pointer is [None] where the code tests for it;
    - a drawing routine returns the list of back-end primitives it emits, in
      order; [None] stands for a run that reads or writes outside an array;
    - calls into the widget tree that change neither geometry nor the label
      slots are recorded as [Event]s. *)

From Stdlib Require Import ZArith List String Ascii Bool Lia DecimalString.
Import ListNotations.
Local Open Scope string_scope.
Local Open Scope list_scope.
Local Open Scope Z_scope.

(* ================================================================== *)
(** ** C++ [int] arithmetic *)

Module I32.

Definition wrap (z : Z) : Z := (z + 2 ^ 31) mod 2 ^ 32 - 2 ^ 31.

Definition in_range (z : Z) : Prop := - 2 ^ 31 <= z < 2 ^ 31.

Definition add (a b : Z) : Z := wrap (a + b).
Definition sub (a b : Z) : Z := wrap (a - b).
Definition mul (a b : Z) : Z := wrap (a * b).
(** C++ division truncates toward zero. *)
Definition div (a b : Z) : Z := wrap (Z.quot a b).

End I32.

Infix "+i" := I32.add (at level 50, left associativity).
Infix "-i" := I32.sub (at level 50, left associativity).
Infix "*i" := I32.mul (at level 40, left associativity).
Infix "/i" := I32.div (at level 40, left associativity).

(* ================================================================== *)
(** ** Rectangles, flags, colours, styles *)

(** Modelled from the spec: [fltk::Rectangle] (fltk/Rectangle.h is not among
    the sources): "(x, y, width, height) in parent-relative integer pixel
    coordinates", with the right edge [r() = x+w], the bottom edge
    [b() = y+h], the four edge moves used by the box code and the emptiness
    test "width/height > 0". *)
Record Rectangle : Type := mkRect { x_ : Z; y_ : Z; w_ : Z; h_ : Z }.

Definition rect_r (r : Rectangle) : Z := x_ r +i w_ r.
Definition rect_b (r : Rectangle) : Z := y_ r +i h_ r.
Definition set_x (v : Z) (r : Rectangle) := mkRect v (y_ r) (w_ r) (h_ r).
Definition set_y (v : Z) (r : Rectangle) := mkRect (x_ r) v (w_ r) (h_ r).
Definition set_w (v : Z) (r : Rectangle) := mkRect (x_ r) (y_ r) v (h_ r).
Definition set_h (v : Z) (r : Rectangle) := mkRect (x_ r) (y_ r) (w_ r) v.
Definition move_x (d : Z) (r : Rectangle) := mkRect (x_ r +i d) (y_ r) (w_ r -i d) (h_ r).
Definition move_y (d : Z) (r : Rectangle) := mkRect (x_ r) (y_ r +i d) (w_ r) (h_ r -i d).
Definition move_r (d : Z) (r : Rectangle) := mkRect (x_ r) (y_ r) (w_ r +i d) (h_ r).
Definition move_b (d : Z) (r : Rectangle) := mkRect (x_ r) (y_ r) (w_ r) (h_ r +i d).
Definition empty (r : Rectangle) : bool := (w_ r <=? 0) || (h_ r <=? 0).

(** A rectangle whose extent fits a C++ [int]. *)
Definition int_sized (r : Rectangle) : Prop :=
  I32.in_range (w_ r) /\ I32.in_range (h_ r).

Definition Flags := Z.
Definition Color := Z.

(** [flags & m] used as a condition. *)
Definition has (flags m : Flags) : bool := negb (Z.land flags m =? 0).

(** The three builds the sources tell apart: [USE_X11], otherwise [_WIN32]
    (or [_WIN32_WCE]), otherwise neither. *)
Inductive Build : Type := USE_X11 | WIN32 | PORTABLE.

(** What the sources take from headers that are not among them, and from the
    process they run in: the bits of fltk/Flags.h, [GRAY00] of fltk/Color.h,
    [DOT] of fltk/draw.h, whether plain [char] is signed on the target, the
    build, [fltk::transform(Rectangle&)] of fltk/draw.h under the current
    transformation, and whether the function statics of
    [DottedFrame::_draw] (the two stipples) were set by an earlier call. *)
Class Platform : Type := {
  FOCUSED : Flags;
  PUSHED : Flags;
  VALUE : Flags;
  INVISIBLE : Flags;
  HIGHLIGHT : Flags;
  SELECTED : Flags;
  INACTIVE : Flags;
  ALIGN_LEFT : Flags;
  ALIGN_INSIDE : Flags;
  GRAY00 : Color;
  DOT : Z;
  char_signed : bool;
  build : Build;
  transform : Rectangle -> Rectangle;
  stipples_made : bool
}.

(** Modelled from the spec: [fltk::Style] as far as the boxes consult it:
    [boxcolors(flags, bg, fg)] ("resolve (background, foreground) colors from
    style+flags"), the text colour, and the option that "requests
    inactive-box dimming". *)
Record Style : Type := mkStyle {
  boxcolors : Flags -> Color * Color;
  textcolor : Color;
  draw_boxes_inactive : bool
}.

(** The two stipple patterns of the focus frame: the bytes of [pattern] from
    its start and from its second entry. *)
Inductive Stipple : Type := evenstipple | oddstipple.

(** The back-end primitives of fltk/draw.h, and the calls of Xlib and of the
    Windows GDI that [DottedFrame::_draw] makes itself, as a trace.
    [XSetFillStyle true] is [FillStippled], [false] is [FillSolid];
    [SelectObject None] selects [old_brush] again. *)
Inductive DrawOp : Type :=
| setcolor (c : Color)
| fillrect (r : Rectangle)
| drawline (x1 y1 x2 y2 : Z)
| strokerect (r : Rectangle)
| line_style (s : Z)
| XCreateBitmapFromData (s : Stipple)
| XSetStipple (s : Stipple)
| XSetFillStyle (stippled : bool)
| XDrawRectangle (x y w h : Z)
| CreateBitmapIndirect (s : Stipple)
| CreatePatternBrush (s : Stipple)
| DeleteObject (s : Stipple)
| SelectObject (brush : option Stipple)
| PatBlt (x y w h : Z).

Definition Drawn : Type := option (list DrawOp).

(** [BoxInfo] of fltk/Box.h: [{dx, dy, dw, dh, fills_rectangle}]. *)
Record BoxInfo : Type := mkBoxInfo {
  dx : Z; dy : Z; dw : Z; dh : Z; fills_rectangle : Z
}.

(* ================================================================== *)
(** ** Characters *)

Definition char_code (c : ascii) : Z := Z.of_N (N_of_ascii c).

(** The value of a [char] promoted to [int]. *)
Definition char_val `{Platform} (c : ascii) : Z :=
  if char_signed && (128 <=? char_code c) then char_code c - 256 else char_code c.

(** Conversion of an [int] to [char]. *)
Definition to_char (z : Z) : ascii := ascii_of_N (Z.to_N (z mod 256)).

(** Conversion of an [int] to the unsigned [Color]. *)
Definition to_color (z : Z) : Color := z mod 2 ^ 32.

(* ================================================================== *)
(** ** The box types of UpBox.cxx *)

(** [FrameBox]: the pattern [data_], the box whose pattern is drawn when
    [VALUE] is on, and the [boxinfo_] filled in by the constructor.
    [frame_self] is a box whose [down] is itself (the constructor's
    [down(d ? d : this)] with [d] null). *)
Inductive FrameBoxT : Type :=
| frame_self (name : string) (data_ : string) (boxinfo_ : BoxInfo)
| frame_down (name : string) (data_ : string) (down : FrameBoxT)
             (boxinfo_ : BoxInfo).

Inductive Box : Type :=
| NoBox (name : string)
| FlatBox (name : string)
| FrameBox (f : FrameBoxT)
| BorderFrame (name : string)
| HighlightBox (name : string) (down : Box)
| DottedFrame (name : string).

Module FlatBoxM.

Definition _draw `{Platform} (r : Rectangle) (style : Style) (flags : Flags) : Drawn :=
  if has flags INVISIBLE then Some []
  else if empty r then Some []
  else
    let '(bg, fg) := boxcolors style flags in
    Some [setcolor bg; fillrect r].

Definition boxinfo : BoxInfo := mkBoxInfo 0 0 0 0 3.

End FlatBoxM.

Module NoBoxM.

Definition _draw (r : Rectangle) (s : Style) (flags : Flags) : Drawn := Some [].

(** Modelled from the spec: the base class [Box::boxinfo] (fltk/Box.h), which
    [NoBox] and [DottedFrame] inherit: "all-zero insets, not opaque". *)
Definition boxinfo : BoxInfo := mkBoxInfo 0 0 0 0 0.

End NoBoxM.

Module BorderFrameM.

Definition _draw (r : Rectangle) (style : Style) (flags : Flags) : Drawn :=
  Some [setcolor (textcolor style); strokerect r].

Definition boxinfo : BoxInfo := mkBoxInfo 1 1 2 2 0.

End BorderFrameM.

Module DottedFrameM.

(** [(r.x()+r.y()-r1.x()-r1.y())&1 ? oddstipple : evenstipple]. *)
Definition stipple_of (r r1 : Rectangle) : Stipple :=
  if Z.land (x_ r +i y_ r -i x_ r1 -i y_ r1) 1 =? 0 then evenstipple else oddstipple.

(** The code after [setcolor(fg)], which the preprocessor chooses by the
    build, for the frame rectangle [r] inside [r1]. *)
Definition frame `{Platform} (r1 r : Rectangle) : list DrawOp :=
  match build with
  | USE_X11 =>
    let made :=
      if stipples_made then []
      else [XCreateBitmapFromData evenstipple; XCreateBitmapFromData oddstipple] in
    let r := transform r in
    made ++
    [XSetStipple (stipple_of r r1);
     XSetFillStyle true;
     XDrawRectangle (x_ r) (y_ r) (w_ r -i 1) (h_ r -i 1);
     XSetFillStyle false]
  | WIN32 =>
    let made :=
      if stipples_made then []
      else [CreateBitmapIndirect evenstipple; CreateBitmapIndirect oddstipple;
            CreatePatternBrush evenstipple; CreatePatternBrush oddstipple;
            DeleteObject evenstipple; DeleteObject oddstipple] in
    let r := transform r in
    made ++
    [SelectObject (Some (stipple_of r r1));
     PatBlt (x_ r) (y_ r) (w_ r) 1;
     PatBlt (x_ r) (rect_b r -i 1) (w_ r) 1;
     PatBlt (x_ r) (y_ r) 1 (h_ r);
     PatBlt (rect_r r -i 1) (y_ r) 1 (h_ r);
     SelectObject None]
  | PORTABLE => [line_style DOT; strokerect r; line_style 0]
  end.

Definition _draw `{Platform} (r1 : Rectangle) (s : Style) (flags : Flags) : Drawn :=
  if negb (has flags FOCUSED) then Some []
  else
    let r := r1 in
    let horiz :=
      if 4 <? w_ r then Some (move_r (-1) (move_x 1 r))
      else if 3 <? w_ r then Some (move_r (-1) r)
      else None in
    match horiz with
    | None => Some []
    | Some r =>
      let vert :=
        if 4 <? h_ r then Some (move_b (-1) (move_y 1 r))
        else if 3 <? h_ r then Some (move_b (-1) r)
        else None in
      match vert with
      | None => Some []
      | Some r =>
        let '(bg, fg) := boxcolors s flags in
        Some (setcolor fg :: frame r1 r)
      end
    end.

End DottedFrameM.

Module FrameBoxM.

Definition data (f : FrameBoxT) : string :=
  match f with
  | frame_self _ s _ => s
  | frame_down _ s _ _ => s
  end.

Definition down (f : FrameBoxT) : FrameBoxT :=
  match f with
  | frame_self _ _ _ => f
  | frame_down _ _ d _ => d
  end.

Definition boxinfo_ (f : FrameBoxT) : BoxInfo :=
  match f with
  | frame_self _ _ b => b
  | frame_down _ _ _ b => b
  end.

(** [strlen(s)]. *)
Definition strlen (s : string) : Z := Z.of_nat (String.length s).

(** The constructor [FrameBox(n, s, d)]: [int i = strlen(s)/2] gives [dw] and
    [dh], [i /= 2] gives [dx] and [dy]. *)
Definition make (n : string) (s : string) (d : option FrameBoxT) : FrameBoxT :=
  let i := I32.wrap (strlen s / 2) in
  let dwh := i in
  let i := i /i 2 in
  let info := mkBoxInfo i i dwh dwh 3 in
  match d with
  | Some d => frame_down n s d info
  | None => frame_self n s info
  end.

Definition boxinfo (f : FrameBoxT) : BoxInfo := boxinfo_ f.

(** One character of [fl_to_inactive]: ['M'+(c - 'A')/3], stored in a
    [char]. *)
Definition inactive_char `{Platform} (c : ascii) : ascii :=
  to_char (char_code "M" +i (char_val c -i char_code "A") /i 3).

Fixpoint inactive_body `{Platform} (s : string) : string :=
  match s with
  | EmptyString => EmptyString
  | String c s' => String (inactive_char c) (inactive_body s')
  end.

(** [fl_to_inactive(s, to)]: the text left in [to]. *)
Definition fl_to_inactive `{Platform} (s : string) : string :=
  match s with
  | String "2"%char s' => String "2"%char (inactive_body s')
  | _ => inactive_body s
  end.

(** The colour of a pattern character, [c + (GRAY00-'A')]. *)
Definition shade `{Platform} (c : Z) : Color :=
  to_color (c +i (GRAY00 -i char_code "A")).

(** The four edge steps of the loop: the two primitives emitted and the
    rectangle after the move. *)
Definition bottom_line `{Platform} (c : Z) (r : Rectangle) : list DrawOp * Rectangle :=
  ([setcolor (shade c);
    drawline (x_ r) (rect_b r -i 1) (rect_r r -i 1) (rect_b r -i 1)],
   move_b (-1) r).

Definition right_line `{Platform} (c : Z) (r : Rectangle) : list DrawOp * Rectangle :=
  ([setcolor (shade c);
    drawline (rect_r r -i 1) (y_ r) (rect_r r -i 1) (rect_b r -i 1)],
   move_r (-1) r).

Definition top_line `{Platform} (c : Z) (r : Rectangle) : list DrawOp * Rectangle :=
  ([setcolor (shade c);
    drawline (x_ r) (y_ r) (rect_r r -i 1) (y_ r)],
   move_y 1 r).

Definition left_line `{Platform} (c : Z) (r : Rectangle) : list DrawOp * Rectangle :=
  ([setcolor (shade c);
    drawline (x_ r) (y_ r) (x_ r) (rect_b r -i 1)],
   move_x 1 r).

(** The code after the loop. *)
Definition interior `{Platform} (style : Style) (flags : Flags) (r : Rectangle) : list DrawOp :=
  if negb (has flags INVISIBLE) then
    let '(bg, fg) := boxcolors style flags in [setcolor bg; fillrect r]
  else [].

(** The [for (;;)] loop entered at its head ([hack = false]) or at the label
    [HACK] ([hack = true]), with [s] the text from the read pointer on.  Each
    half of the loop body reads two characters and only then tests [!*s];
    the character read at the end of the text is the NUL, and a read behind
    it has no defined result. *)
Fixpoint loop `{Platform} (style : Style) (flags : Flags)
  (hack : bool) (s : string) (r : Rectangle) : Drawn :=
  let first := if hack then top_line else bottom_line in
  let second := if hack then left_line else right_line in
  let c1 := match s with String c _ => char_val c | EmptyString => 0 end in
  let '(ops1, r1) := first c1 r in
  if h_ r1 <=? 0 then Some ops1
  else
    match s with
    | EmptyString => None
    | String _ s1 =>
      let c2 := match s1 with String c _ => char_val c | EmptyString => 0 end in
      let '(ops2, r2) := second c2 r1 in
      if w_ r2 <=? 0 then Some (ops1 ++ ops2)
      else
        match s1 with
        | EmptyString => None
        | String _ EmptyString => Some (ops1 ++ ops2 ++ interior style flags r2)
        | String _ s2 =>
          option_map (fun rest => ops1 ++ ops2 ++ rest)
                     (loop style flags (negb hack) s2 r2)
        end
    end.

(** Capacity of [char buf[26]]. *)
Definition buf_size : nat := 26.

(** The pattern the loop reads: [data()], or [down->data()] under [VALUE],
    passed through [fl_to_inactive] into [buf] when the box is drawn
    inactive. *)
Definition selected (f : FrameBoxT) `{Platform} (flags : Flags) : string :=
  if has flags VALUE then data (down f) else data f.

Definition interpreted `{Platform} (f : FrameBoxT) (style : Style) (flags : Flags)
  : option string :=
  let s := selected f flags in
  if has flags INACTIVE && draw_boxes_inactive style then
    if (String.length s <? buf_size)%nat then Some (fl_to_inactive s) else None
  else Some s.

(** From the test of the leading ['2'] to the end of [_draw]. *)
Definition run `{Platform} (style : Style) (flags : Flags) (s : string)
  (R : Rectangle) : Drawn :=
  match s with
  | String "2"%char s' => loop style flags true s' R
  | _ => loop style flags false s R
  end.

Definition _draw `{Platform} (f : FrameBoxT) (R : Rectangle) (style : Style)
  (flags : Flags) : Drawn :=
  if empty R then Some []
  else
    match interpreted f style flags with
    | None => None
    | Some s => run style flags s R
    end.

End FrameBoxM.

Module HighlightBoxM.

(** [draw_down] is the call [down->draw(r, style, flags)]. *)
Definition _draw `{Platform} (draw_down : Rectangle -> Style -> Flags -> Drawn)
  (r : Rectangle) (style : Style) (flags : Flags) : Drawn :=
  if has flags (Z.lor (Z.lor (Z.lor HIGHLIGHT SELECTED) VALUE) PUSHED) then
    draw_down r style flags
  else
    FlatBoxM._draw r style flags.

Definition boxinfo (boxinfo_down : BoxInfo) : BoxInfo := boxinfo_down.

End HighlightBoxM.

(** [Box::draw], which calls the virtual [_draw] of the box. *)
Fixpoint draw `{Platform} (b : Box) (r : Rectangle) (style : Style) (flags : Flags)
  : Drawn :=
  match b with
  | NoBox _ => NoBoxM._draw r style flags
  | FlatBox _ => FlatBoxM._draw r style flags
  | FrameBox f => FrameBoxM._draw f r style flags
  | BorderFrame _ => BorderFrameM._draw r style flags
  | HighlightBox _ d => HighlightBoxM._draw (draw d) r style flags
  | DottedFrame _ => DottedFrameM._draw r style flags
  end.

(** The virtual [boxinfo()]. *)
Fixpoint boxinfo (b : Box) : BoxInfo :=
  match b with
  | NoBox _ => NoBoxM.boxinfo
  | FlatBox _ => FlatBoxM.boxinfo
  | FrameBox f => FrameBoxM.boxinfo f
  | BorderFrame _ => BorderFrameM.boxinfo
  | HighlightBox _ d => HighlightBoxM.boxinfo (boxinfo d)
  | DottedFrame _ => NoBoxM.boxinfo
  end.

(** The static boxes of UpBox.cxx. *)
Definition dottedFrame : Box := DottedFrame "dotted_frame".
Definition noBox : Box := NoBox "none".
Definition flatBox : Box := FlatBox "flat".
Definition downBox : FrameBoxT := FrameBoxM.make "down" "WWHHPPAA" None.
Definition upBox : FrameBoxT := FrameBoxM.make "up" "AAWWHHTT" (Some downBox).
Definition thinDownBox : FrameBoxT := FrameBoxM.make "thin_down" "WWHH" None.
Definition thinUpBox : FrameBoxT := FrameBoxM.make "thin_up" "HHWW" (Some thinDownBox).
Definition engravedBox : FrameBoxT := FrameBoxM.make "engraved" "2HHWWWWHH" (Some downBox).
Definition embossedBox : FrameBoxT := FrameBoxM.make "embossed" "2WWHHHHWW" (Some downBox).
Definition borderBox : FrameBoxT := FrameBoxM.make "border" "HHHH" (Some downBox).
Definition borderFrame : Box := BorderFrame "border_frame".
Definition FLAT_BOX : Box := flatBox.
Definition DOWN_BOX : Box := FrameBox downBox.
Definition UP_BOX : Box := FrameBox upBox.
Definition THIN_DOWN_BOX : Box := FrameBox thinDownBox.
Definition THIN_UP_BOX : Box := FrameBox thinUpBox.
Definition highlightUpBox : Box := HighlightBox "highlight_up" THIN_UP_BOX.
Definition highlightDownBox : Box := HighlightBox "highlight_down" THIN_DOWN_BOX.

(* ================================================================== *)
(** ** StatusBarGroup *)

Inductive Position : Type := SBAR_LEFT | SBAR_CENTER | SBAR_RIGHT.

(** An array of three, indexed by a [Position]. *)
Record Slots (A : Type) : Type := mkSlots { at_left : A; at_center : A; at_right : A }.
Arguments mkSlots {A}.
Arguments at_left {A}.
Arguments at_center {A}.
Arguments at_right {A}.

Definition get {A} (pos : Position) (a : Slots A) : A :=
  match pos with
  | SBAR_LEFT => at_left a
  | SBAR_CENTER => at_center a
  | SBAR_RIGHT => at_right a
  end.

Definition put {A} (pos : Position) (v : A) (a : Slots A) : Slots A :=
  match pos with
  | SBAR_LEFT => mkSlots v (at_center a) (at_right a)
  | SBAR_CENTER => mkSlots (at_left a) v (at_right a)
  | SBAR_RIGHT => mkSlots (at_left a) (at_center a) v
  end.

(** Modelled from the spec: the text box of a label slot ([fltk::InvisibleBox],
    fltk/InvisibleBox.h is not among the sources): its box style, its
    rectangle, its label (null until [copy_label]) and its alignment. *)
Record InvisibleBox : Type := mkInvisibleBox {
  ib_box : Box;
  ib_rect : Rectangle;
  ib_label : option string;
  ib_align : Flags
}.

(** Modelled from the spec: [Widget::measure_label], the "generic
    measureLabel(text, font, size) -> (w,h)" of the widget tree, here of the
    widget whose label is measured. *)
Class LabelMetrics : Type := {
  measure_label : InvisibleBox -> Z * Z
}.

(** A sibling of the status bar in its parent. *)
Record Widget : Type := mkWidget {
  wd_rect : Rectangle;
  is_group : bool
}.

(** An entry of the parent's child array: the status bar itself or another
    widget.  [This] is the entry that the loop's pointer comparison with [this]
    skips. *)
Inductive Child : Type :=
| This
| Sibling (w : Widget).

(** The parent as [resize_from_parent] reads it. *)
Record Group : Type := mkGroup {
  g_w : Z;
  g_h : Z;
  g_box : Box;
  g_children : list Child
}.

(** The status bar: the rectangle and box it has as a widget and the two
    arrays of StatusBarGroup.h. *)
Record StatusBarGroup : Type := mkStatusBarGroup {
  rect : Rectangle;
  box : Box;
  tf_ : Slots (option InvisibleBox);
  b_ : Slots Box
}.

(** The status bar in its parent, if it has one. *)
Record Tree : Type := mkTree {
  bar : StatusBarGroup;
  parent : option Group
}.

(** Calls that leave the modelled fields alone. *)
Inductive Event : Type :=
| ev_current_0
| ev_add (pos : Position)
| ev_delete (pos : Position)
| ev_redraw
| ev_init_sizes (i : nat).

Definition box_dx (b : Box) : Z := dx (boxinfo b).
Definition box_dy (b : Box) : Z := dy (boxinfo b).
Definition box_dw (b : Box) : Z := dw (boxinfo b).
Definition box_dh (b : Box) : Z := dh (boxinfo b).

Module StatusBarGroupM.

Definition BORDER_WIDTH : Z := 2.

Definition with_rect (r : Rectangle) (g : StatusBarGroup) : StatusBarGroup :=
  mkStatusBarGroup r (box g) (tf_ g) (b_ g).

Definition with_tf (tf : Slots (option InvisibleBox)) (g : StatusBarGroup)
  : StatusBarGroup :=
  mkStatusBarGroup (rect g) (box g) tf (b_ g).

Definition ib_with_rect (r : Rectangle) (b : InvisibleBox) : InvisibleBox :=
  mkInvisibleBox (ib_box b) r (ib_label b) (ib_align b).

(** [update_box(b, pos)]: the box [b] points at afterwards.  The final
    [b->damage()] only reads the damage bits. *)
Definition update_box `{LabelMetrics} (g : StatusBarGroup)
  (b : option InvisibleBox) (pos : Position) : option InvisibleBox :=
  match b with
  | None => None
  | Some b =>
    let '(X, Y) := measure_label b in
    let X := X +i (box_dw (get pos (b_ g)) +i 1) *i 2 in
    let b := ib_with_rect
               (set_h (h_ (rect g) -i (box_dh (box g) +i BORDER_WIDTH) *i 2)
                      (set_w X (ib_rect b))) b in
    let x :=
      match pos with
      | SBAR_LEFT => box_dx (box g)
      | SBAR_CENTER => (rect_r (rect g) -i w_ (ib_rect b)) /i 2
      | SBAR_RIGHT =>
        rect_r (rect g) -i w_ (ib_rect b) -i box_dw (box g) -i BORDER_WIDTH
      end in
    Some (ib_with_rect (set_x x (ib_rect b)) b)
  end.

(** The body of the loop over the parent's children, for child [i]. *)
Definition shrink_child (top : Z) (i : nat) (c : Child) : Child * list Event :=
  match c with
  | This => (This, [])
  | Sibling w =>
    let delta := rect_b (wd_rect w) -i top in
    if 0 <? delta then
      let r := wd_rect w in
      let h := if 0 <? h_ r -i delta then h_ r -i delta else 0 in
      (Sibling (mkWidget (mkRect (x_ r) (y_ r) (w_ r) h) (is_group w)),
       if is_group w then [ev_init_sizes i] else [])
    else (c, [])
  end.

Fixpoint shrink_children (top : Z) (i : nat) (cs : list Child)
  : list Child * list Event :=
  match cs with
  | [] => ([], [])
  | c :: cs' =>
    let '(c', ev) := shrink_child top i c in
    let '(cs'', evs) := shrink_children top (S i) cs' in
    (c' :: cs'', ev ++ evs)
  end.

Definition update_boxes `{LabelMetrics} (g : StatusBarGroup) : StatusBarGroup :=
  let g := with_tf (put SBAR_LEFT (update_box g (get SBAR_LEFT (tf_ g)) SBAR_LEFT) (tf_ g)) g in
  let g := with_tf (put SBAR_CENTER (update_box g (get SBAR_CENTER (tf_ g)) SBAR_CENTER) (tf_ g)) g in
  with_tf (put SBAR_RIGHT (update_box g (get SBAR_RIGHT (tf_ g)) SBAR_RIGHT) (tf_ g)) g.

Definition resize_from_parent `{LabelMetrics} (t : Tree) : Tree * list Event :=
  match parent t with
  | None => (t, [])
  | Some p =>
    let g := bar t in
    let g := with_rect (set_x (box_dx (g_box p)) (rect g)) g in
    let g := with_rect (set_w (g_w p -i box_dw (g_box p)) (rect g)) g in
    let g := with_rect (set_y (g_h p -i box_dh (g_box p) -i h_ (rect g)) (rect g)) g in
    let '(cs, evs) := shrink_children (y_ (rect g)) 0 (g_children p) in
    (mkTree (update_boxes g) (Some (mkGroup (g_w p) (g_h p) (g_box p) cs)), evs)
  end.

(** [!t || !*t]. *)
Definition no_text (t : option string) : bool :=
  match t with
  | None => true
  | Some EmptyString => true
  | Some _ => false
  end.

(** [set(const char* t, Position pos)]. *)
Definition set `{Platform} `{LabelMetrics} (t : option string) (pos : Position)
  (g : StatusBarGroup) : StatusBarGroup * list Event :=
  if no_text t then
    match get pos (tf_ g) with
    | Some _ => (with_tf (put pos None (tf_ g)) g, [ev_delete pos])
    | None => (g, [])
    end
  else
    let '(b, ev) :=
      match get pos (tf_ g) with
      | Some b => (b, [])
      | None =>
        (mkInvisibleBox (get pos (b_ g))
           (mkRect (box_dx (box g)) (box_dh (box g) +i BORDER_WIDTH) 10 10)
           None (Z.lor ALIGN_LEFT ALIGN_INSIDE),
         [ev_current_0; ev_add pos])
      end in
    let b := mkInvisibleBox (ib_box b) (ib_rect b) t (ib_align b) in
    let g := with_tf (put pos (Some b) (tf_ g)) g in
    let g := with_tf (put pos (update_box g (get pos (tf_ g)) pos) (tf_ g)) g in
    (g, ev ++ [ev_redraw]).

(** An argument of the variadic [set]. *)
Inductive Arg : Type :=
| arg_int (n : Z)
| arg_str (s : string).

Definition decimal (n : Z) : string := NilZero.string_of_int (Z.to_int n).

(** The C library's [vsprintf] on the conversions [%d], [%s] and [%%];
    [None] for any other conversion or an argument of the wrong kind. *)
Fixpoint vsprintf (format : string) (args : list Arg) : option string :=
  match format with
  | EmptyString => Some EmptyString
  | String "%"%char (String "d"%char f) =>
    match args with
    | arg_int n :: args' => option_map (append (decimal n)) (vsprintf f args')
    | _ => None
    end
  | String "%"%char (String "s"%char f) =>
    match args with
    | arg_str s :: args' => option_map (append s) (vsprintf f args')
    | _ => None
    end
  | String "%"%char (String "%"%char f) =>
    option_map (String "%"%char) (vsprintf f args)
  | String "%"%char _ => None
  | String c f => option_map (String c) (vsprintf f args)
  end.

(** Capacity of [static char buffer[512]]. *)
Definition buffer_size : nat := 512.

(** [set(Position pos, const char* format, ...)]. *)
Definition set_format `{Platform} `{LabelMetrics} (pos : Position)
  (format : string) (args : list Arg) (g : StatusBarGroup)
  : option (StatusBarGroup * list Event) :=
  match vsprintf format args with
  | Some buffer =>
    if (String.length buffer <? buffer_size)%nat
    then Some (set (Some buffer) pos g)
    else None
  | None => None
  end.

(** [init()], as far as it touches the modelled fields. *)
Definition init `{LabelMetrics} (t : Tree) : Tree * list Event :=
  let g := bar t in
  let g := mkStatusBarGroup (rect g) THIN_DOWN_BOX
             (mkSlots None None None) (mkSlots FLAT_BOX FLAT_BOX FLAT_BOX) in
  resize_from_parent (mkTree g (parent t)).

(** The constructor [StatusBarGroup(int H)] of a bar outside any group. *)
Definition make `{LabelMetrics} (H : Z) : Tree :=
  fst (init (mkTree (mkStatusBarGroup (mkRect 0 0 0 H) FLAT_BOX
                       (mkSlots None None None)
                       (mkSlots FLAT_BOX FLAT_BOX FLAT_BOX)) None)).

End StatusBarGroupM.

(** Modelled from the spec: the content rectangle of a group in the
    coordinates of its children: "(dx, dy) = top-left content offset,
    (dw, dh) = total width/height consumed by the border". *)
Definition content_rect (p : Group) : Rectangle :=
  mkRect (box_dx (g_box p)) (box_dy (g_box p))
         (g_w p -i box_dw (g_box p)) (g_h p -i box_dh (g_box p)).

(** Label metrics for the concrete runs below: six pixels a character,
    twelve high. *)
Definition example_metrics : LabelMetrics :=
  {| measure_label := fun b =>
       match ib_label b with
       | Some s => (6 * Z.of_nat (String.length s), 12)
       | None => (0, 0)
       end |}.

(** A platform and a style for the concrete runs below: distinct flag bits,
    [GRAY00 = 32], signed [char]; background 49 and foreground 56 whatever the
    flags. *)
Definition example_platform : Platform :=
  {| FOCUSED := 1; PUSHED := 2; VALUE := 4; INVISIBLE := 8; HIGHLIGHT := 16;
     SELECTED := 32; INACTIVE := 64; ALIGN_LEFT := 128; ALIGN_INSIDE := 256;
     GRAY00 := 32; DOT := 2; char_signed := true;
     build := PORTABLE; transform := fun r => r; stipples_made := false |}.

(** The same on X11 and on Windows, drawing at the offset (100, 50) of the
    window, in a process that has drawn a focus frame before. *)
Definition x11_platform : Platform :=
  {| FOCUSED := 1; PUSHED := 2; VALUE := 4; INVISIBLE := 8; HIGHLIGHT := 16;
     SELECTED := 32; INACTIVE := 64; ALIGN_LEFT := 128; ALIGN_INSIDE := 256;
     GRAY00 := 32; DOT := 2; char_signed := true;
     build := USE_X11;
     transform := fun r => mkRect (x_ r + 100) (y_ r + 50) (w_ r) (h_ r);
     stipples_made := true |}.

Definition win32_platform : Platform :=
  {| FOCUSED := 1; PUSHED := 2; VALUE := 4; INVISIBLE := 8; HIGHLIGHT := 16;
     SELECTED := 32; INACTIVE := 64; ALIGN_LEFT := 128; ALIGN_INSIDE := 256;
     GRAY00 := 32; DOT := 2; char_signed := true;
     build := WIN32;
     transform := fun r => mkRect (x_ r + 100) (y_ r + 50) (w_ r) (h_ r);
     stipples_made := false |}.

Definition example_style : Style :=
  mkStyle (fun _ => (49, 56)) 56 true.

(* ================================================================== *)
(** ** The bezel loop, one edge at a time *)

Inductive Edge : Type := Bottom | Right | Top | Left.

Definition next_edge (e : Edge) : Edge :=
  match e with
  | Bottom => Right
  | Right => Top
  | Top => Left
  | Left => Bottom
  end.

(** The step of the loop that draws the edge [e], for the character [c]. *)
Definition loop_edge `{Platform} (e : Edge) (c : ascii) (r : Rectangle)
  : list DrawOp * Rectangle :=
  match e with
  | Bottom => FrameBoxM.bottom_line (char_val c) r
  | Right => FrameBoxM.right_line (char_val c) r
  | Top => FrameBoxM.top_line (char_val c) r
  | Left => FrameBoxM.left_line (char_val c) r
  end.

(** The steps of the loop taken one character at a time, from the edge [e]
    on, with the test of the loop after every step and the code after the
    loop at the end of the text. *)
Fixpoint unrolled `{Platform} (style : Style) (flags : Flags)
  (e : Edge) (p : string) (r : Rectangle) : list DrawOp :=
  match p with
  | EmptyString => FrameBoxM.interior style flags r
  | String c p' =>
    let '(ops, r') := loop_edge e c r in
    if (w_ r' <=? 0) || (h_ r' <=? 0) then ops
    else ops ++ unrolled style flags (next_edge e) p' r'
  end.

(* ================================================================== *)
(** ** The bezel as the specification describes it

    Written from the words of the specification, in plain integers and
    without reference to the code. *)

(** "each character encodes a gray shade: 'A'=black, ... mapped linearly
    across 24 gray steps": the colour [c - 'A'] steps above black. *)
Definition gray_shade `{Platform} (c : ascii) : Color :=
  to_color (GRAY00 + (char_val c - char_code "A")).

(** The row or column of pixels along the edge [e] of [r], as the two end
    points of a line: the bottom edge is the last row, the right edge the
    last column, the top edge the first row, the left edge the first
    column. *)
Definition edge_of (e : Edge) (r : Rectangle) : DrawOp :=
  let left := x_ r in
  let top := y_ r in
  let right := x_ r + w_ r - 1 in
  let bottom := y_ r + h_ r - 1 in
  match e with
  | Bottom => drawline left bottom right bottom
  | Right => drawline right top right bottom
  | Top => drawline left top right top
  | Left => drawline left top left bottom
  end.

(** "shrink the working rectangle by one pixel on that edge's side (e.g.,
    after drawing the bottom edge, move the bottom boundary up by one)". *)
Definition shrunk (e : Edge) (r : Rectangle) : Rectangle :=
  match e with
  | Bottom => mkRect (x_ r) (y_ r) (w_ r) (h_ r - 1)
  | Right => mkRect (x_ r) (y_ r) (w_ r - 1) (h_ r)
  | Top => mkRect (x_ r) (y_ r + 1) (w_ r) (h_ r - 1)
  | Left => mkRect (x_ r + 1) (y_ r) (w_ r - 1) (h_ r)
  end.

(** Drawing one edge in the shade of [c], and the working rectangle after
    it. *)
Definition edge_step `{Platform} (e : Edge) (c : ascii) (r : Rectangle)
  : list DrawOp * Rectangle :=
  ([setcolor (gray_shade c); edge_of e r], shrunk e r).

(** "one edge per character, in the cyclic order bottom, right, top, left";
    "stop drawing further edges, returning immediately, if the shrinking
    rectangle's width or height becomes <= 0"; "after consuming all
    characters, if the INVISIBLE flag is not set, fill the remaining interior
    rectangle with the style's resolved background color". *)
Fixpoint spiral `{Platform} (style : Style) (flags : Flags)
  (e : Edge) (p : string) (r : Rectangle) : list DrawOp :=
  match p with
  | EmptyString =>
    if has flags INVISIBLE then []
    else [setcolor (fst (boxcolors style flags)); fillrect r]
  | String c p' =>
    let '(ops, r') := edge_step e c r in
    if (w_ r' <=? 0) || (h_ r' <=? 0) then ops
    else ops ++ spiral style flags (next_edge e) p' r'
  end.

(** "top, left, bottom, right if the leading '2' flag is present - the
    leading character is consumed as a mode switch, not a color". *)
Definition spiral_draw `{Platform} (style : Style) (flags : Flags)
  (p : string) (r : Rectangle) : list DrawOp :=
  match p with
  | String "2"%char body => spiral style flags Top body r
  | _ => spiral style flags Bottom p r
  end.

(** The characters of a pattern that stand for edges. *)
Definition body (p : string) : string :=
  match p with
  | String "2"%char b => b
  | _ => p
  end.

(** Patterns as the static boxes have them: the edge characters come in
    pairs and there is at least one pair. *)
Definition paired (p : string) : Prop :=
  Nat.even (String.length (body p)) = true /\ body p <> EmptyString.

(** Concrete boxes, bars and parents for the runs below. *)
Definition oddBox : FrameBoxT := FrameBoxM.make "odd" "A" None.

(** A box with a bezel of thirteen pairs: a pattern of 26 letters. *)
Definition longBox : FrameBoxT :=
  FrameBoxM.make "long" "AAAAAAAAAAAAAAAAAAAAAAAAAA" None.

Definition empty_slots : Slots (option InvisibleBox) := mkSlots None None None.
Definition flat_slots : Slots Box := mkSlots FLAT_BOX FLAT_BOX FLAT_BOX.

(** A bar of height 24 as its constructor leaves it. *)
Definition new_bar : StatusBarGroup :=
  mkStatusBarGroup (mkRect 0 0 0 24) THIN_DOWN_BOX empty_slots flat_slots.

(** The same bar laid out at the bottom of a 300x200 parent. *)
Definition placed_bar : StatusBarGroup :=
  mkStatusBarGroup (mkRect 0 176 300 24) THIN_DOWN_BOX empty_slots flat_slots.

(** A bar whose right slot already shows "old". *)
Definition old_box : InvisibleBox :=
  mkInvisibleBox FLAT_BOX (mkRect 276 4 20 16) (Some "old") 384.

Definition occupied_bar : StatusBarGroup :=
  mkStatusBarGroup (mkRect 0 176 300 24) THIN_DOWN_BOX
    (mkSlots None None (Some old_box)) flat_slots.

(** A 300x200 parent with a flat box, holding two widgets and the bar. *)
Definition flat_parent : Group :=
  mkGroup 300 200 FLAT_BOX
    [Sibling (mkWidget (mkRect 10 150 50 40) true); This;
     Sibling (mkWidget (mkRect 10 100 50 50) false)].

(** A 300x200 parent drawn with THIN_DOWN_BOX, holding the bar only. *)
Definition framed_parent : Group := mkGroup 300 200 THIN_DOWN_BOX [This].

(** A rectangle the loop keeps working on: non-empty and of [int] extent. *)
Definition workable (r : Rectangle) : Prop :=
  0 < w_ r /\ 0 < h_ r /\ int_sized r.

(** The inactive remap as the specification states it:
    "new_shade = 'M' + (old_shade - 'A')/3, preserving the leading mode
    character unchanged". *)
Definition new_shade (old_shade : Z) : Z :=
  char_code "M" + Z.quot (old_shade - char_code "A") 3.

Fixpoint string_map (f : ascii -> ascii) (s : string) : string :=
  match s with
  | EmptyString => EmptyString
  | String c s' => String (f c) (string_map f s')
  end.

Definition dimmed `{Platform} (p : string) : string :=
  let remap c := to_char (new_shade (char_val c)) in
  match p with
  | String "2"%char b => String "2"%char (string_map remap b)
  | _ => string_map remap p
  end.

(* ================================================================== *)
(** ** Vocabulary of the further properties *)

(** A rectangle all of whose fields are [int]s. *)
Definition int_rect (r : Rectangle) : Prop :=
  I32.in_range (x_ r) /\ I32.in_range (y_ r)
  /\ I32.in_range (w_ r) /\ I32.in_range (h_ r).

(** A rectangle whose right and bottom edges are [int]s too. *)
Definition int_box (r : Rectangle) : Prop :=
  int_rect r /\ I32.in_range (x_ r + w_ r) /\ I32.in_range (y_ r + h_ r).

(** [r] lies within [R]. *)
Definition within (R r : Rectangle) : Prop :=
  x_ R <= x_ r /\ y_ R <= y_ r
  /\ x_ r + w_ r <= x_ R + w_ R /\ y_ r + h_ r <= y_ R + h_ R.

(** A primitive that touches no pixel outside [R]: a line has both end
    points in [R], a filled or stroked rectangle lies within [R], and what a
    call of the window system draws is the outline, or one of the four edge
    strips, of the image under [transform] of a rectangle within [R].  The
    calls that set a colour, a style, a stipple or a brush draw nothing. *)
Definition inside `{Platform} (R : Rectangle) (op : DrawOp) : Prop :=
  match op with
  | fillrect r => within R r
  | strokerect r => within R r
  | drawline x1 y1 x2 y2 =>
    (x_ R <= x1 < x_ R + w_ R) /\ (y_ R <= y1 < y_ R + h_ R)
    /\ (x_ R <= x2 < x_ R + w_ R) /\ (y_ R <= y2 < y_ R + h_ R)
  | XDrawRectangle x y w h =>
    exists r, within R r
      /\ x = x_ (transform r) /\ y = y_ (transform r)
      /\ w = w_ (transform r) -i 1 /\ h = h_ (transform r) -i 1
  | PatBlt x y w h =>
    exists r, within R r
      /\ ((x = x_ (transform r) /\ y = y_ (transform r)
           /\ w = w_ (transform r) /\ h = 1)
          \/ (x = x_ (transform r) /\ y = rect_b (transform r) -i 1
              /\ w = w_ (transform r) /\ h = 1)
          \/ (x = x_ (transform r) /\ y = y_ (transform r)
              /\ w = 1 /\ h = h_ (transform r))
          \/ (x = rect_r (transform r) -i 1 /\ y = y_ (transform r)
              /\ w = 1 /\ h = h_ (transform r)))
  | _ => True
  end.

Definition is_fill (op : DrawOp) : bool :=
  match op with
  | fillrect _ => true
  | _ => false
  end.

Definition is_line (op : DrawOp) : bool :=
  match op with
  | drawline _ _ _ _ => true
  | _ => false
  end.

(** One edge of the bezel in the shade of the character value [c]. *)
Definition edge_line `{Platform} (e : Edge) (c : Z) (r : Rectangle)
  : list DrawOp * Rectangle :=
  match e with
  | Bottom => FrameBoxM.bottom_line c r
  | Right => FrameBoxM.right_line c r
  | Top => FrameBoxM.top_line c r
  | Left => FrameBoxM.left_line c r
  end.

(** The number of pairs of edge characters of a pattern. *)
Definition pairs (p : string) : Z := Z.of_nat (String.length (body p)) / 2.

(** Modelled from the spec: [Box::inset] (fltk/Box.h is not among the
    sources), the rectangle left inside the border: "(dx, dy) = top-left
    content offset, (dw, dh) = total width/height consumed by the border". *)
Definition inset (b : BoxInfo) (r : Rectangle) : Rectangle :=
  mkRect (x_ r +i dx b) (y_ r +i dy b) (w_ r -i dw b) (h_ r -i dh b).

(** The gray-shade letters ['A'] to ['X']. *)
Definition is_shade (c : ascii) : bool :=
  (char_code "A" <=? char_code c) && (char_code c <=? char_code "X").

Fixpoint shades (s : string) : bool :=
  match s with
  | EmptyString => true
  | String c s' => is_shade c && shades s'
  end.

(** A pattern as the comment of [FrameBox] describes it: shade letters in
    pairs after an optional ['2'], short enough for [buf]. *)
Definition pattern_ok (p : string) : bool :=
  shades (body p)
  && Nat.even (String.length (body p))
  && negb (String.length (body p) =? 0)%nat
  && (String.length p <? FrameBoxM.buf_size)%nat.

Definition frame_ok (f : FrameBoxT) : bool :=
  pattern_ok (FrameBoxM.data f) && pattern_ok (FrameBoxM.data (FrameBoxM.down f)).

Fixpoint box_ok (b : Box) : bool :=
  match b with
  | FrameBox f => frame_ok f
  | HighlightBox _ d => box_ok d
  | _ => true
  end.

(** Every box UpBox.cxx defines. *)
Definition static_boxes : list Box :=
  [dottedFrame; noBox; flatBox; FrameBox downBox; FrameBox upBox;
   FrameBox thinDownBox; FrameBox thinUpBox; FrameBox engravedBox;
   FrameBox embossedBox; FrameBox borderBox; borderFrame;
   highlightUpBox; highlightDownBox].

(** What every primitive of a bezel drawn into [R] satisfies: it stays inside
    [R], and it is a fill only when [INVISIBLE] is off. *)
Definition fair `{Platform} (flags : Flags) (R : Rectangle) (op : DrawOp) : Prop :=
  inside R op /\ (is_fill op = true -> has flags INVISIBLE = false).

(** The shades ['M'] to ['T'] of an inactive box. *)
Definition is_mid_shade (c : ascii) : bool :=
  (char_code "M" <=? char_code c) && (char_code c <=? char_code "T").

Fixpoint mid_shades (s : string) : bool :=
  match s with
  | EmptyString => true
  | String c s' => is_mid_shade c && mid_shades s'
  end.

(* ================================================================== *)
(** ** More of StatusBarGroup *)

(** [child_box(Box* b, Position i)] of StatusBarGroup.h:
    [b_[i] = b; if (tf_[i]) tf_[i]->box(b);]. *)
Definition child_box (b : Box) (i : Position) (g : StatusBarGroup)
  : StatusBarGroup :=
  let g := mkStatusBarGroup (rect g) (box g) (tf_ g) (put i b (b_ g)) in
  match get i (tf_ g) with
  | Some ib =>
    StatusBarGroupM.with_tf
      (put i (Some (mkInvisibleBox b (ib_rect ib) (ib_label ib) (ib_align ib)))
           (tf_ g)) g
  | None => g
  end.

(** [child_box(Box* b)]: the same for the three positions in turn. *)
Definition child_box_all (b : Box) (g : StatusBarGroup) : StatusBarGroup :=
  child_box b SBAR_RIGHT (child_box b SBAR_CENTER (child_box b SBAR_LEFT g)).

(** [layout()]: [Group::layout()], which is not among the sources and is
    taken as [group_layout], and then [resize_from_parent()]. *)
Definition layout `{LabelMetrics} (group_layout : Tree -> Tree * list Event)
  (t : Tree) : Tree * list Event :=
  let '(t1, ev1) := group_layout t in
  let '(t2, ev2) := StatusBarGroupM.resize_from_parent t1 in
  (t2, ev1 ++ ev2).

(** Every allocated slot box is drawn with the box recorded for its slot. *)
Definition styled (g : StatusBarGroup) : Prop :=
  forall pos ib, get pos (tf_ g) = Some ib -> ib_box ib = get pos (b_ g).

(** A coordinate between [-2^29] and [2^29], both included: the sums and
    differences the loop over the siblings forms of three such values stay
    within [int]. *)
Definition modest (z : Z) : Prop := - 2 ^ 29 <= z <= 2 ^ 29.

Definition modest_child (c : Child) : Prop :=
  match c with
  | This => True
  | Sibling w => modest (y_ (wd_rect w)) /\ modest (h_ (wd_rect w))
  end.

(** A child that does not reach below [top]: its bottom edge is at or above
    [top], or it has no height left. *)
Definition clear_of (top : Z) (c : Child) : Prop :=
  match c with
  | This => True
  | Sibling w => rect_b (wd_rect w) <= top \/ h_ (wd_rect w) = 0
  end.

(* ================================================================== *)
(** ** The UTF-8 functions of utf.c

    A byte range [p .. end) is the [string] of its bytes (which may hold
    NULs); a position in it is an index. *)

Module Utf8.

(** Codes 0x80..0x9f of CP1252, translated to Unicode. *)
Definition cp1252 : list Z :=
  [0x20ac; 0x0081; 0x201a; 0x0192; 0x201e; 0x2026; 0x2020; 0x2021;
   0x02c6; 0x2030; 0x0160; 0x2039; 0x0152; 0x008d; 0x017d; 0x008f;
   0x0090; 0x2018; 0x2019; 0x201c; 0x201d; 0x2022; 0x2013; 0x2014;
   0x02dc; 0x2122; 0x0161; 0x203a; 0x0153; 0x009d; 0x017e; 0x0178].

(** [(b & 0xc0) != 0x80]. *)
Definition not_continuation (b : ascii) : bool :=
  negb (Z.land (char_code b) 0xc0 =? 0x80).

(** [utf8decode(p, end, &len)] on the bytes from [p] to [end]: the value
    returned and [*len].  The first byte is read before [end] is looked at,
    so there is no result on an empty range. *)
Definition utf8decode (s : string) : option (Z * Z) :=
  match s with
  | EmptyString => None
  | String p0 rest =>
    let c := char_code p0 in
    let FAIL := Some (c, 1) in
    if c <? 0x80 then Some (c, 1)
    else if c <? 0xa0 then Some (nth (Z.to_nat (c - 0x80)) cp1252 0, 1)
    else if c <? 0xc2 then Some (c, 1)
    else
      match rest with
      | EmptyString => FAIL
      | String p1 rest1 =>
        if not_continuation p1 then FAIL
        else
          let UTF8_3 :=
            match rest1 with
            | EmptyString => FAIL
            | String p2 _ =>
              if not_continuation p2 then FAIL
              else Some (Z.shiftl (Z.land c 0x0f) 12
                         + Z.shiftl (Z.land (char_code p1) 0x3f) 6
                         + Z.land (char_code p2) 0x3f, 3)
            end in
          let UTF8_4 :=
            match rest1 with
            | String p2 (String p3 _) =>
              if not_continuation p2 || not_continuation p3 then FAIL
              else Some (Z.shiftl (Z.land c 0x07) 18
                         + Z.shiftl (Z.land (char_code p1) 0x3f) 12
                         + Z.shiftl (Z.land (char_code p2) 0x3f) 6
                         + Z.land (char_code p3) 0x3f, 4)
            | _ => FAIL
            end in
          if c <? 0xe0 then
            Some (Z.shiftl (Z.land c 0x1f) 6 + Z.land (char_code p1) 0x3f, 2)
          else if c =? 0xe0 then
            if char_code p1 <? 0xa0 then FAIL else UTF8_3
          else if c <? 0xf0 then UTF8_3
          else if c =? 0xf0 then
            if char_code p1 <? 0x90 then FAIL else UTF8_4
          else if c <? 0xf4 then UTF8_4
          else if c =? 0xf4 then
            if 0x8f <? char_code p1 then FAIL else UTF8_4
          else FAIL
      end
  end.

(** [utf8len(cc)]. *)
Definition utf8len (cc : ascii) : Z :=
  let c := char_code cc in
  if c <? 0xc2 then 1
  else if c <? 0xe0 then 2
  else if c <? 0xf0 then 3
  else if c <? 0xf5 then 4
  else 1.

(** [utf8bytes(ucs)]. *)
Definition utf8bytes (ucs : Z) : Z :=
  if ucs <? 0x000080 then 1
  else if ucs <? 0x000800 then 2
  else if ucs <? 0x010000 then 3
  else if ucs <? 0x10ffff then 4
  else 3.

(** [utf8encode(ucs, buf)]: the value returned and the bytes written to
    [buf], from [buf[0]] on. *)
Definition utf8encode (ucs : Z) : Z * string :=
  if ucs <? 0x000080 then
    (1, String (to_char ucs) EmptyString)
  else if ucs <? 0x000800 then
    (2, String (to_char (Z.lor 0xc0 (Z.shiftr ucs 6)))
          (String (to_char (Z.lor 0x80 (Z.land ucs 0x3F))) EmptyString))
  else if ucs <? 0x010000 then
    (3, String (to_char (Z.lor 0xe0 (Z.shiftr ucs 12)))
          (String (to_char (Z.lor 0x80 (Z.land (Z.shiftr ucs 6) 0x3F)))
             (String (to_char (Z.lor 0x80 (Z.land ucs 0x3F))) EmptyString)))
  else if ucs <? 0x0010ffff then
    (4, String (to_char (Z.lor 0xf0 (Z.shiftr ucs 18)))
          (String (to_char (Z.lor 0x80 (Z.land (Z.shiftr ucs 12) 0x3F)))
             (String (to_char (Z.lor 0x80 (Z.land (Z.shiftr ucs 6) 0x3F)))
                (String (to_char (Z.lor 0x80 (Z.land ucs 0x3F))) EmptyString))))
  else
    (3, String (to_char 0xef) (String (to_char 0xbf)
          (String (to_char 0xbd) EmptyString))).

(** The bytes from [p + n] on, for the bytes [s] from [p] on. *)
Fixpoint skip (n : nat) (s : string) : string :=
  match n, s with
  | O, _ => s
  | S n', String _ r => skip n' r
  | S _, EmptyString => EmptyString
  end.

(** [*p & 0x80]. *)
Definition high_bit (b : ascii) : bool :=
  negb (Z.land (char_code b) 0x80 =? 0).

(** [a[0] & 0x40]. *)
Definition bit_40 (b : ascii) : bool :=
  negb (Z.land (char_code b) 0x40 =? 0).

(** The loop of [utf8test] on the bytes [s] from [p] to [e], with the
    current [ret].  Every turn moves [p] by one byte at least, so as many
    turns as there are bytes are enough. *)
Fixpoint utf8test_loop (turns : nat) (s : string) (ret : Z) : option Z :=
  match s with
  | EmptyString => Some ret
  | String p0 rest =>
    match turns with
    | O => None
    | S turns' =>
      if high_bit p0 then
        match utf8decode s with
        | None => None
        | Some (_, len) =>
          if len <? 2 then Some 0
          else utf8test_loop turns' (skip (Z.to_nat len) s)
                 (if ret <? len then len else ret)
        end
      else utf8test_loop turns' rest ret
    end
  end.

(** [utf8test(src, srclen)] on the [srclen] bytes [src]. *)
Definition utf8test (src : string) : option Z :=
  utf8test_loop (String.length src) src 1.

(** The search backwards of [utf8fwd] and [utf8back] in the bytes [buf]
    from [start] to [end], from the offset [a] down: the offset of the byte
    the loop breaks at, or [None] where the functions return [p]. *)
Fixpoint lead (buf : string) (a : nat) : option nat :=
  match String.get a buf with
  | None => None
  | Some b =>
    if negb (high_bit b) then None
    else if bit_40 b then Some a
    else match a with
         | O => None
         | S a' => lead buf a'
         end
  end.

(** [utf8fwd(p, start, end)] for [p] at the offset [p] of the bytes [buf]
    from [start] to [end]; the result is an offset too.  There is no result
    where [p] is not before [end]. *)
Definition utf8fwd (buf : string) (p : nat) : option nat :=
  match String.get p buf with
  | None => None
  | Some b =>
    if not_continuation b then Some p
    else
      match p with
      | O => Some p
      | S p' =>
        match lead buf p' with
        | None => Some p
        | Some a =>
          match utf8decode (skip a buf) with
          | None => None
          | Some (_, len) =>
            if (p <? a + Z.to_nat len)%nat then Some (a + Z.to_nat len)%nat
            else Some p
          end
        end
      end
  end.

(** [utf8back(p, start, end)], in the same way. *)
Definition utf8back (buf : string) (p : nat) : option nat :=
  match String.get p buf with
  | None => None
  | Some b =>
    if not_continuation b then Some p
    else
      match p with
      | O => Some p
      | S p' =>
        match lead buf p' with
        | None => Some p
        | Some a =>
          match utf8decode (skip a buf) with
          | None => None
          | Some (_, len) =>
            if (p <? a + Z.to_nat len)%nat then Some a else Some p
          end
        end
      end
  end.

(** No byte has the high bit set. *)
Fixpoint all_ascii (s : string) : bool :=
  match s with
  | EmptyString => true
  | String b r => negb (high_bit b) && all_ascii r
  end.

(** The bytes [utf8encode] writes for each code of a list, one after the
    other. *)
Fixpoint encode_all (l : list Z) : string :=
  match l with
  | [] => EmptyString
  | ucs :: l' => snd (utf8encode ucs) ++ encode_all l'
  end.

(** An [unsigned] holds its value modulo 2^32. *)
Definition u32 (z : Z) : Z := z mod 2 ^ 32.

(** [dst[i] = b]: the index and the byte stored. *)
Definition Store : Type := (Z * ascii)%type.

(** The second loop of [utf8froma], which only measures: the final [count]
    for the bytes [s] from [p] to [e]. *)
Fixpoint froma_rest (s : string) (count : Z) : Z :=
  match s with
  | EmptyString => count
  | String p r =>
    froma_rest r
      (if char_code p <? 0x80 then u32 (count + 1) else u32 (count + 2))
  end.

(** The first loop of [utf8froma], entered with [dstlen] not zero: the value
    returned and the stores to [dst], in order. *)
Fixpoint froma_fill (s : string) (dstlen count : Z) : Z * list Store :=
  match s with
  | EmptyString => (count, [(count, zero)])
  | String p r =>
    let ucs := char_code p in
    if ucs <? 0x80 then
      let count1 := u32 (count + 1) in
      if count1 >=? dstlen then
        (froma_rest r count1, [(count, to_char ucs); (u32 (count1 - 1), zero)])
      else
        let '(n, ws) := froma_fill r dstlen count1 in
        (n, (count, to_char ucs) :: ws)
    else
      if u32 (count + 2) >=? dstlen then
        (froma_rest r (u32 (count + 2)), [(count, zero)])
      else
        let count1 := u32 (count + 1) in
        let '(n, ws) := froma_fill r dstlen (u32 (count1 + 1)) in
        (n, (count, to_char (Z.lor 0xc0 (Z.shiftr ucs 6)))
            :: (count1, to_char (Z.lor 0x80 (Z.land ucs 0x3F))) :: ws)
  end.

(** [utf8froma(dst, dstlen, src, srclen)] on the [srclen] bytes [src]. *)
Definition utf8froma (dstlen : Z) (src : string) : Z * list Store :=
  if dstlen =? 0 then (froma_rest src 0, [])
  else froma_fill src dstlen 0.

(** The second loop of [utf8toa]. *)
Fixpoint toa_rest (turns : nat) (s : string) (count : Z) : option Z :=
  match s with
  | EmptyString => Some count
  | String p0 rest =>
    match turns with
    | O => None
    | S turns' =>
      if negb (high_bit p0) then toa_rest turns' rest (u32 (count + 1))
      else
        match utf8decode s with
        | None => None
        | Some (_, len) =>
          toa_rest turns' (skip (Z.to_nat len) s) (u32 (count + 1))
        end
    end
  end.

(** The first loop of [utf8toa], entered with [dstlen] not zero. *)
Fixpoint toa_fill (turns : nat) (s : string) (dstlen count : Z)
  : option (Z * list Store) :=
  match s with
  | EmptyString => Some (count, [(count, zero)])
  | String p0 rest =>
    match turns with
    | O => None
    | S turns' =>
      let c := char_code p0 in
      let stored (next : string) (b : ascii) :=
        let count1 := u32 (count + 1) in
        if count1 >=? dstlen then
          match toa_rest turns' next count1 with
          | None => None
          | Some n => Some (n, [(count, b); (u32 (count1 - 1), zero)])
          end
        else
          match toa_fill turns' next dstlen count1 with
          | None => None
          | Some (n, ws) => Some (n, (count, b) :: ws)
          end in
      if c <? 0xC2 then stored rest (to_char c)
      else
        match utf8decode s with
        | None => None
        | Some (ucs, len) =>
          stored (skip (Z.to_nat len) s)
                 (if ucs <? 0x100 then to_char ucs else "?"%char)
        end
    end
  end.

(** [utf8toa(src, srclen, dst, dstlen)] on the [srclen] bytes [src]. *)
Definition utf8toa (src : string) (dstlen : Z) : option (Z * list Store) :=
  if dstlen =? 0 then
    match toa_rest (String.length src) src 0 with
    | None => None
    | Some n => Some (n, [])
    end
  else toa_fill (String.length src) src dstlen 0.

(** The codes of the bytes of a string. *)
Definition codes (s : string) : list Z :=
  map char_code (list_ascii_of_string s).

(** The bytes [s] stored one after the other from the index [i] on. *)
Fixpoint stores_of (i : Z) (s : string) : list Store :=
  match s with
  | EmptyString => []
  | String b r => (i, b) :: stores_of (i + 1) r
  end.

End Utf8.

(** The bytes of a text with one character of three bytes: a, U+20AC, b. *)
Definition euro_text : string :=
  String "a" (String (to_char 0xe2) (String (to_char 0x82)
    (String (to_char 0xac) (String "b" EmptyString)))).

(* ================================================================== *)
(** * Properties *)

(** ** Wrap-around arithmetic *)

Lemma wrap_small (z : Z) : I32.in_range z -> I32.wrap z = z.
Proof.
  unfold I32.in_range, I32.wrap. intros Hz.
  rewrite Z.mod_small by lia. lia.
Qed.

Lemma wrap_in_range (z : Z) : I32.in_range (I32.wrap z).
Proof.
  unfold I32.in_range, I32.wrap.
  pose proof (Z.mod_pos_bound (z + 2 ^ 31) (2 ^ 32) ltac:(lia)). lia.
Qed.

Lemma wrap_add_l (a b : Z) : I32.wrap (I32.wrap a + b) = I32.wrap (a + b).
Proof.
  unfold I32.wrap. f_equal.
  replace ((a + 2 ^ 31) mod 2 ^ 32 - 2 ^ 31 + b + 2 ^ 31)
    with ((a + 2 ^ 31) mod 2 ^ 32 + b) by lia.
  rewrite Zplus_mod_idemp_l. f_equal. lia.
Qed.

Lemma wrap_add_r (a b : Z) : I32.wrap (a + I32.wrap b) = I32.wrap (a + b).
Proof. rewrite Z.add_comm, wrap_add_l. f_equal. lia. Qed.

Lemma wrap_sub_l (a b : Z) : I32.wrap (I32.wrap a - b) = I32.wrap (a - b).
Proof. unfold Z.sub. apply wrap_add_l. Qed.

Lemma wrap_idem (a : Z) : I32.wrap (I32.wrap a) = I32.wrap a.
Proof.
  pose proof (wrap_add_l a 0) as E. rewrite !Z.add_0_r in E. exact E.
Qed.

(** Adding back what was subtracted gives the minuend (as an [int]). *)
Lemma sub_add_cancel (a b : Z) : (a -i b) +i b = I32.wrap a.
Proof.
  unfold I32.add, I32.sub. rewrite wrap_add_l. f_equal. lia.
Qed.

Lemma add_sub_cancel (a b : Z) : (a +i b) -i a = I32.wrap b.
Proof.
  unfold I32.add, I32.sub. rewrite wrap_sub_l. f_equal. lia.
Qed.

Lemma pred_pos (n : Z) : 0 < n -> I32.in_range n -> n +i (-1) = n - 1 /\ n -i 1 = n - 1.
Proof.
  unfold I32.add, I32.sub, I32.in_range. intros Hp Hr.
  split; apply wrap_small; unfold I32.in_range; lia.
Qed.

(** ** Flags *)

Lemma has_lor (flags a b : Flags) : has flags (Z.lor a b) = has flags a || has flags b.
Proof.
  unfold has. rewrite Z.land_lor_distr_r.
  destruct (Z.eqb_spec (Z.land flags a) 0) as [Ha | Ha];
    destruct (Z.eqb_spec (Z.land flags b) 0) as [Hb | Hb]; cbn;
    destruct (Z.eqb_spec (Z.lor (Z.land flags a) (Z.land flags b)) 0) as [H | H];
    try reflexivity; exfalso.
  - apply H. apply Z.lor_eq_0_iff. auto.
  - apply Z.lor_eq_0_iff in H. tauto.
  - apply Z.lor_eq_0_iff in H. tauto.
  - apply Z.lor_eq_0_iff in H. tauto.
Qed.

(** ** The bezel loop against the spiral *)

Lemma string_pair_ind (P : string -> Prop) :
  P EmptyString ->
  (forall c, P (String c EmptyString)) ->
  (forall c1 c2 s, P s -> P (String c1 (String c2 s))) ->
  forall s, P s.
Proof.
  intros H0 H1 H2.
  fix IH 1. intros [| c1 [| c2 s]].
  - exact H0.
  - apply H1.
  - apply H2. apply IH.
Qed.

(** Removes the wrap-around of sums that stay in range. *)
Ltac nowrap :=
  unfold rect_r, rect_b, I32.add, I32.sub in *;
  repeat match goal with
         | |- context [I32.wrap ?z] =>
           rewrite (wrap_small z) by (unfold I32.in_range in *; lia)
         end.

Section Bezel.

Context `{Platform} (style : Style) (flags : Flags).

Lemma loop_pair (hack : bool) (c1 c2 : ascii) (s2 : string) (r : Rectangle) :
  FrameBoxM.loop style flags hack (String c1 (String c2 s2)) r =
  let '(ops1, r1) :=
    (if hack then FrameBoxM.top_line else FrameBoxM.bottom_line) (char_val c1) r in
  if h_ r1 <=? 0 then Some ops1
  else
    let '(ops2, r2) :=
      (if hack then FrameBoxM.left_line else FrameBoxM.right_line) (char_val c2) r1 in
    if w_ r2 <=? 0 then Some (ops1 ++ ops2)
    else
      match s2 with
      | EmptyString => Some (ops1 ++ ops2 ++ FrameBoxM.interior style flags r2)
      | String _ _ =>
        option_map (fun rest => ops1 ++ ops2 ++ rest)
                   (FrameBoxM.loop style flags (negb hack) s2 r2)
      end.
Proof. reflexivity. Qed.

Lemma interior_unrolled (r : Rectangle) :
  FrameBoxM.interior style flags r = unrolled style flags Bottom EmptyString r.
Proof. reflexivity. Qed.

Lemma interior_spiral (e : Edge) (r : Rectangle) :
  FrameBoxM.interior style flags r = spiral style flags e EmptyString r.
Proof.
  unfold FrameBoxM.interior. cbn [spiral].
  destruct (has flags INVISIBLE); cbn; [reflexivity |].
  destruct (boxcolors style flags); reflexivity.
Qed.

Lemma unrolled_nil (e : Edge) (r : Rectangle) :
  unrolled style flags e EmptyString r = unrolled style flags Bottom EmptyString r.
Proof. reflexivity. Qed.

(** A vertical step ([Bottom], [Top]) takes one off the height, a horizontal
    one ([Right], [Left]) one off the width. *)
Lemma loop_edge_extent (e : Edge) (c : ascii) (r : Rectangle) :
  workable r ->
  let r' := snd (loop_edge e c r) in
  match e with
  | Bottom | Top => w_ r' = w_ r /\ h_ r' = h_ r - 1
  | Right | Left => w_ r' = w_ r - 1 /\ h_ r' = h_ r
  end.
Proof.
  intros (Hw & Hh & Hiw & Hih).
  destruct (pred_pos _ Hw Hiw) as [Hw1 Hw2].
  destruct (pred_pos _ Hh Hih) as [Hh1 Hh2].
  destruct e; cbn; auto.
Qed.

Lemma workable_step (e : Edge) (c : ascii) (r : Rectangle) :
  workable r ->
  let r' := snd (loop_edge e c r) in
  (w_ r' <=? 0) || (h_ r' <=? 0) = false ->
  workable r'.
Proof.
  intros Hr r' Hne.
  pose proof (loop_edge_extent e c r Hr) as Hext. fold r' in Hext.
  destruct Hr as (Hw & Hh & Hiw & Hih).
  apply orb_false_iff in Hne. destruct Hne as [Hw' Hh'].
  apply Z.leb_gt in Hw', Hh'.
  unfold workable, int_sized, I32.in_range in *.
  destruct e; destruct Hext as [E1 E2]; rewrite ?E1, ?E2 in *; lia.
Qed.

Lemma loop_unrolled (s : string) :
  forall (hack : bool) (r : Rectangle),
    Nat.even (String.length s) = true ->
    s <> EmptyString ->
    workable r ->
    FrameBoxM.loop style flags hack s r =
    Some (unrolled style flags (if hack then Top else Bottom) s r).
Proof.
  induction s as [| c | c1 c2 s2 IH] using string_pair_ind;
    intros hack r Heven Hne Hr.
  - congruence.
  - discriminate.
  - rewrite loop_pair.
    set (e1 := if hack then Top else Bottom).
    assert (E1 : (if hack then FrameBoxM.top_line else FrameBoxM.bottom_line)
                   (char_val c1) r = loop_edge e1 c1 r)
      by (destruct hack; reflexivity).
    rewrite E1. cbn [unrolled].
    pose proof (loop_edge_extent e1 c1 r Hr) as X1.
    pose proof (workable_step e1 c1 r Hr) as W1.
    destruct (loop_edge e1 c1 r) as [ops1 r1]. cbn [snd] in X1, W1.
    assert (Hv : w_ r1 = w_ r) by (subst e1; destruct hack; tauto).
    destruct Hr as (Hw & Hh & Hiw & Hih).
    assert (Ew : (w_ r1 <=? 0) = false) by (apply Z.leb_gt; lia).
    rewrite Ew in *. cbn [orb] in *.
    destruct (h_ r1 <=? 0) eqn:Eh; [reflexivity |].
    specialize (W1 eq_refl).
    assert (E2 : (if hack then FrameBoxM.left_line else FrameBoxM.right_line)
                   (char_val c2) r1 = loop_edge (next_edge e1) c2 r1)
      by (subst e1; destruct hack; reflexivity).
    rewrite E2.
    pose proof (loop_edge_extent (next_edge e1) c2 r1 W1) as X2.
    pose proof (workable_step (next_edge e1) c2 r1 W1) as W2.
    destruct (loop_edge (next_edge e1) c2 r1) as [ops2 r2]. cbn [snd] in X2, W2.
    assert (Hh2 : h_ r2 = h_ r1) by (subst e1; destruct hack; cbn in X2; tauto).
    assert (Eh2 : (h_ r2 <=? 0) = false) by (rewrite Hh2; exact Eh).
    rewrite Eh2 in *. rewrite orb_false_r in *.
    destruct (w_ r2 <=? 0) eqn:Ew2; [reflexivity |].
    specialize (W2 eq_refl).
    destruct s2 as [| c3 s3].
    + rewrite interior_unrolled. reflexivity.
    + rewrite (IH (negb hack) r2); [| exact Heven | discriminate | exact W2].
      cbn [option_map]. subst e1. destruct hack; reflexivity.
Qed.

(** The wrap-around of [int] does not show in a colour, which is taken
    modulo 2^32. *)
Lemma wrap_mod (z : Z) : I32.wrap z mod 2 ^ 32 = z mod 2 ^ 32.
Proof.
  unfold I32.wrap. rewrite Zminus_mod_idemp_l.
  f_equal. lia.
Qed.

Lemma shade_gray (c : ascii) : FrameBoxM.shade (char_val c) = gray_shade c.
Proof.
  unfold FrameBoxM.shade, gray_shade, to_color, I32.add, I32.sub.
  rewrite wrap_add_r, wrap_mod. f_equal. lia.
Qed.

(** On a rectangle with something left to draw whose edges are [int]s, the
    step of the loop for an edge draws the line along that edge of the
    rectangle and moves that edge one pixel inwards. *)
Lemma loop_edge_spec (e : Edge) (c : ascii) (r : Rectangle) :
  workable r -> int_box r -> loop_edge e c r = edge_step e c r.
Proof.
  intros (Hw & Hh & Hiw & Hih) ((Hx & Hy & _ & _) & Hr & Hb).
  unfold edge_step, edge_of, shrunk.
  destruct e; cbn [loop_edge]; unfold FrameBoxM.bottom_line,
    FrameBoxM.right_line, FrameBoxM.top_line, FrameBoxM.left_line,
    move_b, move_r, move_x, move_y; rewrite shade_gray;
    nowrap; reflexivity.
Qed.

Lemma shrunk_keeps (e : Edge) (r : Rectangle) :
  workable r -> int_box r ->
  (w_ (shrunk e r) <=? 0) || (h_ (shrunk e r) <=? 0) = false ->
  workable (shrunk e r) /\ int_box (shrunk e r).
Proof.
  intros (Hw & Hh & Hiw & Hih) ((Hx & Hy & _ & _) & Hr & Hb) Hne.
  apply orb_false_iff in Hne. destruct Hne as [Hw' Hh'].
  apply Z.leb_gt in Hw', Hh'.
  unfold workable, int_box, int_rect, int_sized, I32.in_range in *.
  destruct e; cbn [shrunk x_ y_ w_ h_] in *; lia.
Qed.

(** The loop taken one edge at a time is the spiral of the specification. *)
Lemma unrolled_spiral (p : string) :
  forall (e : Edge) (r : Rectangle),
    workable r -> int_box r ->
    unrolled style flags e p r = spiral style flags e p r.
Proof.
  induction p as [| c p IH]; intros e r Hr Hb.
  - apply interior_spiral.
  - cbn [unrolled spiral]. rewrite (loop_edge_spec e c r Hr Hb).
    unfold edge_step.
    destruct ((w_ (shrunk e r) <=? 0) || (h_ (shrunk e r) <=? 0)) eqn:Hne;
      [reflexivity |].
    destruct (shrunk_keeps e r Hr Hb Hne) as [Hr' Hb'].
    rewrite (IH (next_edge e) (shrunk e r) Hr' Hb'). reflexivity.
Qed.

End Bezel.

(** ** The box types *)

(** C2, as amended.  For a non-empty rectangle (whose edges are [int]s) and
    an interpreted pattern whose edge characters come in pairs, at least one
    pair, [FrameBox::_draw] emits exactly the spiral of the specification:
    one edge per character in the order bottom, right, top, left (top, left,
    bottom, right after a leading ['2'], which is consumed as a mode switch),
    each edge the line along that side of the working rectangle, the
    rectangle shrunk by one pixel on the drawn side after each edge, an
    immediate return once the shrunken width or height is [<= 0], and after
    the last character the interior filled with the background iff
    [INVISIBLE] is not set.  The pattern is the down box's when [VALUE] is
    set, and it is interpreted as it stands unless the box is drawn
    inactive. *)
Theorem FrameBox_draw_spiral `{Platform} (f : FrameBoxT) (R : Rectangle)
  (style : Style) (flags : Flags) (p : string) :
  empty R = false ->
  int_box R ->
  FrameBoxM.interpreted f style flags = Some p ->
  paired p ->
  FrameBoxM._draw f R style flags = Some (spiral_draw style flags p R)
  /\ FrameBoxM.selected f flags =
     (if has flags VALUE then FrameBoxM.data (FrameBoxM.down f)
      else FrameBoxM.data f)
  /\ (has flags INACTIVE && draw_boxes_inactive style = false ->
      p = FrameBoxM.selected f flags).
Proof.
  intros HR Hint Hp [Heven Hne]. split; [| split].
  - unfold FrameBoxM._draw. rewrite HR, Hp.
    assert (HW : workable R).
    { unfold empty in HR. apply orb_false_iff in HR. destruct HR as [A B].
      apply Z.leb_gt in A, B. destruct Hint as ((_ & _ & Hw & Hh) & _).
      unfold workable, int_sized. auto. }
    unfold FrameBoxM.run, spiral_draw, body in *.
    destruct p as [| c p']; [congruence |].
    destruct (Ascii.eqb_spec c "2"%char) as [-> | Hc].
    + rewrite (loop_unrolled style flags p' true R Heven Hne HW).
      rewrite (unrolled_spiral style flags p' Top R HW Hint). reflexivity.
    + assert (E : forall (A : Type) (a b : A),
                 match c with
                 | "2"%char => a
                 | _ => b
                 end = b).
      { intros A a b.
        destruct c as [[] [] [] [] [] [] [] []]; try reflexivity.
        exfalso. apply Hc. reflexivity. }
      rewrite E in Heven, Hne. rewrite !E.
      rewrite (loop_unrolled style flags (String c p') false R Heven Hne HW).
      rewrite (unrolled_spiral style flags (String c p') Bottom R HW Hint).
      reflexivity.
  - reflexivity.
  - intros Hd. unfold FrameBoxM.interpreted in Hp. rewrite Hd in Hp.
    congruence.
Qed.

Lemma FrameBox_draw_spiral_witness :
  FrameBoxM._draw (H := example_platform) upBox (mkRect 0 0 10 10) example_style 0 =
  Some (spiral_draw (H := example_platform) example_style 0 "AAWWHHTT" (mkRect 0 0 10 10)).
Proof.
  refine (proj1 (FrameBox_draw_spiral (H := example_platform) upBox
                   (mkRect 0 0 10 10) example_style 0 "AAWWHHTT" _ _ _ _)).
  - reflexivity.
  - unfold int_box, int_rect, I32.in_range. cbn. lia.
  - reflexivity.
  - split; [reflexivity | discriminate].
Defined.

(** C2 as first stated fails for a pattern with an odd number of edge
    characters: on the one-character pattern "A" and the rectangle
    (0,0,1,5) the code draws the bottom edge and then a right edge in the
    shade of the terminating NUL, and returns without filling, where one edge
    per character would be the bottom edge followed by the fill. *)
Lemma FrameBox_draw_odd_pattern :
  empty (mkRect 0 0 1 5) = false
  /\ FrameBoxM.interpreted (H := example_platform) oddBox example_style 0 = Some "A"
  /\ FrameBoxM._draw (H := example_platform) oddBox (mkRect 0 0 1 5) example_style 0 =
     Some [setcolor 32; drawline 0 4 0 4; setcolor 4294967263; drawline 0 0 0 3]
  /\ spiral_draw (H := example_platform) example_style 0 "A" (mkRect 0 0 1 5) =
     [setcolor 32; drawline 0 4 0 4; setcolor 49; fillrect (mkRect 0 0 1 4)]
  /\ FrameBoxM._draw (H := example_platform) oddBox (mkRect 0 0 1 5) example_style 0 <>
     Some (spiral_draw (H := example_platform) example_style 0 "A" (mkRect 0 0 1 5)).
Proof.
  repeat split; try reflexivity.
  vm_compute. discriminate.
Qed.

(** C4.  On a rectangle of positive width and height and flags without
    [INVISIBLE], [FlatBox] emits exactly one fill of the rectangle, in the
    background the style resolves for the flags; with [INVISIBLE] set or an
    empty rectangle it emits nothing; its [boxinfo] is all-zero insets with
    [fills_rectangle = 3]. *)
Theorem FlatBox_draw_fill `{Platform} (name : string) (r : Rectangle)
  (style : Style) (flags : Flags) :
  (0 < w_ r -> 0 < h_ r -> Z.land flags INVISIBLE = 0 ->
   draw (FlatBox name) r style flags =
   Some [setcolor (fst (boxcolors style flags)); fillrect r])
  /\ (Z.land flags INVISIBLE <> 0 \/ w_ r <= 0 \/ h_ r <= 0 ->
      draw (FlatBox name) r style flags = Some [])
  /\ boxinfo (FlatBox name) = mkBoxInfo 0 0 0 0 3.
Proof.
  cbn [draw boxinfo]. unfold FlatBoxM._draw, FlatBoxM.boxinfo, has, empty.
  split; [| split].
  - intros Hw Hh Hf. rewrite Hf. cbn.
    apply Z.leb_gt in Hw, Hh. rewrite Hw, Hh. cbn.
    destruct (boxcolors style flags); reflexivity.
  - intros [Hf | [Hw | Hh]].
    + apply Z.eqb_neq in Hf. rewrite Hf. reflexivity.
    + apply Z.leb_le in Hw. rewrite Hw.
      destruct (negb _); reflexivity.
    + apply Z.leb_le in Hh. rewrite Hh, orb_true_r.
      destruct (negb _); reflexivity.
  - reflexivity.
Qed.

Lemma FlatBox_draw_fill_witness :
  draw (H := example_platform) (FlatBox "flat") (mkRect 3 4 20 10) example_style 16 =
  Some [setcolor 49; fillrect (mkRect 3 4 20 10)]
  /\ draw (H := example_platform) (FlatBox "flat") (mkRect 3 4 20 10) example_style 8 =
     Some []
  /\ draw (H := example_platform) (FlatBox "flat") (mkRect 3 4 0 10) example_style 16 =
     Some [].
Proof.
  split; [| split].
  - apply (FlatBox_draw_fill (H := example_platform) "flat" (mkRect 3 4 20 10)
             example_style 16); cbn; [lia | lia | reflexivity].
  - apply (FlatBox_draw_fill (H := example_platform) "flat" (mkRect 3 4 20 10)
             example_style 8). left. cbn. discriminate.
  - apply (FlatBox_draw_fill (H := example_platform) "flat" (mkRect 3 4 0 10)
             example_style 16). right. left. cbn. lia.
Defined.

(** C5.  [HighlightBox] draws exactly what its active sub-box draws with the
    same arguments when the flags meet HIGHLIGHT, SELECTED, VALUE or PUSHED,
    and exactly what [FlatBox] draws with the same arguments otherwise; its
    [boxinfo] is always the sub-box's. *)
Theorem HighlightBox_delegates `{Platform} (name : string) (down : Box)
  (r : Rectangle) (style : Style) (flags : Flags) :
  draw (HighlightBox name down) r style flags =
  (if has flags HIGHLIGHT || has flags SELECTED || has flags VALUE || has flags PUSHED
   then draw down r style flags
   else FlatBoxM._draw r style flags)
  /\ boxinfo (HighlightBox name down) = boxinfo down.
Proof.
  split; [| reflexivity].
  cbn [draw]. unfold HighlightBoxM._draw. rewrite !has_lor. reflexivity.
Qed.

(** The character written by [fl_to_inactive] is the one of the formula, and
    the formula's value is its code: nothing is lost in the [char]. *)
Lemma inactive_char_new_shade `{Platform} (c : ascii) :
  FrameBoxM.inactive_char c = to_char (new_shade (char_val c))
  /\ char_code (to_char (new_shade (char_val c))) = new_shade (char_val c).
Proof.
  unfold FrameBoxM.inactive_char, char_val.
  destruct char_signed;
    destruct c as [[] [] [] [] [] [] [] []]; vm_compute; split; reflexivity.
Qed.

Lemma inactive_body_map `{Platform} (s : string) :
  FrameBoxM.inactive_body s =
  string_map (fun c => to_char (new_shade (char_val c))) s.
Proof.
  induction s as [| c s IH]; cbn; [reflexivity |].
  rewrite IH. f_equal. apply inactive_char_new_shade.
Qed.

Lemma fl_to_inactive_dimmed `{Platform} (s : string) :
  FrameBoxM.fl_to_inactive s = dimmed s.
Proof.
  unfold FrameBoxM.fl_to_inactive, dimmed.
  destruct s as [| c s]; [reflexivity |].
  rewrite <- !inactive_body_map.
  destruct c as [[] [] [] [] [] [] [] []]; reflexivity.
Qed.

(** Drawn with [INACTIVE] set and the style's inactive dimming on, a
    [FrameBox] whose selected pattern fits the 26-byte buffer with its NUL
    (fewer than 26 characters) interprets the selected pattern transformed
    character by character by ['M' + (c - 'A')/3], division truncating, a
    leading ['2'] copied unchanged; "WWHHPPAA" becomes "TTOORRMM", each
    letter by the formula. *)
Lemma FrameBox_inactive_remap `{Platform} (f : FrameBoxT) (R : Rectangle)
  (style : Style) (flags : Flags) :
  has flags INACTIVE = true ->
  draw_boxes_inactive style = true ->
  (String.length (FrameBoxM.selected f flags) < 26)%nat ->
  empty R = false ->
  FrameBoxM.interpreted f style flags = Some (dimmed (FrameBoxM.selected f flags))
  /\ FrameBoxM._draw f R style flags =
     FrameBoxM.run style flags (dimmed (FrameBoxM.selected f flags)) R
  /\ (forall c, char_code (to_char (new_shade (char_val c))) =
                char_code "M" + Z.quot (char_val c - char_code "A") 3)
  /\ FrameBoxM.fl_to_inactive "WWHHPPAA" = "TTOORRMM"
  /\ "TTOORRMM" = string_map (fun c => to_char (new_shade (char_val c))) "WWHHPPAA".
Proof.
  intros Hi Hs Hlen HR.
  assert (E : FrameBoxM.interpreted f style flags =
              Some (dimmed (FrameBoxM.selected f flags))).
  { unfold FrameBoxM.interpreted. rewrite Hi, Hs. cbn [andb].
    apply Nat.ltb_lt in Hlen. unfold FrameBoxM.buf_size. rewrite Hlen.
    rewrite fl_to_inactive_dimmed. reflexivity. }
  split; [exact E |]. split; [| split; [| split]].
  - unfold FrameBoxM._draw. rewrite HR, E. reflexivity.
  - intros c. apply inactive_char_new_shade.
  - rewrite fl_to_inactive_dimmed. unfold dimmed, char_val.
    destruct char_signed; vm_compute; reflexivity.
  - unfold char_val. destruct char_signed; vm_compute; reflexivity.
Qed.

Lemma FrameBox_inactive_remap_down :
  FrameBoxM.interpreted (H := example_platform) downBox example_style 64 =
  Some (dimmed (H := example_platform)
          (FrameBoxM.selected (H := example_platform) downBox 64)).
Proof.
  refine (proj1 (FrameBox_inactive_remap (H := example_platform) downBox
                   (mkRect 0 0 10 10) example_style 64 _ _ _ _)).
  - reflexivity.
  - reflexivity.
  - cbn. lia.
  - reflexivity.
Defined.

(** C6.  The remap is what the claim says for every pattern of fewer than 26
    characters, but [_draw] copies the remapped pattern into [char buf[26]]
    without looking at its length.  For a box made with a pattern of 26
    letters, drawn with [INACTIVE] set and the style's inactive dimming on,
    [fl_to_inactive] writes the 26 remapped characters and then the NUL, 27
    bytes, into the 26 bytes of [buf]: the last write is past the end of the
    buffer, and neither the interpreted pattern nor the drawing has a defined
    result. *)
Theorem FrameBox_inactive_overflow :
  FrameBoxM.selected (H := example_platform) longBox 64 =
  "AAAAAAAAAAAAAAAAAAAAAAAAAA"
  /\ has 64 (INACTIVE (Platform := example_platform)) = true
  /\ draw_boxes_inactive example_style = true
  /\ empty (mkRect 0 0 40 40) = false
  /\ dimmed (H := example_platform) "AAAAAAAAAAAAAAAAAAAAAAAAAA" =
     "MMMMMMMMMMMMMMMMMMMMMMMMMM"
  /\ FrameBoxM.fl_to_inactive (H := example_platform)
       "AAAAAAAAAAAAAAAAAAAAAAAAAA" = "MMMMMMMMMMMMMMMMMMMMMMMMMM"
  /\ (FrameBoxM.buf_size <
      String.length (FrameBoxM.fl_to_inactive (H := example_platform)
                       "AAAAAAAAAAAAAAAAAAAAAAAAAA") + 1)%nat
  /\ FrameBoxM.interpreted (H := example_platform) longBox example_style 64 =
     None
  /\ FrameBoxM._draw (H := example_platform) longBox (mkRect 0 0 40 40)
       example_style 64 = None
  /\ FrameBoxM.interpreted (H := example_platform) longBox example_style 64 <>
     Some (dimmed (H := example_platform)
             (FrameBoxM.selected (H := example_platform) longBox 64)).
Proof.
  repeat split; try reflexivity.
  - vm_compute. lia.
  - vm_compute. discriminate.
Qed.

(** C7.  A [FrameBox] constructed with the pattern [P] (of a length below
    2^32, so that half of it fits the [int] it is stored in) reports
    [dw = dh = len(P)/2] and [dx = dy = (len(P)/2)/2], both divisions
    truncating; [boxinfo()] returns the [boxinfo_] the constructor stored,
    whatever is done with the box afterwards. *)
Theorem FrameBox_boxinfo_insets (n P : string) (d : option FrameBoxT) :
  FrameBoxM.strlen P < 2 ^ 32 ->
  let f := FrameBoxM.make n P d in
  let len := Z.of_nat (String.length P) in
  dw (boxinfo (FrameBox f)) = Z.quot len 2
  /\ dh (boxinfo (FrameBox f)) = Z.quot len 2
  /\ dx (boxinfo (FrameBox f)) = Z.quot (Z.quot len 2) 2
  /\ dy (boxinfo (FrameBox f)) = Z.quot (Z.quot len 2) 2
  /\ FrameBoxM.boxinfo f = FrameBoxM.boxinfo_ f.
Proof.
  intros Hlen f len. unfold FrameBoxM.strlen in Hlen. fold len in Hlen.
  assert (Hpos : 0 <= len) by (unfold len; lia).
  assert (Hq : Z.quot len 2 = len / 2) by (apply Z.quot_div_nonneg; lia).
  assert (Hhalf : 0 <= len / 2 < 2 ^ 31).
  { split; [apply Z.div_pos; lia |]. apply Z.div_lt_upper_bound; lia. }
  assert (Hw : I32.wrap (len / 2) = len / 2)
    by (apply wrap_small; unfold I32.in_range; lia).
  assert (Hq2 : Z.quot (len / 2) 2 = len / 2 / 2)
    by (apply Z.quot_div_nonneg; lia).
  assert (Hquarter : 0 <= len / 2 / 2 < 2 ^ 31).
  { split; [apply Z.div_pos; lia |]. apply Z.div_lt_upper_bound; lia. }
  assert (Hw2 : I32.wrap (len / 2 / 2) = len / 2 / 2)
    by (apply wrap_small; unfold I32.in_range; lia).
  assert (E : FrameBoxM.boxinfo f =
              mkBoxInfo (len / 2 / 2) (len / 2 / 2) (len / 2) (len / 2) 3).
  { unfold f, FrameBoxM.make, FrameBoxM.strlen. fold len.
    unfold I32.div. rewrite Hw, Hq2, Hw2. destruct d; reflexivity. }
  cbn [boxinfo]. rewrite E. cbn. rewrite Hq, Hq2. auto.
Qed.

Lemma FrameBox_boxinfo_insets_witness :
  dw (boxinfo (FrameBox (FrameBoxM.make "engraved" "2HHWWWWHH" (Some downBox)))) = 4
  /\ dx (boxinfo (FrameBox (FrameBoxM.make "engraved" "2HHWWWWHH" (Some downBox)))) = 2.
Proof.
  assert (Hlen : FrameBoxM.strlen "2HHWWWWHH" < 2 ^ 32) by (cbn; lia).
  pose proof (FrameBox_boxinfo_insets "engraved" "2HHWWWWHH" (Some downBox) Hlen)
    as (Hdw & _ & Hdx & _).
  split; [exact Hdw | exact Hdx].
Defined.

(** ** resize_from_parent *)

Section Resize.

Import StatusBarGroupM.
Context `{LabelMetrics}.

Lemma update_boxes_rect (g : StatusBarGroup) : rect (update_boxes g) = rect g.
Proof. reflexivity. Qed.

(** The rectangle of the bar after the call, inside a parent. *)
Lemma resize_from_parent_rect (t : Tree) (p : Group) :
  parent t = Some p ->
  rect (bar (fst (resize_from_parent t))) =
  mkRect (box_dx (g_box p))
         (g_h p -i box_dh (g_box p) -i h_ (rect (bar t)))
         (g_w p -i box_dw (g_box p))
         (h_ (rect (bar t))).
Proof.
  intros Hp. unfold resize_from_parent. rewrite Hp.
  destruct (shrink_children _ 0 (g_children p)) as [cs evs].
  reflexivity.
Qed.

(** The parent after the call: every child went through the loop body. *)
Lemma resize_from_parent_children (t : Tree) (p : Group) :
  parent t = Some p ->
  parent (fst (resize_from_parent t)) =
  Some (mkGroup (g_w p) (g_h p) (g_box p)
          (fst (shrink_children (y_ (rect (bar (fst (resize_from_parent t)))))
                  0 (g_children p)))).
Proof.
  intros Hp. rewrite (resize_from_parent_rect t p Hp). cbn [y_].
  unfold resize_from_parent. rewrite Hp. cbn [with_rect rect set_x set_w set_y y_ h_].
  destruct (shrink_children _ 0 (g_children p)) as [cs evs].
  reflexivity.
Qed.

Lemma shrink_children_nth (top : Z) (cs : list Child) :
  forall (i0 i : nat),
    nth_error (fst (shrink_children top i0 cs)) i =
    option_map (fun c => fst (shrink_child top (i0 + i) c)) (nth_error cs i).
Proof.
  induction cs as [| c cs IH]; intros i0 i.
  - destruct i; reflexivity.
  - cbn [shrink_children].
    destruct (shrink_child top i0 c) as [c' ev] eqn:Ec.
    specialize (IH (S i0)).
    destruct (shrink_children top (S i0) cs) as [cs' evs].
    destruct i as [| i]; cbn [fst nth_error option_map].
    + rewrite Nat.add_0_r, Ec. reflexivity.
    + cbn [fst] in IH. rewrite IH. rewrite Nat.add_succ_r. reflexivity.
Qed.

(** What the loop body does to a sibling. *)
Lemma shrink_child_sibling (top : Z) (i : nat) (w : Widget) :
  let overlap := rect_b (wd_rect w) -i top in
  exists w',
    fst (shrink_child top i (Sibling w)) = Sibling w'
    /\ (0 < overlap ->
        x_ (wd_rect w') = x_ (wd_rect w)
        /\ y_ (wd_rect w') = y_ (wd_rect w)
        /\ w_ (wd_rect w') = w_ (wd_rect w)
        /\ h_ (wd_rect w') = Z.max 0 (h_ (wd_rect w) -i overlap))
    /\ (overlap <= 0 -> w' = w).
Proof.
  intros overlap. unfold shrink_child. fold overlap.
  destruct (0 <? overlap) eqn:E.
  - eexists. split; [reflexivity |]. split.
    + intros _. cbn. repeat split.
      destruct (0 <? h_ (wd_rect w) -i overlap) eqn:E'.
      * apply Z.ltb_lt in E'. lia.
      * apply Z.ltb_ge in E'. lia.
    + intros Hle. apply Z.ltb_lt in E. lia.
  - exists w. split; [reflexivity |]. split.
    + intros Hlt. apply Z.ltb_ge in E. lia.
    + reflexivity.
Qed.

End Resize.

(** The rectangle of a bar with a parent after [resize_from_parent()]: its x
    is the parent's content-left inset, its width the parent's content width
    and its height unchanged, while its bottom edge (y + height) is the
    parent's height less the [dh] of the parent's box.  That is the content
    bottom edge moved up by the box's [dy]: [y] is computed without the [dy]
    that [x] has its [dx] for, and the bottom edge is the content bottom edge
    exactly when [dy = 0]. *)
Lemma resize_from_parent_geometry `{LabelMetrics} (t : Tree) (p : Group) :
  parent t = Some p ->
  I32.in_range (box_dy (g_box p)) ->
  let t' := fst (StatusBarGroupM.resize_from_parent t) in
  x_ (rect (bar t')) = x_ (content_rect p)
  /\ w_ (rect (bar t')) = w_ (content_rect p)
  /\ h_ (rect (bar t')) = h_ (rect (bar t))
  /\ rect_b (rect (bar t')) = g_h p -i box_dh (g_box p)
  /\ rect_b (rect (bar t')) = rect_b (content_rect p) -i box_dy (g_box p)
  /\ (rect_b (rect (bar t')) = rect_b (content_rect p) <->
      box_dy (g_box p) = 0).
Proof.
  intros Hp Hdy t'. unfold t'. rewrite (resize_from_parent_rect t p Hp).
  unfold rect_b, content_rect. cbn [x_ y_ w_ h_].
  assert (E1 : g_h p -i box_dh (g_box p) -i h_ (rect (bar t)) +i h_ (rect (bar t)) =
               g_h p -i box_dh (g_box p)).
  { rewrite sub_add_cancel. unfold I32.sub. apply wrap_idem. }
  assert (E2 : box_dy (g_box p) +i (g_h p -i box_dh (g_box p)) -i box_dy (g_box p) =
               g_h p -i box_dh (g_box p)).
  { rewrite add_sub_cancel. unfold I32.sub. apply wrap_idem. }
  split; [reflexivity |]. split; [reflexivity |]. split; [reflexivity |].
  split; [exact E1 |]. split; [rewrite E1, E2; reflexivity |].
  rewrite E1. split.
  - intros Heq.
    assert (E3 : box_dy (g_box p) +i (g_h p -i box_dh (g_box p))
                 -i (g_h p -i box_dh (g_box p)) = 0).
    { rewrite <- Heq. unfold I32.sub. rewrite Z.sub_diag. reflexivity. }
    unfold I32.add, I32.sub in E3. rewrite wrap_sub_l in E3.
    replace (box_dy (g_box p) + I32.wrap (g_h p - box_dh (g_box p))
             - I32.wrap (g_h p - box_dh (g_box p)))
      with (box_dy (g_box p)) in E3 by lia.
    rewrite wrap_small in E3 by exact Hdy. exact E3.
  - intros Hz. rewrite Hz. unfold I32.add, I32.sub. cbn [Z.add].
    symmetry. apply wrap_idem.
Qed.

(** C1.  The code misses the content bottom edge when the parent's box has a
    top inset.  In a 300x200 parent drawn with THIN_DOWN_BOX (dx = dy = 1,
    dw = dh = 2), whose content rectangle is (1,1,298,198) with bottom edge
    199, [resize_from_parent()] leaves a bar of height 24 at (1,174,298,24):
    x and width are the content's and the height is kept, but the bottom
    edge is 198, one pixel (the box's [dy]) above the content bottom edge. *)
Theorem resize_from_parent_bottom_inset :
  content_rect framed_parent = mkRect 1 1 298 198
  /\ rect (bar (fst (StatusBarGroupM.resize_from_parent (H := example_metrics)
                       (mkTree new_bar (Some framed_parent))))) =
     mkRect 1 174 298 24
  /\ rect_b (mkRect 1 174 298 24) = 198
  /\ rect_b (content_rect framed_parent) = 199
  /\ box_dy (g_box framed_parent) = 1
  /\ ~ (x_ (rect (bar (fst (StatusBarGroupM.resize_from_parent
                              (H := example_metrics)
                              (mkTree new_bar (Some framed_parent)))))) =
        x_ (content_rect framed_parent)
        /\ w_ (rect (bar (fst (StatusBarGroupM.resize_from_parent
                                 (H := example_metrics)
                                 (mkTree new_bar (Some framed_parent)))))) =
           w_ (content_rect framed_parent)
        /\ rect_b (rect (bar (fst (StatusBarGroupM.resize_from_parent
                                     (H := example_metrics)
                                     (mkTree new_bar (Some framed_parent)))))) =
           rect_b (content_rect framed_parent)
        /\ h_ (rect (bar (fst (StatusBarGroupM.resize_from_parent
                                 (H := example_metrics)
                                 (mkTree new_bar (Some framed_parent)))))) =
           h_ (rect new_bar)).
Proof.
  repeat split; try reflexivity.
  vm_compute. intros (_ & _ & Hb & _). discriminate Hb.
Qed.

(** C3.  In [resize_from_parent()] every child of the parent other than the
    bar whose bottom edge lies [overlap > 0] below the bar's new top edge
    has its height reduced by [overlap], floored at 0, with x, y and width
    as they were; a child with [overlap <= 0] is untouched.  With the parent
    content rectangle (0,0,300,200) and a bar of height 24 the bar becomes
    (0,176,300,24), a sibling at y=150, h=40 ends with h=26 and a sibling at
    y=100, h=50 is unchanged. *)
Theorem resize_from_parent_siblings `{LabelMetrics} (t : Tree) (p : Group) :
  parent t = Some p ->
  let t' := fst (StatusBarGroupM.resize_from_parent t) in
  let top := y_ (rect (bar t')) in
  exists p',
    parent t' = Some p'
    /\ (forall i w,
         nth_error (g_children p) i = Some (Sibling w) ->
         let overlap := rect_b (wd_rect w) -i top in
         exists w',
           nth_error (g_children p') i = Some (Sibling w')
           /\ (0 < overlap ->
               x_ (wd_rect w') = x_ (wd_rect w)
               /\ y_ (wd_rect w') = y_ (wd_rect w)
               /\ w_ (wd_rect w') = w_ (wd_rect w)
               /\ h_ (wd_rect w') = Z.max 0 (h_ (wd_rect w) -i overlap))
           /\ (overlap <= 0 -> w' = w))
    /\ (forall i, nth_error (g_children p) i = Some This ->
                  nth_error (g_children p') i = Some This)
    /\ (content_rect p = mkRect 0 0 300 200 ->
        h_ (rect (bar t)) = 24 ->
        rect (bar t') = mkRect 0 176 300 24
        /\ (forall i x w g,
             nth_error (g_children p) i =
             Some (Sibling (mkWidget (mkRect x 150 w 40) g)) ->
             nth_error (g_children p') i =
             Some (Sibling (mkWidget (mkRect x 150 w 26) g)))
        /\ (forall i x w g,
             nth_error (g_children p) i =
             Some (Sibling (mkWidget (mkRect x 100 w 50) g)) ->
             nth_error (g_children p') i =
             Some (Sibling (mkWidget (mkRect x 100 w 50) g)))).
Proof.
  intros Hp t' top.
  pose proof (resize_from_parent_children t p Hp) as Hp'.
  fold t' in Hp'. fold top in Hp'.
  eexists. split; [exact Hp' |]. cbn [g_children].
  split; [| split].
  - intros i w Hi.
    destruct (shrink_child_sibling top i w) as (w' & Ew & Hpos & Hneg).
    exists w'. rewrite shrink_children_nth, Hi. cbn [option_map Nat.add].
    rewrite Ew. auto.
  - intros i Hi. rewrite shrink_children_nth, Hi. reflexivity.
  - intros Hc Hh.
    assert (Hr : rect (bar t') = mkRect 0 176 300 24).
    { unfold t'. rewrite (resize_from_parent_rect t p Hp).
      unfold content_rect in Hc. injection Hc as Hx _ Hw Hht.
      rewrite Hx, Hw, Hht, Hh. reflexivity. }
    split; [exact Hr |].
    assert (Htop : top = 176) by (unfold top; rewrite Hr; reflexivity).
    split; intros i x w g Hi; rewrite shrink_children_nth, Hi, Htop;
      reflexivity.
Qed.

Lemma resize_from_parent_siblings_witness :
  exists p',
    parent (fst (StatusBarGroupM.resize_from_parent (H := example_metrics)
                   (mkTree new_bar (Some flat_parent)))) =
    Some p'
    /\ nth_error (g_children p') 0 =
       Some (Sibling (mkWidget (mkRect 10 150 50 26) true))
    /\ nth_error (g_children p') 2 =
       Some (Sibling (mkWidget (mkRect 10 100 50 50) false)).
Proof.
  destruct (resize_from_parent_siblings (H := example_metrics)
              (mkTree new_bar (Some flat_parent)) flat_parent eq_refl)
    as (p' & Hp' & _ & _ & Hex).
  destruct (Hex eq_refl eq_refl) as (_ & Hshrunk & Hkept).
  exists p'. split; [exact Hp' |]. split.
  - exact (Hshrunk 0%nat 10 50 true eq_refl).
  - exact (Hkept 2%nat 10 50 false eq_refl).
Defined.

(** C10.  Without a parent [resize_from_parent()] returns at once: the bar's
    x, y, width and height and its three slot boxes are what they were, the
    whole state is, and nothing was called. *)
Theorem resize_from_parent_unparented `{LabelMetrics} (t : Tree) :
  parent t = None ->
  StatusBarGroupM.resize_from_parent t = (t, [])
  /\ rect (bar (fst (StatusBarGroupM.resize_from_parent t))) = rect (bar t)
  /\ tf_ (bar (fst (StatusBarGroupM.resize_from_parent t))) = tf_ (bar t).
Proof.
  intros Hp. unfold StatusBarGroupM.resize_from_parent. rewrite Hp.
  repeat split.
Qed.

Lemma resize_from_parent_unparented_witness :
  StatusBarGroupM.resize_from_parent (H := example_metrics)
    (mkTree occupied_bar None) =
  (mkTree occupied_bar None, []).
Proof.
  exact (proj1 (resize_from_parent_unparented (H := example_metrics)
                  (mkTree occupied_bar None) eq_refl)).
Defined.

(** ** The label slots *)

Section SlotsFacts.

Context {A : Type}.

Lemma get_put_same (pos : Position) (v : A) (a : Slots A) : get pos (put pos v a) = v.
Proof. destruct pos; reflexivity. Qed.

Lemma put_put (pos : Position) (u v : A) (a : Slots A) :
  put pos v (put pos u a) = put pos v a.
Proof. destruct pos; reflexivity. Qed.

Lemma put_get (pos : Position) (a : Slots A) : put pos (get pos a) a = a.
Proof. destruct pos, a; reflexivity. Qed.

End SlotsFacts.

Section SetFacts.

Import StatusBarGroupM.
Context `{Platform} `{LabelMetrics}.

(** [update_box] on an allocated slot: the label is kept, the width is the
    measured width plus [(box_dw(b_[pos])+1)*2], and x follows the position. *)
Lemma update_box_geometry (g : StatusBarGroup) (b : InvisibleBox) (pos : Position) :
  exists b',
    update_box g (Some b) pos = Some b'
    /\ ib_label b' = ib_label b
    /\ w_ (ib_rect b') =
       fst (measure_label b) +i (box_dw (get pos (b_ g)) +i 1) *i 2
    /\ x_ (ib_rect b') =
       match pos with
       | SBAR_LEFT => box_dx (box g)
       | SBAR_CENTER => (rect_r (rect g) -i w_ (ib_rect b')) /i 2
       | SBAR_RIGHT =>
         rect_r (rect g) -i w_ (ib_rect b') -i box_dw (box g) -i BORDER_WIDTH
       end.
Proof.
  unfold update_box. destruct (measure_label b) as [X Y].
  eexists. split; [reflexivity |]. cbn. auto.
Qed.

Lemma update_box_with_tf (tf : Slots (option InvisibleBox)) (g : StatusBarGroup)
  (b : option InvisibleBox) (pos : Position) :
  update_box (with_tf tf g) b pos = update_box g b pos.
Proof. reflexivity. Qed.

(** A non-empty text ends up, measured and placed, in the slot; the bar's
    own rectangle, box and slot styles are untouched. *)
Lemma set_text (t : option string) (pos : Position) (g : StatusBarGroup) :
  no_text t = false ->
  exists b,
    ib_label b = t
    /\ fst (set t pos g) =
       with_tf (put pos (update_box g (Some b) pos) (tf_ g)) g.
Proof.
  intros Ht. unfold set. rewrite Ht.
  destruct (get pos (tf_ g)) as [b0 |].
  - exists (mkInvisibleBox (ib_box b0) (ib_rect b0) t (ib_align b0)).
    split; [reflexivity |]. cbn [fst]. rewrite update_box_with_tf.
    unfold with_tf. cbn [tf_ rect box b_].
    rewrite get_put_same, put_put. reflexivity.
  - eexists (mkInvisibleBox _ _ t _).
    split; [reflexivity |]. cbn [fst]. rewrite update_box_with_tf.
    unfold with_tf. cbn [tf_ rect box b_].
    rewrite get_put_same, put_put. reflexivity.
Qed.

Lemma set_no_text (e : option string) (pos : Position) (g : StatusBarGroup) :
  no_text e = true ->
  set e pos g =
  match get pos (tf_ g) with
  | Some _ => (with_tf (put pos None (tf_ g)) g, [ev_delete pos])
  | None => (g, [])
  end.
Proof. intros He. unfold set. rewrite He. reflexivity. Qed.

End SetFacts.

(** C8.  A [set] with non-empty text followed by a [set] with empty or null
    text at the same position leaves no box at that slot, and the bar is
    then in the state it had before the first call with that slot cleared:
    on a slot that held no box before the first call (the round trip of the
    specification, from a bar with no slot allocated) it is exactly the
    state before the first call, slot array, slot styles, rectangle and box.
    On the way the first call clears the current group, adds the new box
    and asks for a redraw, and the second deletes the box.  The empty-text
    [set] on an empty slot changes nothing and calls nothing, before the
    round trip and after it. *)
Theorem set_then_clear `{Platform} `{LabelMetrics} (g : StatusBarGroup)
  (pos : Position) (t e : option string) :
  StatusBarGroupM.no_text t = false ->
  StatusBarGroupM.no_text e = true ->
  let g1 := fst (StatusBarGroupM.set t pos g) in
  let g2 := fst (StatusBarGroupM.set e pos g1) in
  get pos (tf_ g2) = None
  /\ g2 = StatusBarGroupM.with_tf (put pos None (tf_ g)) g
  /\ (g2 = g <-> get pos (tf_ g) = None)
  /\ (get pos (tf_ g) = None ->
      snd (StatusBarGroupM.set t pos g) = [ev_current_0; ev_add pos; ev_redraw])
  /\ snd (StatusBarGroupM.set e pos g1) = [ev_delete pos]
  /\ (get pos (tf_ g) = None -> StatusBarGroupM.set e pos g = (g, []))
  /\ StatusBarGroupM.set e pos g2 = (g2, []).
Proof.
  intros Ht He g1 g2.
  destruct (set_text t pos g Ht) as (b & _ & E1).
  destruct (update_box_geometry g b pos) as (b' & Eb' & _).
  rewrite Eb' in E1. fold g1 in E1.
  assert (G1 : get pos (tf_ g1) = Some b').
  { rewrite E1. unfold StatusBarGroupM.with_tf. cbn [tf_].
    apply get_put_same. }
  assert (E2 : g2 = StatusBarGroupM.with_tf (put pos None (tf_ g)) g).
  { unfold g2. rewrite (set_no_text e pos g1 He), E1.
    unfold StatusBarGroupM.with_tf. cbn [tf_ rect box b_ fst].
    rewrite get_put_same. cbn [fst]. rewrite put_put. reflexivity. }
  assert (G2 : get pos (tf_ g2) = None).
  { rewrite E2. unfold StatusBarGroupM.with_tf. cbn [tf_].
    apply get_put_same. }
  split; [exact G2 |]. split; [exact E2 |]. split; [| split; [| split; [| split]]].
  - split.
    + intros Eg. rewrite <- Eg. exact G2.
    + intros Hempty. rewrite E2, <- Hempty, put_get.
      destruct g; reflexivity.
  - intros Hempty. unfold StatusBarGroupM.set. rewrite Ht, Hempty.
    reflexivity.
  - rewrite (set_no_text e pos g1 He), G1. reflexivity.
  - intros Hempty. rewrite (set_no_text e pos g He), Hempty. reflexivity.
  - rewrite (set_no_text e pos g2 He), G2. reflexivity.
Qed.

Lemma set_then_clear_witness :
  fst (StatusBarGroupM.set (H := example_platform) (H0 := example_metrics)
         (Some "") SBAR_RIGHT
         (fst (StatusBarGroupM.set (H := example_platform) (H0 := example_metrics)
                 (Some "Hello") SBAR_RIGHT new_bar))) = new_bar
  /\ snd (StatusBarGroupM.set (H := example_platform) (H0 := example_metrics)
            (Some "Hello") SBAR_RIGHT new_bar) =
     [ev_current_0; ev_add SBAR_RIGHT; ev_redraw].
Proof.
  pose proof (set_then_clear (H := example_platform) (H0 := example_metrics)
                new_bar SBAR_RIGHT (Some "Hello") (Some "") eq_refl eq_refl)
    as (_ & _ & Hback & Hev & _).
  split.
  - apply Hback. reflexivity.
  - apply Hev. reflexivity.
Defined.

(** C9.  [set(SBAR_CENTER, "%d items", 5)] stores the text "5 items" in the
    centre slot's box, and [update_box] puts that box at
    x = (container_right - slot_width)/2, against the container's full right
    edge, whereas the left slot sits at the container box's [dx] and the right
    slot at container_right - slot_width - [dw] of the container's box -
    BORDER_WIDTH. *)
Theorem set_format_center `{Platform} `{LabelMetrics} (g : StatusBarGroup) :
  exists g' ev b,
    StatusBarGroupM.set_format SBAR_CENTER "%d items"
      [StatusBarGroupM.arg_int 5] g = Some (g', ev)
    /\ get SBAR_CENTER (tf_ g') = Some b
    /\ ib_label b = Some "5 items"
    /\ rect g' = rect g
    /\ x_ (ib_rect b) = (rect_r (rect g) -i w_ (ib_rect b)) /i 2
    /\ (forall (t : option string) (pos : Position),
         StatusBarGroupM.no_text t = false ->
         exists b',
           get pos (tf_ (fst (StatusBarGroupM.set t pos g))) = Some b'
           /\ ib_label b' = t
           /\ x_ (ib_rect b') =
              match pos with
              | SBAR_LEFT => box_dx (box g)
              | SBAR_CENTER => (rect_r (rect g) -i w_ (ib_rect b')) /i 2
              | SBAR_RIGHT =>
                rect_r (rect g) -i w_ (ib_rect b') -i box_dw (box g)
                -i StatusBarGroupM.BORDER_WIDTH
              end).
Proof.
  assert (Hset : forall (t : option string) (pos : Position),
             StatusBarGroupM.no_text t = false ->
             exists b',
               get pos (tf_ (fst (StatusBarGroupM.set t pos g))) = Some b'
               /\ ib_label b' = t
               /\ x_ (ib_rect b') =
                  match pos with
                  | SBAR_LEFT => box_dx (box g)
                  | SBAR_CENTER => (rect_r (rect g) -i w_ (ib_rect b')) /i 2
                  | SBAR_RIGHT =>
                    rect_r (rect g) -i w_ (ib_rect b') -i box_dw (box g)
                    -i StatusBarGroupM.BORDER_WIDTH
                  end).
  { intros t pos Ht.
    destruct (set_text t pos g Ht) as (b & Hl & E).
    destruct (update_box_geometry g b pos) as (b' & Eb' & Hl' & _ & Hx).
    exists b'. rewrite E, Eb'. unfold StatusBarGroupM.with_tf. cbn [tf_].
    rewrite get_put_same. repeat split; [congruence | exact Hx]. }
  destruct (Hset (Some "5 items") SBAR_CENTER eq_refl) as (b & Hb & Hl & Hx).
  destruct (StatusBarGroupM.set (Some "5 items") SBAR_CENTER g) as [g' ev] eqn:Es.
  exists g', ev, b.
  split.
  { unfold StatusBarGroupM.set_format.
    change (StatusBarGroupM.vsprintf "%d items" [StatusBarGroupM.arg_int 5])
      with (Some "5 items").
    cbn [String.length Nat.ltb Nat.leb StatusBarGroupM.buffer_size].
    rewrite Es. reflexivity. }
  split; [exact Hb |]. split; [exact Hl |]. split.
  { destruct (set_text (Some "5 items") SBAR_CENTER g eq_refl) as (b0 & _ & E).
    rewrite Es in E. cbn [fst] in E. rewrite E. reflexivity. }
  split; [exact Hx | exact Hset].
Qed.

Lemma set_format_center_witness :
  exists b',
    get SBAR_RIGHT
      (tf_ (fst (StatusBarGroupM.set (H := example_platform)
                   (H0 := example_metrics) (Some "Hello") SBAR_RIGHT
                   placed_bar))) =
    Some b'
    /\ ib_label b' = Some "Hello"
    /\ x_ (ib_rect b') =
       rect_r (rect placed_bar) -i w_ (ib_rect b') -i box_dw (box placed_bar)
       -i StatusBarGroupM.BORDER_WIDTH.
Proof.
  destruct (set_format_center (H := example_platform) (H0 := example_metrics)
              placed_bar)
    as (g' & ev & b & _ & _ & _ & _ & _ & Hset).
  exact (Hset (Some "Hello") SBAR_RIGHT eq_refl).
Defined.

(* ================================================================== *)
(** * Further properties of the box types *)

Section BezelGeometry.

Context `{Platform} (style : Style) (flags : Flags) (R : Rectangle).

Lemma edge_line_step (e : Edge) (c : ascii) (r : Rectangle) :
  loop_edge e c r = edge_line e (char_val c) r.
Proof. destruct e; reflexivity. Qed.

Lemma edge_line_rect (e : Edge) (c c' : Z) (r : Rectangle) :
  snd (edge_line e c r) = snd (edge_line e c' r).
Proof. destruct e; reflexivity. Qed.

(** One edge: two primitives inside [R], none a fill, and the rectangle one
    pixel smaller on the side of the edge, still within [R]. *)
Lemma edge_line_fair (e : Edge) (c : Z) (r : Rectangle) :
  int_box R -> within R r -> workable r ->
  let ops := fst (edge_line e c r) in
  let r' := snd (edge_line e c r) in
  Forall (fair flags R) ops
  /\ forallb is_fill ops = false
  /\ List.length ops = 2%nat
  /\ List.length (filter is_line ops) = 1%nat
  /\ within R r'
  /\ int_sized r'
  /\ match e with
     | Bottom | Top => w_ r' = w_ r /\ h_ r' = h_ r - 1
     | Right | Left => w_ r' = w_ r - 1 /\ h_ r' = h_ r
     end.
Proof.
  intros ((Hx & Hy & Hw & Hh) & Hr & Hb) (Wx & Wy & Wr & Wb)
         (Pw & Ph & Iw & Ih).
  unfold I32.in_range, int_sized, within, fair in *.
  destruct e; cbn [edge_line FrameBoxM.bottom_line FrameBoxM.right_line
                   FrameBoxM.top_line FrameBoxM.left_line fst snd
                   move_b move_r move_x move_y x_ y_ w_ h_];
    nowrap; cbn [x_ y_ w_ h_];
    (repeat split; try reflexivity; try lia;
     repeat constructor; cbn; try lia; try discriminate).
Qed.

Lemma interior_fair (r : Rectangle) :
  within R r -> Forall (fair flags R) (FrameBoxM.interior style flags r).
Proof.
  intros Hr. unfold FrameBoxM.interior.
  destruct (has flags INVISIBLE) eqn:E; cbn [negb]; [constructor |].
  destruct (boxcolors style flags) as [bg fg].
  unfold fair. repeat apply Forall_cons; try apply Forall_nil; cbn;
    (split; [auto | intros; auto; discriminate]).
Qed.

Lemma loop_nil (hack : bool) (r : Rectangle) :
  FrameBoxM.loop style flags hack EmptyString r =
  let '(ops1, r1) := edge_line (if hack then Top else Bottom) 0 r in
  if h_ r1 <=? 0 then Some ops1 else None.
Proof. destruct hack; reflexivity. Qed.

Lemma loop_one (hack : bool) (c : ascii) (r : Rectangle) :
  FrameBoxM.loop style flags hack (String c EmptyString) r =
  let '(ops1, r1) := edge_line (if hack then Top else Bottom) (char_val c) r in
  if h_ r1 <=? 0 then Some ops1
  else
    let '(ops2, r2) := edge_line (if hack then Left else Right) 0 r1 in
    if w_ r2 <=? 0 then Some (ops1 ++ ops2) else None.
Proof. destruct hack; reflexivity. Qed.

Lemma loop_two (hack : bool) (c1 c2 : ascii) (s2 : string) (r : Rectangle) :
  FrameBoxM.loop style flags hack (String c1 (String c2 s2)) r =
  let '(ops1, r1) := edge_line (if hack then Top else Bottom) (char_val c1) r in
  if h_ r1 <=? 0 then Some ops1
  else
    let '(ops2, r2) := edge_line (if hack then Left else Right) (char_val c2) r1 in
    if w_ r2 <=? 0 then Some (ops1 ++ ops2)
    else
      match s2 with
      | EmptyString => Some (ops1 ++ ops2 ++ FrameBoxM.interior style flags r2)
      | String _ _ =>
        option_map (fun rest => ops1 ++ ops2 ++ rest)
                   (FrameBoxM.loop style flags (negb hack) s2 r2)
      end.
Proof. destruct hack; reflexivity. Qed.

Lemma workable_after (e : Edge) (r r' : Rectangle) :
  workable r ->
  int_sized r' ->
  match e with
  | Bottom | Top => w_ r' = w_ r /\ h_ r' = h_ r - 1
  | Right | Left => w_ r' = w_ r - 1 /\ h_ r' = h_ r
  end ->
  (match e with
   | Bottom | Top => h_ r' <=? 0
   | Right | Left => w_ r' <=? 0
   end) = false ->
  workable r'.
Proof.
  intros (Pw & Ph & _) I X E. unfold workable.
  destruct e; destruct X as [Xw Xh]; apply Z.leb_gt in E;
    (split; [lia | split; [lia | exact I]]).
Qed.

(** Whatever the pattern, a finished run of the loop emits only primitives
    inside [R], and a fill only when [INVISIBLE] is off. *)
Lemma loop_fair (s : string) :
  forall (hack : bool) (r : Rectangle) (ops : list DrawOp),
    int_box R -> within R r -> workable r ->
    FrameBoxM.loop style flags hack s r = Some ops ->
    Forall (fair flags R) ops.
Proof.
  induction s as [| c | c1 c2 s2 IH] using string_pair_ind;
    intros hack r ops HR Hin Hw Hloop.
  - rewrite loop_nil in Hloop.
    pose proof (edge_line_fair (if hack then Top else Bottom) 0 r
                  HR Hin Hw) as (F1 & _).
    destruct (edge_line (if hack then Top else Bottom) 0 r) as [ops1 r1].
    destruct (h_ r1 <=? 0); [| discriminate].
    injection Hloop as <-. exact F1.
  - rewrite loop_one in Hloop.
    pose proof (edge_line_fair (if hack then Top else Bottom)
                  (char_val c) r HR Hin Hw) as (F1 & _ & _ & _ & W1 & I1 & X1).
    destruct (edge_line (if hack then Top else Bottom) (char_val c) r)
      as [ops1 r1]. cbn [fst snd] in *.
    destruct (h_ r1 <=? 0) eqn:E1; [injection Hloop as <-; exact F1 |].
    assert (Hw1 : workable r1).
    { apply (workable_after (if hack then Top else Bottom) r r1 Hw I1 X1).
      destruct hack; exact E1. }
    pose proof (edge_line_fair (if hack then Left else Right) 0 r1
                  HR W1 Hw1) as (F2 & _).
    destruct (edge_line (if hack then Left else Right) 0 r1) as [ops2 r2].
    cbn [fst snd] in *.
    destruct (w_ r2 <=? 0); [| discriminate].
    injection Hloop as <-. apply Forall_app. split; assumption.
  - rewrite loop_two in Hloop.
    pose proof (edge_line_fair (if hack then Top else Bottom)
                  (char_val c1) r HR Hin Hw) as (F1 & _ & _ & _ & W1 & I1 & X1).
    destruct (edge_line (if hack then Top else Bottom) (char_val c1) r)
      as [ops1 r1]. cbn [fst snd] in *.
    destruct (h_ r1 <=? 0) eqn:E1; [injection Hloop as <-; exact F1 |].
    assert (Hw1 : workable r1).
    { apply (workable_after (if hack then Top else Bottom) r r1 Hw I1 X1).
      destruct hack; exact E1. }
    pose proof (edge_line_fair (if hack then Left else Right)
                  (char_val c2) r1 HR W1 Hw1) as (F2 & _ & _ & _ & W2 & I2 & X2).
    destruct (edge_line (if hack then Left else Right) (char_val c2) r1)
      as [ops2 r2]. cbn [fst snd] in *.
    destruct (w_ r2 <=? 0) eqn:E2.
    { injection Hloop as <-. apply Forall_app. split; assumption. }
    assert (Hw2 : workable r2).
    { apply (workable_after (if hack then Left else Right) r1 r2 Hw1 I2 X2).
      destruct hack; exact E2. }
    destruct s2 as [| c3 s3].
    + injection Hloop as <-.
      repeat (apply Forall_app; split); try assumption.
      apply interior_fair. exact W2.
    + destruct (FrameBoxM.loop style flags (negb hack) (String c3 s3) r2)
        as [rest |] eqn:Erest; [| discriminate].
      cbn [option_map] in Hloop. injection Hloop as <-.
      repeat (apply Forall_app; split); try assumption.
      apply (IH (negb hack) r2 rest HR W2 Hw2 Erest).
Qed.

End BezelGeometry.

Section BezelRoom.

Context `{Platform} (style : Style) (flags : Flags).

Lemma length_two (c1 c2 : ascii) (s : string) :
  Z.of_nat (String.length (String c1 (String c2 s))) / 2 =
  1 + Z.of_nat (String.length s) / 2.
Proof.
  cbn [String.length]. rewrite !Nat2Z.inj_succ.
  replace (Z.succ (Z.succ (Z.of_nat (String.length s))))
    with (Z.of_nat (String.length s) + 1 * 2) by lia.
  rewrite Z.div_add by lia. lia.
Qed.

Lemma half_succ (k : Z) : 0 <= k -> (1 + k + 1) / 2 = 1 + k / 2.
Proof.
  intros Hk. replace (1 + k + 1) with (k + 1 * 2) by lia.
  rewrite Z.div_add by lia. lia.
Qed.

(** An edge without looking at its primitives: the rectangle afterwards. *)
Lemma edge_line_moves (e : Edge) (c : Z) (r : Rectangle) :
  workable r ->
  let ops := fst (edge_line e c r) in
  let r' := snd (edge_line e c r) in
  forallb is_fill ops = false
  /\ existsb is_fill ops = false
  /\ List.length (filter is_line ops) = 1%nat
  /\ int_sized r'
  /\ match e with
     | Bottom => x_ r' = x_ r /\ y_ r' = y_ r /\ w_ r' = w_ r /\ h_ r' = h_ r - 1
     | Right => x_ r' = x_ r /\ y_ r' = y_ r /\ w_ r' = w_ r - 1 /\ h_ r' = h_ r
     | Top => x_ r' = x_ r /\ y_ r' = y_ r +i 1 /\ w_ r' = w_ r /\ h_ r' = h_ r - 1
     | Left => x_ r' = x_ r +i 1 /\ y_ r' = y_ r /\ w_ r' = w_ r - 1 /\ h_ r' = h_ r
     end.
Proof.
  intros (Pw & Ph & Iw & Ih).
  destruct (pred_pos _ Pw Iw) as [Hw1 Hw2].
  destruct (pred_pos _ Ph Ih) as [Hh1 Hh2].
  unfold int_sized, I32.in_range in *.
  destruct e; cbn [edge_line FrameBoxM.bottom_line FrameBoxM.right_line
                   FrameBoxM.top_line FrameBoxM.left_line fst snd
                   move_b move_r move_x move_y x_ y_ w_ h_];
    rewrite ?Hw1, ?Hw2, ?Hh1, ?Hh2;
    (repeat split; try reflexivity; lia).
Qed.

Lemma existsb_app_false {A} (f : A -> bool) (l1 l2 : list A) :
  existsb f l1 = false -> existsb f l2 = false -> existsb f (l1 ++ l2) = false.
Proof. intros H1 H2. rewrite existsb_app, H1, H2. reflexivity. Qed.

(** With room for every edge the loop draws them all and fills what is
    left: [k] pixels narrower and lower, moved right and down by the number
    of left and top edges. *)
Lemma loop_full (s : string) :
  forall (hack : bool) (r : Rectangle),
    Nat.even (String.length s) = true ->
    s <> EmptyString ->
    workable r ->
    I32.in_range (x_ r) -> I32.in_range (y_ r) ->
    let k := Z.of_nat (String.length s) / 2 in
    let a := if hack then (k + 1) / 2 else k / 2 in
    k < w_ r -> k < h_ r ->
    exists edges,
      FrameBoxM.loop style flags hack s r =
      Some (edges ++ FrameBoxM.interior style flags
                       (mkRect (x_ r +i a) (y_ r +i a) (w_ r - k) (h_ r - k)))
      /\ existsb is_fill edges = false
      /\ List.length (filter is_line edges) = String.length s.
Proof.
  induction s as [| c | c1 c2 s2 IH] using string_pair_ind;
    intros hack r Heven Hne Hw Hx Hy k a Hkw Hkh.
  - congruence.
  - discriminate.
  - assert (Hk : k = 1 + Z.of_nat (String.length s2) / 2) by apply length_two.
    assert (Hn : 0 <= Z.of_nat (String.length s2) / 2)
      by (apply Z.div_pos; lia).
    rewrite loop_two.
    pose proof (edge_line_moves (if hack then Top else Bottom) (char_val c1) r Hw)
      as (_ & N1 & L1 & I1 & M1).
    destruct (edge_line (if hack then Top else Bottom) (char_val c1) r)
      as [ops1 r1]. cbn [fst snd] in *.
    assert (Hw1 : workable r1).
    { destruct Hw as (Pw & Ph & _). unfold workable.
      destruct hack; destruct M1 as (_ & _ & Mw & Mh);
        (split; [lia | split; [lia | exact I1]]). }
    assert (E1 : (h_ r1 <=? 0) = false)
      by (apply Z.leb_gt; apply Hw1).
    rewrite E1.
    pose proof (edge_line_moves (if hack then Left else Right) (char_val c2) r1 Hw1)
      as (_ & N2 & L2 & I2 & M2).
    destruct (edge_line (if hack then Left else Right) (char_val c2) r1)
      as [ops2 r2]. cbn [fst snd] in *.
    assert (Hw2 : workable r2).
    { destruct Hw1 as (Pw & Ph & _). unfold workable.
      destruct hack; destruct M1 as (_ & _ & Mw1 & Mh1);
        destruct M2 as (_ & _ & Mw & Mh);
        (split; [lia | split; [lia | exact I2]]). }
    assert (E2 : (w_ r2 <=? 0) = false)
      by (apply Z.leb_gt; apply Hw2).
    rewrite E2.
    assert (Hr2 : x_ r2 = (if hack then x_ r +i 1 else x_ r)
                  /\ y_ r2 = (if hack then y_ r +i 1 else y_ r)
                  /\ w_ r2 = w_ r - 1 /\ h_ r2 = h_ r - 1).
    { destruct hack; destruct M1 as (A1 & A2 & A3 & A4);
        destruct M2 as (B1 & B2 & B3 & B4); repeat split; congruence. }
    destruct Hr2 as (Rx & Ry & Rw & Rh).
    destruct s2 as [| c3 s3].
    + assert (Hk1 : k = 1) by (rewrite Hk; reflexivity).
      assert (Ha : a = if hack then 1 else 0)
        by (unfold a; rewrite Hk1; destruct hack; reflexivity).
      exists (ops1 ++ ops2). rewrite <- app_assoc.
      split; [| split].
      * assert (Er : r2 = mkRect (x_ r +i a) (y_ r +i a) (w_ r - k) (h_ r - k)).
        { destruct r2 as [x2 y2 w2 h2]. cbn [x_ y_ w_ h_] in Rx, Ry, Rw, Rh.
          rewrite Ha, Hk1, Rx, Ry, Rw, Rh.
          destruct hack; f_equal; try reflexivity;
            unfold I32.add; rewrite Z.add_0_r; symmetry; apply wrap_small;
            assumption. }
        rewrite <- Er. reflexivity.
      * apply existsb_app_false; assumption.
      * rewrite filter_app, length_app, L1, L2. reflexivity.
    + destruct (IH (negb hack) r2) as (rest & Eloop & Nrest & Lrest).
      * exact Heven.
      * discriminate.
      * exact Hw2.
      * rewrite Rx. destruct hack; [apply wrap_in_range | exact Hx].
      * rewrite Ry. destruct hack; [apply wrap_in_range | exact Hy].
      * lia.
      * lia.
      * exists (ops1 ++ ops2 ++ rest). rewrite Eloop. cbn [option_map].
        split; [| split].
        -- rewrite <- !app_assoc. do 3 f_equal.
           set (k2 := Z.of_nat (String.length (String c3 s3)) / 2) in *.
           assert (Hk2 : 0 <= k2) by exact Hn.
           assert (Ha : a = if hack then 1 + k2 / 2 else (k2 + 1) / 2).
           { unfold a. rewrite Hk. destruct hack.
             - apply half_succ. exact Hk2.
             - f_equal. lia. }
           rewrite Ha, Hk, Rx, Ry, Rw, Rh.
           destruct hack; cbn [negb]; unfold I32.add; rewrite ?wrap_add_l;
             apply f_equal; apply f_equal; f_equal; try (f_equal; lia); lia.
        -- repeat apply existsb_app_false; assumption.
        -- rewrite !filter_app, !length_app, L1, L2, Lrest. reflexivity.
Qed.

(** Without room for every edge the loop stops before any fill. *)
Lemma loop_thin (s : string) :
  forall (hack : bool) (r : Rectangle) (ops : list DrawOp),
    Nat.even (String.length s) = true ->
    s <> EmptyString ->
    workable r ->
    let k := Z.of_nat (String.length s) / 2 in
    w_ r <= k \/ h_ r <= k ->
    FrameBoxM.loop style flags hack s r = Some ops ->
    existsb is_fill ops = false.
Proof.
  induction s as [| c | c1 c2 s2 IH] using string_pair_ind;
    intros hack r ops Heven Hne Hw k Hthin Hloop.
  - congruence.
  - discriminate.
  - assert (Hk : k = 1 + Z.of_nat (String.length s2) / 2) by apply length_two.
    rewrite loop_two in Hloop.
    pose proof (edge_line_moves (if hack then Top else Bottom) (char_val c1) r Hw)
      as (_ & N1 & L1 & I1 & M1).
    destruct (edge_line (if hack then Top else Bottom) (char_val c1) r)
      as [ops1 r1]. cbn [fst snd] in *.
    destruct (h_ r1 <=? 0) eqn:E1; [injection Hloop as <-; exact N1 |].
    assert (Hw1 : workable r1).
    { destruct Hw as (Pw & Ph & _). apply Z.leb_gt in E1. unfold workable.
      destruct hack; destruct M1 as (_ & _ & Mw & Mh);
        (split; [lia | split; [lia | exact I1]]). }
    pose proof (edge_line_moves (if hack then Left else Right) (char_val c2) r1 Hw1)
      as (_ & N2 & L2 & I2 & M2).
    destruct (edge_line (if hack then Left else Right) (char_val c2) r1)
      as [ops2 r2]. cbn [fst snd] in *.
    destruct (w_ r2 <=? 0) eqn:E2.
    { injection Hloop as <-. apply existsb_app_false; assumption. }
    assert (Hw2 : workable r2).
    { destruct Hw1 as (Pw & Ph & _). apply Z.leb_gt in E2. unfold workable.
      destruct hack; destruct M2 as (_ & _ & Mw & Mh);
        (split; [lia | split; [lia | exact I2]]). }
    assert (Hr2 : w_ r2 = w_ r - 1 /\ h_ r2 = h_ r - 1).
    { destruct hack; destruct M1 as (A1 & A2 & A3 & A4);
        destruct M2 as (B1 & B2 & B3 & B4); split; congruence. }
    destruct Hr2 as (Rw & Rh).
    destruct s2 as [| c3 s3].
    + exfalso. cbn [String.length Z.of_nat] in Hk. change (0 / 2) with 0 in Hk.
      destruct Hw2 as (Pw & Ph & _). lia.
    + destruct (FrameBoxM.loop style flags (negb hack) (String c3 s3) r2)
        as [rest |] eqn:Erest; [| discriminate].
      cbn [option_map] in Hloop. injection Hloop as <-.
      repeat apply existsb_app_false; try assumption.
      apply (IH (negb hack) r2 rest Heven ltac:(discriminate) Hw2); [| exact Erest].
      lia.
Qed.

End BezelRoom.

Section FrameBoxFacts.

Context `{Platform}.

Lemma body_length (p : string) :
  body p = p \/ String.length p = S (String.length (body p)).
Proof.
  destruct p as [| c p']; [left; reflexivity |].
  destruct c as [[] [] [] [] [] [] [] []]; auto.
Qed.

Lemma body_cases (p : string) :
  (body p = p /\ forall s, p <> String "2"%char s)
  \/ p = String "2"%char (body p).
Proof.
  destruct p as [| c p']; [left; split; [reflexivity | discriminate] |].
  destruct (Ascii.eqb_spec c "2"%char) as [-> | Hc]; [right; reflexivity |].
  left. split; [| congruence].
  destruct c as [[] [] [] [] [] [] [] []]; try reflexivity.
  exfalso. apply Hc. reflexivity.
Qed.

(** The loop as [_draw] enters it: at [HACK] after a leading ['2']. *)
Lemma run_body (style : Style) (flags : Flags) (p : string) (R : Rectangle) :
  exists hack,
    FrameBoxM.run style flags p R = FrameBoxM.loop style flags hack (body p) R
    /\ (hack = true <-> body p <> p).
Proof.
  destruct (body_cases p) as [[Hb Hn] | Hp].
  - exists false. split.
    + rewrite Hb. unfold FrameBoxM.run.
      destruct p as [| c p']; [reflexivity |].
      destruct c as [[] [] [] [] [] [] [] []]; try reflexivity.
      exfalso. apply (Hn p'). reflexivity.
    + split; [discriminate | intros Hne; congruence].
  - exists true. split.
    + rewrite Hp at 1. reflexivity.
    + split; [| reflexivity]. intros _ E. rewrite E in Hp.
      apply (f_equal String.length) in Hp. cbn in Hp. lia.
Qed.

(** Half the length of a pattern of paired edge characters is the number of
    pairs, with or without the leading ['2']. *)
Lemma half_length_pairs (p : string) :
  paired p -> Z.of_nat (String.length p) / 2 = pairs p /\ 1 <= pairs p.
Proof.
  intros [Heven Hne]. unfold pairs.
  apply Nat.even_spec in Heven. destruct Heven as [m Hm].
  assert (Hm1 : (1 <= m)%nat).
  { destruct (body p); [congruence |]. cbn in Hm. lia. }
  assert (Hb : Z.of_nat (String.length (body p)) / 2 = Z.of_nat m).
  { rewrite Hm, Nat2Z.inj_mul, Z.mul_comm. apply Z.div_mul. lia. }
  rewrite Hb. split; [| lia].
  destruct (body_length p) as [E | E].
  - rewrite <- E at 1. exact Hb.
  - rewrite E, Hm, Nat2Z.inj_succ, Nat2Z.inj_mul.
    replace (Z.succ (Z.of_nat 2 * Z.of_nat m)) with (1 + Z.of_nat m * 2) by lia.
    rewrite Z.div_add by lia. reflexivity.
Qed.

Lemma make_boxinfo (n P : string) (d : option FrameBoxT) :
  paired P -> pairs P < 2 ^ 31 ->
  FrameBoxM.boxinfo (FrameBoxM.make n P d) =
  mkBoxInfo (pairs P / 2) (pairs P / 2) (pairs P) (pairs P) 3.
Proof.
  intros HP Hk. destruct (half_length_pairs P HP) as [Hhalf H1].
  assert (Hw : I32.wrap (pairs P) = pairs P)
    by (apply wrap_small; unfold I32.in_range; lia).
  assert (Hq : Z.quot (pairs P) 2 = pairs P / 2)
    by (apply Z.quot_div_nonneg; lia).
  assert (Hw2 : I32.wrap (pairs P / 2) = pairs P / 2).
  { apply wrap_small. unfold I32.in_range.
    split; [assert (0 <= pairs P / 2) by (apply Z.div_pos; lia); lia |].
    apply Z.div_lt_upper_bound; lia. }
  unfold FrameBoxM.make, FrameBoxM.strlen, I32.div.
  rewrite Hhalf, Hw, Hq, Hw2. destruct d; reflexivity.
Qed.

Lemma interior_fill (style : Style) (flags : Flags) (r : Rectangle) :
  existsb is_fill (FrameBoxM.interior style flags r) = negb (has flags INVISIBLE).
Proof.
  unfold FrameBoxM.interior. destruct (has flags INVISIBLE); cbn [negb];
    [reflexivity |].
  destruct (boxcolors style flags); reflexivity.
Qed.

Lemma nonempty_workable (R : Rectangle) :
  empty R = false -> int_sized R -> workable R.
Proof.
  intros HR Hi. unfold empty in HR. apply orb_false_iff in HR.
  destruct HR as [A B]. apply Z.leb_gt in A, B. unfold workable. auto.
Qed.

End FrameBoxFacts.

(** X1.  A [FrameBox] drawn with its own pattern (edge characters in pairs;
    no leading ['2'], or an even number of pairs) on a rectangle wider and
    higher than the number of pairs draws every edge of the pattern and then
    the interior, and the interior is the rectangle inset by the box's own
    [boxinfo()]: moved by (dx, dy) and smaller by (dw, dh). *)
Theorem FrameBox_fills_inset `{Platform} (n P : string) (d : option FrameBoxT)
  (R : Rectangle) (style : Style) (flags : Flags) :
  paired P ->
  (body P <> P -> Z.even (pairs P) = true) ->
  has flags VALUE = false ->
  has flags INACTIVE && draw_boxes_inactive style = false ->
  int_rect R ->
  pairs P < w_ R ->
  pairs P < h_ R ->
  let f := FrameBoxM.make n P d in
  dw (boxinfo (FrameBox f)) = pairs P
  /\ dh (boxinfo (FrameBox f)) = pairs P
  /\ exists edges,
       draw (FrameBox f) R style flags =
       Some (edges ++ FrameBoxM.interior style flags (inset (boxinfo (FrameBox f)) R))
       /\ existsb is_fill edges = false
       /\ List.length (filter is_line edges) = String.length (body P).
Proof.
  intros HP H2 Hv Hd (Hx & Hy & Hw & Hh) Hkw Hkh f.
  destruct (half_length_pairs P HP) as [Hhalf H1].
  assert (Hk31 : pairs P < 2 ^ 31) by (unfold I32.in_range in Hw; lia).
  assert (Hinfo : boxinfo (FrameBox f) =
                  mkBoxInfo (pairs P / 2) (pairs P / 2) (pairs P) (pairs P) 3)
    by (apply make_boxinfo; assumption).
  rewrite Hinfo. cbn [dw dh]. split; [reflexivity |]. split; [reflexivity |].
  assert (HRne : empty R = false).
  { unfold empty. apply orb_false_iff. split; apply Z.leb_gt; lia. }
  assert (HW : workable R)
    by (apply nonempty_workable; [exact HRne | split; assumption]).
  assert (Hdata : FrameBoxM.data f = P) by (unfold f; destruct d; reflexivity).
  cbn [draw]. unfold FrameBoxM._draw, FrameBoxM.interpreted, FrameBoxM.selected.
  rewrite HRne, Hv, Hd, Hdata.
  destruct (run_body style flags P R) as (hack & Erun & Hhack).
  rewrite Erun.
  destruct HP as [Heven Hne].
  destruct (loop_full style flags (body P) hack R Heven Hne HW Hx Hy)
    as (edges & Eloop & Nf & Ln); [exact Hkw | exact Hkh |].
  exists edges. split; [| split; assumption].
  rewrite Eloop. do 3 f_equal. fold (pairs P).
  unfold inset. cbn [dx dy dw dh].
  assert (Ha : (if hack then (pairs P + 1) / 2 else pairs P / 2) = pairs P / 2).
  { destruct hack; [| reflexivity].
    assert (He : Z.even (pairs P) = true) by (apply H2, Hhack; reflexivity).
    apply Z.even_spec in He. destruct He as [m Hm]. rewrite Hm.
    rewrite Z.mul_comm, Z.div_add_l, Z.div_mul by lia.
    change (1 / 2) with 0. lia. }
  rewrite Ha.
  f_equal; unfold I32.sub; symmetry; apply wrap_small;
    unfold I32.in_range in *; lia.
Qed.

Lemma FrameBox_fills_inset_witness :
  exists edges,
    draw (H := example_platform) (FrameBox (FrameBoxM.make "up" "AAWWHHTT" (Some downBox)))
      (mkRect 10 20 30 40) example_style 0 =
    Some (edges ++ [setcolor 49; fillrect (mkRect 12 22 26 36)])
    /\ existsb is_fill edges = false
    /\ List.length (filter is_line edges) = 8%nat.
Proof.
  refine (proj2 (proj2 (FrameBox_fills_inset (H := example_platform)
    "up" "AAWWHHTT" (Some downBox) (mkRect 10 20 30 40) example_style 0
    _ _ _ _ _ _ _))).
  - split; [reflexivity | discriminate].
  - intros Hne. exfalso. apply Hne. reflexivity.
  - reflexivity.
  - reflexivity.
  - unfold int_rect, I32.in_range. cbn. lia.
  - reflexivity.
  - reflexivity.
Defined.

(** X2.  For a pattern of [k] pairs of edge characters and a non-empty
    rectangle, [FrameBox::_draw] fills an interior exactly when [INVISIBLE]
    is off and the rectangle is both wider and higher than [k]; on a
    rectangle with width or height [<= k] it stops at an edge and fills
    nothing. *)
Theorem FrameBox_fills_iff_room `{Platform} (f : FrameBoxT) (R : Rectangle)
  (style : Style) (flags : Flags) (p : string) :
  empty R = false ->
  int_rect R ->
  FrameBoxM.interpreted f style flags = Some p ->
  paired p ->
  exists ops,
    FrameBoxM._draw f R style flags = Some ops
    /\ (existsb is_fill ops = true <->
        has flags INVISIBLE = false /\ pairs p < w_ R /\ pairs p < h_ R).
Proof.
  intros HRne (Hx & Hy & Hw & Hh) Hp [Heven Hne].
  assert (HW : workable R)
    by (apply nonempty_workable; [exact HRne | split; assumption]).
  unfold FrameBoxM._draw. rewrite HRne, Hp.
  destruct (run_body style flags p R) as (hack & Erun & _). rewrite Erun.
  destruct (Z_lt_le_dec (pairs p) (w_ R)) as [Hkw | Hkw];
    [destruct (Z_lt_le_dec (pairs p) (h_ R)) as [Hkh | Hkh] |].
  - destruct (loop_full style flags (body p) hack R Heven Hne HW Hx Hy Hkw Hkh)
      as (edges & Eloop & Nf & _).
    eexists. split; [exact Eloop |].
    rewrite existsb_app, Nf, interior_fill. cbn [orb].
    destruct (has flags INVISIBLE); cbn [negb]; split; intros; try tauto;
      try discriminate.
    destruct H0 as [E _]. discriminate E.
  - pose proof (loop_unrolled style flags (body p) hack R Heven Hne HW) as Eloop.
    eexists. split; [exact Eloop |].
    rewrite (loop_thin style flags (body p) hack R _ Heven Hne HW
               (or_intror Hkh) Eloop).
    split; [discriminate | intros (_ & _ & Hc); fold (pairs p) in Hkh; lia].
  - pose proof (loop_unrolled style flags (body p) hack R Heven Hne HW) as Eloop.
    eexists. split; [exact Eloop |].
    rewrite (loop_thin style flags (body p) hack R _ Heven Hne HW
               (or_introl Hkw) Eloop).
    split; [discriminate | intros (_ & Hc & _); fold (pairs p) in Hkw; lia].
Qed.

Lemma FrameBox_fills_iff_room_witness :
  exists ops,
    FrameBoxM._draw (H := example_platform) upBox (mkRect 0 0 4 9) example_style 0 =
    Some ops
    /\ (existsb is_fill ops = true <->
        has 0 (INVISIBLE (Platform := example_platform)) = false
        /\ pairs "AAWWHHTT" < 4 /\ pairs "AAWWHHTT" < 9).
Proof.
  refine (FrameBox_fills_iff_room (H := example_platform) upBox
            (mkRect 0 0 4 9) example_style 0 "AAWWHHTT" _ _ _ _).
  - reflexivity.
  - unfold int_rect, I32.in_range. cbn. lia.
  - reflexivity.
  - split; [reflexivity | discriminate].
Defined.

Section InactivePatterns.

Context `{Platform}.

Lemma inactive_char_mid (c : ascii) :
  is_shade c = true ->
  is_mid_shade (FrameBoxM.inactive_char c) = true
  /\ is_shade (FrameBoxM.inactive_char c) = true
  /\ FrameBoxM.inactive_char c <> "2"%char.
Proof.
  unfold FrameBoxM.inactive_char, char_val.
  destruct char_signed;
    destruct c as [[] [] [] [] [] [] [] []]; vm_compute;
    intros Hc; try discriminate Hc; repeat split; discriminate.
Qed.

Lemma inactive_body_length (s : string) :
  String.length (FrameBoxM.inactive_body s) = String.length s.
Proof. induction s as [| c s IH]; cbn; congruence. Qed.

Lemma inactive_body_mid (s : string) :
  shades s = true ->
  mid_shades (FrameBoxM.inactive_body s) = true
  /\ shades (FrameBoxM.inactive_body s) = true.
Proof.
  induction s as [| c s IH]; cbn [shades FrameBoxM.inactive_body mid_shades];
    [auto |].
  intros Hs. apply andb_true_iff in Hs. destruct Hs as [Hc Hs].
  destruct (inactive_char_mid c Hc) as (M & S & _).
  destruct (IH Hs) as [IM IS]. rewrite M, S, IM, IS. auto.
Qed.

Lemma fl_to_inactive_body (s : string) :
  shades (body s) = true ->
  body (FrameBoxM.fl_to_inactive s) = FrameBoxM.inactive_body (body s)
  /\ (body s <> s -> body (FrameBoxM.fl_to_inactive s) <> FrameBoxM.fl_to_inactive s)
  /\ (body s = s -> body (FrameBoxM.fl_to_inactive s) = FrameBoxM.fl_to_inactive s).
Proof.
  intros Hs. destruct s as [| c s'].
  - cbn. repeat split; congruence.
  - destruct (Ascii.eqb_spec c "2"%char) as [-> | Hc].
    + cbn [body FrameBoxM.fl_to_inactive]. split; [reflexivity |]. split.
      * intros _ E. apply (f_equal String.length) in E. cbn in E. lia.
      * intros E. apply (f_equal String.length) in E. cbn in E. lia.
    + assert (Hb : body (String c s') = String c s').
      { destruct c as [[] [] [] [] [] [] [] []]; try reflexivity.
        exfalso. apply Hc. reflexivity. }
      assert (E : FrameBoxM.fl_to_inactive (String c s') =
                  FrameBoxM.inactive_body (String c s')).
      { unfold FrameBoxM.fl_to_inactive.
        destruct c as [[] [] [] [] [] [] [] []]; try reflexivity.
        exfalso. apply Hc. reflexivity. }
      rewrite Hb in *. rewrite E.
      cbn [shades] in Hs. apply andb_true_iff in Hs. destruct Hs as [Hsc _].
      destruct (inactive_char_mid c Hsc) as (_ & _ & N2).
      assert (B : body (FrameBoxM.inactive_body (String c s')) =
                  FrameBoxM.inactive_body (String c s')).
      { cbn [FrameBoxM.inactive_body].
        destruct (body_cases (String (FrameBoxM.inactive_char c)
                                     (FrameBoxM.inactive_body s')))
          as [[B _] | B]; [exact B |].
        exfalso. injection B as B _. exact (N2 B). }
      split; [exact B |]. split; [congruence | intros _; exact B].
Qed.

Lemma fl_to_inactive_length (s : string) :
  String.length (FrameBoxM.fl_to_inactive s) = String.length s.
Proof.
  unfold FrameBoxM.fl_to_inactive. destruct s as [| c s']; [reflexivity |].
  destruct c as [[] [] [] [] [] [] [] []];
    cbn [String.length FrameBoxM.inactive_body];
    rewrite inactive_body_length; reflexivity.
Qed.

Lemma pattern_ok_inactive (s : string) :
  pattern_ok s = true -> pattern_ok (FrameBoxM.fl_to_inactive s) = true.
Proof.
  unfold pattern_ok. intros Hok.
  assert (Hs : shades (body s) = true).
  { destruct (shades (body s)); [reflexivity | discriminate Hok]. }
  destruct (fl_to_inactive_body s Hs) as (Eb & _).
  destruct (inactive_body_mid (body s) Hs) as [_ Hsh].
  rewrite Eb, inactive_body_length, fl_to_inactive_length, Hsh.
  rewrite Hs in Hok. exact Hok.
Qed.

Lemma pattern_ok_paired (s : string) :
  pattern_ok s = true ->
  paired s /\ (String.length s < FrameBoxM.buf_size)%nat.
Proof.
  unfold pattern_ok, paired. intros Hok.
  repeat (apply andb_true_iff in Hok; destruct Hok as [Hok ?]).
  repeat split.
  - assumption.
  - intros E. rewrite E in *. discriminate.
  - apply Nat.ltb_lt. assumption.
Qed.

End InactivePatterns.

(** X3.  [fl_to_inactive] keeps the length of a pattern (so a pattern that
    fits [buf] is copied without overflow); on a pattern of shade letters
    ['A'..'X'] after an optional ['2'] it keeps the mode character, puts
    every shade into the band ['M'..'T'], and yields again a well-formed
    pattern with as many pairs. *)
Theorem fl_to_inactive_keeps_shape `{Platform} (s : string) :
  String.length (FrameBoxM.fl_to_inactive s) = String.length s
  /\ (shades (body s) = true ->
      mid_shades (body (FrameBoxM.fl_to_inactive s)) = true
      /\ (body (FrameBoxM.fl_to_inactive s) = FrameBoxM.fl_to_inactive s <->
          body s = s)
      /\ pairs (FrameBoxM.fl_to_inactive s) = pairs s
      /\ (pattern_ok s = true -> pattern_ok (FrameBoxM.fl_to_inactive s) = true)).
Proof.
  split; [apply fl_to_inactive_length |].
  intros Hs. destruct (fl_to_inactive_body s Hs) as (Eb & Hne & Heq).
  destruct (inactive_body_mid (body s) Hs) as [Hmid Hsh].
  split; [rewrite Eb; exact Hmid |]. split; [| split].
  - split; [| exact Heq].
    intros E. destruct (body_cases s) as [[Hb _] | Hp]; [exact Hb |].
    exfalso. apply Hne; [| exact E].
    intros E'. rewrite E' in Hp. apply (f_equal String.length) in Hp.
    cbn in Hp. lia.
  - unfold pairs. rewrite Eb, inactive_body_length. reflexivity.
  - unfold pattern_ok.
    rewrite Eb, inactive_body_length, fl_to_inactive_length, Hsh, Hs.
    intros Hok. exact Hok.
Qed.

Lemma fl_to_inactive_keeps_shape_witness :
  mid_shades (body (FrameBoxM.fl_to_inactive (H := example_platform) "2HHWWWWHH")) = true
  /\ pattern_ok (FrameBoxM.fl_to_inactive (H := example_platform) "2HHWWWWHH") = true.
Proof.
  destruct (proj2 (fl_to_inactive_keeps_shape (H := example_platform) "2HHWWWWHH")
              eq_refl) as (Hmid & _ & _ & Hok).
  split; [exact Hmid | exact (Hok eq_refl)].
Defined.

Section AllBoxes.

Context `{Platform}.

Lemma within_refl (R : Rectangle) : within R R.
Proof. unfold within. lia. Qed.

(** The focus frame: nothing, or the frame of one rectangle within [r1]. *)
Lemma dotted_result (r1 : Rectangle) (s : Style) (flags : Flags) :
  int_box r1 ->
  (DottedFrameM._draw r1 s flags = Some []
   /\ (has flags FOCUSED = false \/ w_ r1 <= 3 \/ h_ r1 <= 3))
  \/ (exists r,
        DottedFrameM._draw r1 s flags =
        Some (setcolor (snd (boxcolors s flags)) :: DottedFrameM.frame r1 r)
        /\ has flags FOCUSED = true /\ 3 < w_ r1 /\ 3 < h_ r1
        /\ within r1 r
        /\ x_ r = (if 4 <? w_ r1 then x_ r1 + 1 else x_ r1)
        /\ y_ r = (if 4 <? h_ r1 then y_ r1 + 1 else y_ r1)
        /\ w_ r = (if 4 <? w_ r1 then w_ r1 - 2 else 3)
        /\ h_ r = (if 4 <? h_ r1 then h_ r1 - 2 else 3)).
Proof.
  intros ((Hx & Hy & Hw & Hh) & Hr & Hb).
  unfold DottedFrameM._draw.
  destruct (has flags FOCUSED) eqn:Ef; cbn [negb]; [| left; auto].
  destruct (4 <? w_ r1) eqn:Ew4; [| destruct (3 <? w_ r1) eqn:Ew3];
    try (left; split; [reflexivity | right; left; apply Z.ltb_ge in Ew3; lia]);
    cbn [move_x move_r h_];
    (destruct (4 <? h_ r1) eqn:Eh4; [| destruct (3 <? h_ r1) eqn:Eh3];
     try (left; split; [reflexivity | right; right; apply Z.ltb_ge in Eh3; lia]));
    right; destruct (boxcolors s flags) as [bg fg]; eexists;
    (split; [reflexivity |]);
    rewrite ?Z.ltb_lt, ?Z.ltb_ge in *;
    unfold within, I32.in_range in *;
    repeat split;
    cbn [move_x move_y move_r move_b x_ y_ w_ h_ snd]; nowrap; lia.
Qed.

(** Whatever the build, the frame of a rectangle within [R] stays inside
    [R] and fills nothing. *)
Lemma frame_inside (R r1 r : Rectangle) :
  within R r -> Forall (inside R) (DottedFrameM.frame r1 r).
Proof.
  intros Hin. unfold DottedFrameM.frame.
  destruct build; destruct stipples_made; cbn [app];
    repeat (apply Forall_cons || apply Forall_nil); cbn [inside];
    try exact I; try exact Hin;
    exists r; (split; [exact Hin |]); tauto.
Qed.

Lemma frame_no_fill (r1 r : Rectangle) :
  existsb is_fill (DottedFrameM.frame r1 r) = false.
Proof.
  unfold DottedFrameM.frame.
  destruct build; destruct stipples_made; reflexivity.
Qed.

Lemma edge_line_no_fill (e : Edge) (c : Z) (r : Rectangle) :
  existsb is_fill (fst (edge_line e c r)) = false.
Proof. destruct e; reflexivity. Qed.

(** Under [INVISIBLE] the loop emits no fill, whatever the pattern. *)
Lemma loop_invisible (style : Style) (flags : Flags) (s : string) :
  has flags INVISIBLE = true ->
  forall (hack : bool) (r : Rectangle) (ops : list DrawOp),
    FrameBoxM.loop style flags hack s r = Some ops ->
    existsb is_fill ops = false.
Proof.
  intros Hinv.
  induction s as [| c | c1 c2 s2 IH] using string_pair_ind;
    intros hack r ops Hloop.
  - rewrite loop_nil in Hloop.
    pose proof (edge_line_no_fill (if hack then Top else Bottom) 0 r) as N1.
    destruct (edge_line (if hack then Top else Bottom) 0 r) as [ops1 r1].
    destruct (h_ r1 <=? 0); [| discriminate].
    injection Hloop as <-. exact N1.
  - rewrite loop_one in Hloop.
    pose proof (edge_line_no_fill (if hack then Top else Bottom) (char_val c) r)
      as N1.
    destruct (edge_line (if hack then Top else Bottom) (char_val c) r)
      as [ops1 r1].
    destruct (h_ r1 <=? 0); [injection Hloop as <-; exact N1 |].
    pose proof (edge_line_no_fill (if hack then Left else Right) 0 r1) as N2.
    destruct (edge_line (if hack then Left else Right) 0 r1) as [ops2 r2].
    destruct (w_ r2 <=? 0); [| discriminate].
    injection Hloop as <-. apply existsb_app_false; assumption.
  - rewrite loop_two in Hloop.
    pose proof (edge_line_no_fill (if hack then Top else Bottom) (char_val c1) r)
      as N1.
    destruct (edge_line (if hack then Top else Bottom) (char_val c1) r)
      as [ops1 r1].
    destruct (h_ r1 <=? 0); [injection Hloop as <-; exact N1 |].
    pose proof (edge_line_no_fill (if hack then Left else Right) (char_val c2) r1)
      as N2.
    destruct (edge_line (if hack then Left else Right) (char_val c2) r1)
      as [ops2 r2].
    destruct (w_ r2 <=? 0).
    { injection Hloop as <-. apply existsb_app_false; assumption. }
    destruct s2 as [| c3 s3].
    + injection Hloop as <-.
      repeat apply existsb_app_false; try assumption.
      rewrite interior_fill, Hinv. reflexivity.
    + destruct (FrameBoxM.loop style flags (negb hack) (String c3 s3) r2)
        as [rest |] eqn:Erest; [| discriminate].
      cbn [option_map] in Hloop. injection Hloop as <-.
      repeat apply existsb_app_false; try assumption.
      apply (IH (negb hack) r2 rest Erest).
Qed.

Lemma run_loop (style : Style) (flags : Flags) (p : string) (R : Rectangle) :
  exists hack, FrameBoxM.run style flags p R =
               FrameBoxM.loop style flags hack (body p) R.
Proof.
  destruct (run_body style flags p R) as (hack & E & _). exists hack. exact E.
Qed.

End AllBoxes.

(** X4.  Whatever box of UpBox.cxx is drawn into a rectangle [R] (whose
    edges are [int]s), with whatever style, flags and pattern, a finished
    run touches no pixel outside [R]: every line has both ends in [R] and
    every filled or stroked rectangle lies within [R]. *)
Theorem draw_stays_inside `{Platform} (b : Box) (R : Rectangle) (style : Style)
  (flags : Flags) (ops : list DrawOp) :
  int_box R ->
  draw b R style flags = Some ops ->
  Forall (inside R) ops.
Proof.
  intros HR. revert ops.
  induction b as [n | n | f | n | n d IH | n]; intros ops Hd; cbn [draw] in Hd.
  - injection Hd as <-. constructor.
  - unfold FlatBoxM._draw in Hd.
    destruct (has flags INVISIBLE); [injection Hd as <-; constructor |].
    destruct (empty R); [injection Hd as <-; constructor |].
    destruct (boxcolors style flags). injection Hd as <-.
    repeat (apply Forall_cons || apply Forall_nil); cbn [inside];
      auto using within_refl.
  - unfold FrameBoxM._draw in Hd.
    destruct (empty R) eqn:HRne; [injection Hd as <-; constructor |].
    destruct (FrameBoxM.interpreted f style flags) as [p |]; [| discriminate].
    destruct (run_loop style flags p R) as (hack & Erun). rewrite Erun in Hd.
    assert (HW : workable R).
    { apply nonempty_workable; [exact HRne |]. destruct HR as ((_ & _ & Hw & Hh) & _).
      split; assumption. }
    pose proof (loop_fair style flags R (body p) hack R ops HR (within_refl R) HW Hd)
      as Hfair.
    apply Forall_impl with (2 := Hfair). intros op [Hin _]. exact Hin.
  - injection Hd as <-. repeat (apply Forall_cons || apply Forall_nil); cbn [inside];
      auto using within_refl.
  - unfold HighlightBoxM._draw in Hd.
    destruct (has flags _); [apply IH; exact Hd |].
    unfold FlatBoxM._draw in Hd.
    destruct (has flags INVISIBLE); [injection Hd as <-; constructor |].
    destruct (empty R); [injection Hd as <-; constructor |].
    destruct (boxcolors style flags). injection Hd as <-.
    repeat (apply Forall_cons || apply Forall_nil); cbn [inside];
      auto using within_refl.
  - destruct (dotted_result R style flags HR) as [[E _] | (r & E & _ & _ & _ & Hin & _)];
      rewrite E in Hd; injection Hd as <-.
    + apply Forall_nil.
    + apply Forall_cons; [exact I | apply frame_inside; exact Hin].
Qed.

Lemma draw_stays_inside_witness :
  Forall (inside (H := example_platform) (mkRect 5 5 3 2))
    [setcolor 32; drawline 5 6 7 6; setcolor 32; drawline 7 5 7 5;
     setcolor 54; drawline 5 5 6 5].
Proof.
  apply (draw_stays_inside (H := example_platform) UP_BOX (mkRect 5 5 3 2)
           example_style 0).
  - unfold int_box, int_rect, I32.in_range. cbn. lia.
  - reflexivity.
Defined.

(** X5.  With [INVISIBLE] set no box of UpBox.cxx fills anything: a finished
    run contains no [fillrect], whatever the box, rectangle, style, other
    flags or pattern. *)
Theorem draw_invisible_never_fills `{Platform} (b : Box) (R : Rectangle)
  (style : Style) (flags : Flags) (ops : list DrawOp) :
  has flags INVISIBLE = true ->
  draw b R style flags = Some ops ->
  existsb is_fill ops = false.
Proof.
  intros Hinv. revert ops.
  induction b as [n | n | f | n | n d IH | n]; intros ops Hd; cbn [draw] in Hd.
  - injection Hd as <-. reflexivity.
  - unfold FlatBoxM._draw in Hd. rewrite Hinv in Hd.
    injection Hd as <-. reflexivity.
  - unfold FrameBoxM._draw in Hd.
    destruct (empty R); [injection Hd as <-; reflexivity |].
    destruct (FrameBoxM.interpreted f style flags) as [p |]; [| discriminate].
    destruct (run_loop style flags p R) as (hack & Erun). rewrite Erun in Hd.
    apply (loop_invisible style flags (body p) Hinv hack R ops Hd).
  - injection Hd as <-. reflexivity.
  - unfold HighlightBoxM._draw in Hd.
    destruct (has flags (Z.lor _ _)); [apply IH; exact Hd |].
    unfold FlatBoxM._draw in Hd. rewrite Hinv in Hd.
    injection Hd as <-. reflexivity.
  - unfold DottedFrameM._draw in Hd.
    repeat match type of Hd with
           | (if ?c then _ else _) = _ => destruct c
           | match (if ?c then _ else _) with _ => _ end = _ => destruct c
           | (let '(_, _) := ?p in _) = _ => destruct p
           end;
      injection Hd as <-; try reflexivity;
      cbn [existsb is_fill orb]; apply frame_no_fill.
Qed.

Lemma draw_invisible_never_fills_witness :
  existsb is_fill
    [setcolor 54; drawline 0 8 8 8; setcolor 54; drawline 8 0 8 7;
     setcolor 39; drawline 0 0 7 0; setcolor 39; drawline 0 1 0 7] = false.
Proof.
  apply (draw_invisible_never_fills (H := example_platform) highlightUpBox
           (mkRect 0 0 9 9) example_style (8 + 4)).
  - reflexivity.
  - reflexivity.
Defined.

(** Boxes with well-formed patterns draw to the end. *)
Lemma box_ok_draws `{Platform} (b : Box) (R : Rectangle) (style : Style)
  (flags : Flags) :
  box_ok b = true ->
  int_sized R ->
  exists ops, draw b R style flags = Some ops.
Proof.
  intros Hok HR.
  induction b as [n | n | f | n | n d IH | n]; cbn [draw box_ok] in *.
  - eexists. reflexivity.
  - unfold FlatBoxM._draw.
    destruct (has flags INVISIBLE); [eexists; reflexivity |].
    destruct (empty R); [eexists; reflexivity |].
    destruct (boxcolors style flags). eexists. reflexivity.
  - unfold FrameBoxM._draw.
    destruct (empty R) eqn:HRne; [eexists; reflexivity |].
    unfold frame_ok in Hok. apply andb_true_iff in Hok. destruct Hok as [Ho Hd].
    assert (Hsel : pattern_ok (FrameBoxM.selected f flags) = true)
      by (unfold FrameBoxM.selected; destruct (has flags VALUE); assumption).
    assert (Hint : exists p, FrameBoxM.interpreted f style flags = Some p
                             /\ pattern_ok p = true).
    { unfold FrameBoxM.interpreted.
      destruct (has flags INACTIVE && draw_boxes_inactive style).
      - destruct (pattern_ok_paired _ Hsel) as [_ Hlen].
        apply Nat.ltb_lt in Hlen. rewrite Hlen.
        eexists. split; [reflexivity | apply pattern_ok_inactive; exact Hsel].
      - eexists. split; [reflexivity | exact Hsel]. }
    destruct Hint as (p & Ep & Hp). rewrite Ep.
    destruct (pattern_ok_paired p Hp) as [[Heven Hne] _].
    destruct (run_loop style flags p R) as (hack & Erun). rewrite Erun.
    eexists. apply loop_unrolled; [exact Heven | exact Hne |].
    apply nonempty_workable; assumption.
  - eexists. reflexivity.
  - unfold HighlightBoxM._draw.
    destruct (has flags _); [apply IH; exact Hok |].
    unfold FlatBoxM._draw.
    destruct (has flags INVISIBLE); [eexists; reflexivity |].
    destruct (empty R); [eexists; reflexivity |].
    destruct (boxcolors style flags). eexists. reflexivity.
  - unfold DottedFrameM._draw.
    repeat match goal with
           | |- context [if ?c then _ else _] => destruct c
           | |- context [let '(_, _) := ?p in _] => destruct p
           end; eexists; reflexivity.
Qed.

(** X6.  Drawing any box that UpBox.cxx defines, on any rectangle of [int]
    extent and with any style and flags, runs to its end: no read goes past
    the end of a pattern and the inactive copy always fits [buf].  The same
    holds of every box whose patterns are shade letters in pairs after an
    optional ['2'] and shorter than [buf]. *)
Theorem static_boxes_draw_to_the_end `{Platform} (b : Box) (R : Rectangle)
  (style : Style) (flags : Flags) :
  (In b static_boxes \/ box_ok b = true) ->
  int_sized R ->
  exists ops, draw b R style flags = Some ops.
Proof.
  intros Hb HR. apply box_ok_draws; [| exact HR].
  destruct Hb as [Hin | Hok]; [| exact Hok].
  assert (Hall : forallb box_ok static_boxes = true) by reflexivity.
  rewrite forallb_forall in Hall. apply Hall. exact Hin.
Qed.

Lemma static_boxes_draw_to_the_end_witness :
  exists ops,
    draw (H := example_platform) (FrameBox engravedBox) (mkRect 0 0 7 3)
      example_style (4 + 64) = Some ops.
Proof.
  apply (static_boxes_draw_to_the_end (H := example_platform)).
  - left. unfold static_boxes. cbn. tauto.
  - unfold int_sized, I32.in_range. cbn. lia.
Defined.

(** X7.  The focus frame draws nothing unless [FOCUSED] is set and the
    rectangle is more than 3 pixels wide and high.  Otherwise it sets the
    foreground colour and frames one rectangle [r], which lies within the
    given one, inset by one pixel on both sides of a dimension larger than 4
    and cut to 3 pixels where the dimension is exactly 4.  How [r] is framed
    depends on the build.  Without X11 and Windows: the dotted line style,
    [strokerect(r)], and the line style back to 0.  With X11: after making
    the two stipples if no earlier call has, the stipple chosen by the parity
    of the transformed corner against the corner of the given rectangle,
    [FillStippled], one [XDrawRectangle] of the transformed [r] with width
    and height less one, and [FillSolid] again.  On Windows: after making the
    two brushes if no earlier call has, the brush chosen in the same way
    selected, four [PatBlt] strips one pixel thick along the top, bottom,
    left and right of the transformed [r], and the old brush selected
    again. *)
Theorem DottedFrame_focus_frame `{Platform} (n : string) (r1 : Rectangle)
  (s : Style) (flags : Flags) :
  int_box r1 ->
  (draw (DottedFrame n) r1 s flags = Some []
   /\ (has flags FOCUSED = false \/ w_ r1 <= 3 \/ h_ r1 <= 3))
  \/ (exists r rest,
        draw (DottedFrame n) r1 s flags =
        Some (setcolor (snd (boxcolors s flags)) :: rest)
        /\ has flags FOCUSED = true /\ 3 < w_ r1 /\ 3 < h_ r1
        /\ within r1 r
        /\ x_ r = (if 4 <? w_ r1 then x_ r1 + 1 else x_ r1)
        /\ y_ r = (if 4 <? h_ r1 then y_ r1 + 1 else y_ r1)
        /\ w_ r = (if 4 <? w_ r1 then w_ r1 - 2 else 3)
        /\ h_ r = (if 4 <? h_ r1 then h_ r1 - 2 else 3)
        /\ rest =
           match build with
           | PORTABLE => [line_style DOT; strokerect r; line_style 0]
           | USE_X11 =>
             (if stipples_made then []
              else [XCreateBitmapFromData evenstipple;
                    XCreateBitmapFromData oddstipple])
             ++ [XSetStipple (DottedFrameM.stipple_of (transform r) r1);
                 XSetFillStyle true;
                 XDrawRectangle (x_ (transform r)) (y_ (transform r))
                                (w_ (transform r) -i 1) (h_ (transform r) -i 1);
                 XSetFillStyle false]
           | WIN32 =>
             (if stipples_made then []
              else [CreateBitmapIndirect evenstipple;
                    CreateBitmapIndirect oddstipple;
                    CreatePatternBrush evenstipple;
                    CreatePatternBrush oddstipple;
                    DeleteObject evenstipple; DeleteObject oddstipple])
             ++ [SelectObject (Some (DottedFrameM.stipple_of (transform r) r1));
                 PatBlt (x_ (transform r)) (y_ (transform r))
                        (w_ (transform r)) 1;
                 PatBlt (x_ (transform r)) (rect_b (transform r) -i 1)
                        (w_ (transform r)) 1;
                 PatBlt (x_ (transform r)) (y_ (transform r))
                        1 (h_ (transform r));
                 PatBlt (rect_r (transform r) -i 1) (y_ (transform r))
                        1 (h_ (transform r));
                 SelectObject None]
           end).
Proof.
  intros Hr. cbn [draw].
  destruct (dotted_result r1 s flags Hr)
    as [Hnone | (r & E & Hf & Hw & Hh & Hin & Hx & Hy & Hw' & Hh')].
  - left. exact Hnone.
  - right. exists r, (DottedFrameM.frame r1 r).
    repeat (split; [assumption |]).
    unfold DottedFrameM.frame. destruct build; reflexivity.
Qed.

Lemma DottedFrame_focus_frame_witness :
  draw (H := x11_platform) dottedFrame (mkRect 2 3 4 10) example_style 1 =
  Some [setcolor 56; XSetStipple oddstipple; XSetFillStyle true;
        XDrawRectangle 102 54 2 7; XSetFillStyle false].
Proof.
  destruct (DottedFrame_focus_frame (H := x11_platform) "dotted_frame"
              (mkRect 2 3 4 10) example_style 1)
    as [[_ [F | [W | Hh]]]
       | (r & rest & E & _ & _ & _ & _ & Hx & Hy & Hw & Hh & Erest)].
  - unfold int_box, int_rect, I32.in_range. cbn. lia.
  - discriminate F.
  - cbn in W. lia.
  - cbn in Hh. lia.
  - destruct r as [x y w h]. cbn in Hx, Hy, Hw, Hh. subst x y w h.
    unfold dottedFrame. rewrite E, Erest. reflexivity.
Defined.

(* ================================================================== *)
(** * Further properties of StatusBarGroup *)

Section Siblings.

Import StatusBarGroupM.

(** The loop body on a sibling, without wrap-around. *)
Lemma shrink_child_value (top : Z) (i : nat) (x y wd h : Z) (g : bool) :
  modest top -> modest y -> modest h ->
  fst (shrink_child top i (Sibling (mkWidget (mkRect x y wd h) g))) =
  Sibling (mkWidget
             (mkRect x y wd (if 0 <? y + h - top then Z.max 0 (top - y) else h))
             g).
Proof.
  unfold modest. intros Ht Hy Hh.
  unfold shrink_child, rect_b. cbn [wd_rect x_ y_ w_ h_ is_group].
  assert (Ed : y +i h -i top = y + h - top) by (nowrap; reflexivity).
  rewrite Ed.
  destruct (0 <? y + h - top) eqn:E; [| reflexivity].
  apply Z.ltb_lt in E.
  assert (Eh : h -i (y + h - top) = top - y) by (nowrap; lia).
  rewrite Eh. cbn [fst].
  destruct (0 <? top - y) eqn:E'.
  - apply Z.ltb_lt in E'. rewrite Z.max_r by lia. reflexivity.
  - apply Z.ltb_ge in E'. rewrite Z.max_l by lia. reflexivity.
Qed.

Lemma shrunk_height (top y h : Z) :
  modest top -> modest y -> modest h ->
  let h' := if 0 <? y + h - top then Z.max 0 (top - y) else h in
  modest h'
  /\ (y + h' <= top \/ h' = 0)
  /\ (if 0 <? y + h' - top then Z.max 0 (top - y) else h') = h'.
Proof.
  unfold modest. intros Ht Hy Hh. cbv zeta.
  destruct (0 <? y + h - top) eqn:E.
  - apply Z.ltb_lt in E.
    destruct (Z.max_spec 0 (top - y)) as [[Hc ->] | [Hc ->]].
    + split; [lia |]. split; [lia |].
      destruct (0 <? y + (top - y) - top); reflexivity.
    + split; [lia |]. split; [right; reflexivity |].
      destruct (0 <? y + 0 - top); reflexivity.
  - apply Z.ltb_ge in E. split; [lia |]. split; [lia |].
    apply Z.ltb_ge in E. rewrite E. reflexivity.
Qed.

Lemma shrink_child_clear (top : Z) (i : nat) (c : Child) :
  modest top -> modest_child c ->
  clear_of top (fst (shrink_child top i c))
  /\ modest_child (fst (shrink_child top i c)).
Proof.
  intros Ht Hc. destruct c as [| w]; [cbn; auto |].
  destruct w as [[x y wd h] g]. cbn [modest_child wd_rect y_ h_] in Hc.
  destruct Hc as [Hy Hh].
  rewrite (shrink_child_value top i x y wd h g Ht Hy Hh).
  destruct (shrunk_height top y h Ht Hy Hh) as (Hm & Hclear & _).
  cbn [clear_of modest_child wd_rect y_ h_]. unfold rect_b. cbn [y_ h_].
  split; [| auto].
  destruct Hclear as [Hle | H0]; [left | right; exact H0].
  unfold modest in *. nowrap. exact Hle.
Qed.

Lemma shrink_child_again (top : Z) (i j : nat) (c : Child) :
  modest top -> modest_child c ->
  fst (shrink_child top j (fst (shrink_child top i c))) =
  fst (shrink_child top i c).
Proof.
  intros Ht Hc. destruct c as [| w]; [reflexivity |].
  destruct w as [[x y wd h] g]. cbn [modest_child wd_rect y_ h_] in Hc.
  destruct Hc as [Hy Hh].
  rewrite (shrink_child_value top i x y wd h g Ht Hy Hh).
  destruct (shrunk_height top y h Ht Hy Hh) as (Hm & _ & Hfix).
  rewrite (shrink_child_value top j x y wd _ g Ht Hy Hm).
  rewrite Hfix. reflexivity.
Qed.

Lemma shrink_children_Forall (P Q : Child -> Prop) (top : Z) :
  (forall i c, P c -> Q (fst (shrink_child top i c))) ->
  forall cs i, Forall P cs -> Forall Q (fst (shrink_children top i cs)).
Proof.
  intros HPQ. induction cs as [| c cs IH]; intros i Hcs.
  - constructor.
  - inversion Hcs as [| ? ? Hc Hrest]; subst.
    cbn [shrink_children].
    pose proof (HPQ i c Hc) as Hq.
    destruct (shrink_child top i c) as [c' ev].
    specialize (IH (S i) Hrest).
    destruct (shrink_children top (S i) cs) as [cs' evs].
    constructor; assumption.
Qed.

Lemma shrink_children_again (top : Z) :
  modest top ->
  forall cs i j,
    Forall modest_child cs ->
    fst (shrink_children top j (fst (shrink_children top i cs))) =
    fst (shrink_children top i cs).
Proof.
  intros Ht. induction cs as [| c cs IH]; intros i j Hcs; [reflexivity |].
  inversion Hcs as [| ? ? Hc Hrest]; subst.
  cbn [shrink_children].
  pose proof (shrink_child_again top i j c Ht Hc) as E1.
  destruct (shrink_child top i c) as [c' ev].
  specialize (IH (S i) (S j) Hrest).
  destruct (shrink_children top (S i) cs) as [cs' evs].
  cbn [fst shrink_children] in *.
  destruct (shrink_child top j c') as [c'' ev'].
  destruct (shrink_children top (S j) cs') as [cs'' evs'].
  cbn [fst] in *. congruence.
Qed.

End Siblings.

(** X8.  After [layout()], whatever [Group::layout()] did before, no sibling
    reaches below the top of the bar: every other child of the parent has its
    bottom edge at or above the bar's top edge, or has no height left.
    This is for siblings whose y and height, and a bar whose new top edge,
    lie between [-2^29] and [2^29]; beyond that the [int] differences of the
    loop can wrap. *)
Theorem layout_clears_the_bar `{LabelMetrics}
  (group_layout : Tree -> Tree * list Event) (t : Tree) (p : Group) :
  parent (fst (group_layout t)) = Some p ->
  Forall modest_child (g_children p) ->
  let t' := fst (layout group_layout t) in
  modest (y_ (rect (bar t'))) ->
  exists p',
    parent t' = Some p'
    /\ List.length (g_children p') = List.length (g_children p)
    /\ Forall (clear_of (y_ (rect (bar t')))) (g_children p').
Proof.
  intros Hp Hcs t' Htop.
  assert (Et : t' = fst (StatusBarGroupM.resize_from_parent (fst (group_layout t)))).
  { unfold t', layout. destruct (group_layout t) as [t1 ev1]. cbn [fst].
    destruct (StatusBarGroupM.resize_from_parent t1). reflexivity. }
  pose proof (resize_from_parent_children (fst (group_layout t)) p Hp) as Hp'.
  rewrite <- Et in Hp'.
  eexists. split; [exact Hp' |]. cbn [g_children]. split.
  - clear. generalize 0%nat. generalize (y_ (rect (bar t'))).
    induction (g_children p) as [| c cs IH]; intros top i; [reflexivity |].
    cbn [StatusBarGroupM.shrink_children].
    destruct (StatusBarGroupM.shrink_child top i c).
    specialize (IH top (S i)).
    destruct (StatusBarGroupM.shrink_children top (S i) cs).
    cbn [fst List.length] in *. congruence.
  - apply shrink_children_Forall with (P := modest_child); [| exact Hcs].
    intros i c Hc. apply shrink_child_clear; assumption.
Qed.

Lemma layout_clears_the_bar_witness :
  exists p',
    parent (fst (layout (H := example_metrics) (fun t => (t, []))
                   (mkTree new_bar (Some flat_parent)))) = Some p'
    /\ List.length (g_children p') = 3%nat
    /\ Forall (clear_of 176) (g_children p').
Proof.
  apply (layout_clears_the_bar (H := example_metrics) (fun t => (t, []))
           (mkTree new_bar (Some flat_parent)) flat_parent).
  - reflexivity.
  - unfold flat_parent. cbn [g_children].
    repeat (apply Forall_cons || apply Forall_nil);
      unfold modest_child, modest; cbn [wd_rect y_ h_]; try exact I; lia.
  - vm_compute. split; discriminate.
Defined.

(** X9.  [resize_from_parent()] settles in one pass: run again on its own
    result it leaves the bar's rectangle and every child of the parent as
    they are.  This is for siblings whose y and height, and a bar whose new
    top edge, lie between [-2^29] and [2^29]. *)
Theorem resize_from_parent_settles `{LabelMetrics} (t : Tree) (p : Group) :
  parent t = Some p ->
  Forall modest_child (g_children p) ->
  let t' := fst (StatusBarGroupM.resize_from_parent t) in
  modest (y_ (rect (bar t'))) ->
  let t'' := fst (StatusBarGroupM.resize_from_parent t') in
  rect (bar t'') = rect (bar t') /\ parent t'' = parent t'.
Proof.
  intros Hp Hcs t' Htop t''.
  pose proof (resize_from_parent_children t p Hp) as Hp'. fold t' in Hp'.
  pose proof (resize_from_parent_rect t p Hp) as Hr. fold t' in Hr.
  pose proof (resize_from_parent_rect t' _ Hp') as Hr'. fold t'' in Hr'.
  pose proof (resize_from_parent_children t' _ Hp') as Hp''. fold t'' in Hp''.
  cbn [g_w g_h g_box g_children] in Hr', Hp''.
  assert (Er : rect (bar t'') = rect (bar t')).
  { rewrite Hr', Hr. cbn [h_]. reflexivity. }
  split; [exact Er |].
  rewrite Hp'', Hp', Er. do 2 f_equal.
  apply shrink_children_again; assumption.
Qed.

Lemma resize_from_parent_settles_witness :
  parent (fst (StatusBarGroupM.resize_from_parent (H := example_metrics)
                 (fst (StatusBarGroupM.resize_from_parent (H := example_metrics)
                         (mkTree new_bar (Some flat_parent)))))) =
  parent (fst (StatusBarGroupM.resize_from_parent (H := example_metrics)
                 (mkTree new_bar (Some flat_parent)))).
Proof.
  refine (proj2 (resize_from_parent_settles (H := example_metrics)
                   (mkTree new_bar (Some flat_parent)) flat_parent _ _ _)).
  - reflexivity.
  - unfold flat_parent. cbn [g_children].
    repeat (apply Forall_cons || apply Forall_nil);
      unfold modest_child, modest; cbn [wd_rect y_ h_]; try exact I; lia.
  - vm_compute. split; discriminate.
Defined.

Section SlotStyles.

Import StatusBarGroupM.
Context `{Platform} `{LabelMetrics}.

Lemma get_put_other {A : Type} (pos q : Position) (v : A) (a : Slots A) :
  q <> pos -> get q (put pos v a) = get q a.
Proof. destruct pos, q; intros Hne; try reflexivity; congruence. Qed.

Lemma position_eq_dec (p q : Position) : {p = q} + {p <> q}.
Proof. decide equality. Qed.

Lemma update_box_keeps (g : StatusBarGroup) (b : option InvisibleBox)
  (pos : Position) (ib : InvisibleBox) :
  update_box g b pos = Some ib ->
  exists b0,
    b = Some b0 /\ ib_box ib = ib_box b0 /\ ib_label ib = ib_label b0
    /\ ib_align ib = ib_align b0 /\ y_ (ib_rect ib) = y_ (ib_rect b0)
    /\ h_ (ib_rect ib) = h_ (rect g) -i (box_dh (box g) +i BORDER_WIDTH) *i 2.
Proof.
  unfold update_box. destruct b as [b0 |]; [| discriminate].
  destruct (measure_label b0) as [X Y]. intros E. injection E as <-.
  exists b0. cbn. auto 6.
Qed.

Lemma styled_put (g : StatusBarGroup) (pos : Position) (v : option InvisibleBox) :
  styled g ->
  (forall ib, v = Some ib -> ib_box ib = get pos (b_ g)) ->
  styled (with_tf (put pos v (tf_ g)) g).
Proof.
  intros Hg Hv q ib. unfold with_tf. cbn [tf_ b_].
  destruct (position_eq_dec q pos) as [-> | Hne].
  - rewrite get_put_same. apply Hv.
  - rewrite get_put_other by exact Hne. apply Hg.
Qed.

Lemma styled_update (g : StatusBarGroup) (pos : Position) :
  styled g ->
  styled (with_tf (put pos (update_box g (get pos (tf_ g)) pos) (tf_ g)) g).
Proof.
  intros Hg. apply styled_put; [exact Hg |].
  intros ib E. destruct (update_box_keeps g _ pos ib E) as (b0 & E0 & Hb & _).
  rewrite Hb. apply Hg. exact E0.
Qed.

Lemma styled_with_rect (r : Rectangle) (g : StatusBarGroup) :
  styled g -> styled (with_rect r g).
Proof. intros Hg. exact Hg. Qed.

Lemma styled_update_boxes (g : StatusBarGroup) :
  styled g -> styled (update_boxes g).
Proof.
  intros Hg. unfold update_boxes.
  repeat (apply styled_update). exact Hg.
Qed.

Lemma styled_child_box (b : Box) (i : Position) (g : StatusBarGroup) :
  styled g -> styled (child_box b i g).
Proof.
  intros Hg q ib. unfold child_box. cbn [tf_ b_].
  destruct (get i (tf_ g)) as [b0 |] eqn:Ei; unfold with_tf; cbn [tf_ b_];
    destruct (position_eq_dec q i) as [-> | Hne];
    rewrite ?get_put_same, ?get_put_other by exact Hne.
  - intros E. injection E as <-. reflexivity.
  - apply Hg.
  - rewrite Ei. discriminate.
  - apply Hg.
Qed.

(** [set] with a text: the box it leaves in the slot, before [update_box]. *)
Lemma set_text_box (t : option string) (pos : Position) (g : StatusBarGroup) :
  no_text t = false ->
  let b :=
    match get pos (tf_ g) with
    | Some b0 => mkInvisibleBox (ib_box b0) (ib_rect b0) t (ib_align b0)
    | None =>
      mkInvisibleBox (get pos (b_ g))
        (mkRect (box_dx (box g)) (box_dh (box g) +i BORDER_WIDTH) 10 10)
        t (Z.lor ALIGN_LEFT ALIGN_INSIDE)
    end in
  set t pos g =
  (with_tf (put pos (update_box g (Some b) pos) (tf_ g)) g,
   match get pos (tf_ g) with
   | Some _ => []
   | None => [ev_current_0; ev_add pos]
   end ++ [ev_redraw]).
Proof.
  intros Ht. unfold set. rewrite Ht.
  destruct (get pos (tf_ g)) as [b0 |]; cbv zeta; f_equal;
    rewrite update_box_with_tf; unfold with_tf; cbn [tf_ rect box b_];
    rewrite get_put_same, put_put; reflexivity.
Qed.

End SlotStyles.

(** X10.  Every operation of the status bar keeps each allocated slot box on
    the box style recorded for its slot in [b_]: [init()] starts from such a
    state, and [set] (empty or not, plain or formatted), both [child_box]
    overloads and [resize_from_parent()] preserve it. *)
Theorem slot_styles_kept `{Platform} `{LabelMetrics} (g : StatusBarGroup) :
  styled g ->
  (forall t pos, styled (fst (StatusBarGroupM.set t pos g)))
  /\ (forall pos format args g' ev,
       StatusBarGroupM.set_format pos format args g = Some (g', ev) -> styled g')
  /\ (forall b i, styled (child_box b i g))
  /\ (forall b, styled (child_box_all b g))
  /\ (forall p, styled (bar (fst (StatusBarGroupM.resize_from_parent (mkTree g p)))))
  /\ (forall t, styled (bar (fst (StatusBarGroupM.init t)))).
Proof.
  intros Hg.
  assert (Hset : forall t pos, styled (fst (StatusBarGroupM.set t pos g))).
  { intros t pos. destruct (StatusBarGroupM.no_text t) eqn:Et.
    - rewrite (set_no_text t pos g Et).
      destruct (get pos (tf_ g)); [| exact Hg].
      cbn [fst]. apply styled_put; [exact Hg | discriminate].
    - rewrite (set_text_box t pos g Et). cbn [fst].
      apply styled_put; [exact Hg |].
      intros ib Eib.
      destruct (update_box_keeps g _ pos ib Eib) as (b0 & E0 & Hb & _).
      injection E0 as <-. rewrite Hb.
      destruct (get pos (tf_ g)) as [b1 |] eqn:E1; cbn [ib_box];
        [apply Hg; exact E1 | reflexivity]. }
  split; [exact Hset |]. split; [| split; [| split; [| split]]].
  - intros pos format args g' ev. unfold StatusBarGroupM.set_format.
    destruct (StatusBarGroupM.vsprintf format args) as [buffer |]; [| discriminate].
    destruct (String.length buffer <? StatusBarGroupM.buffer_size)%nat;
      [| discriminate].
    intros E. injection E as E. rewrite (surjective_pairing _) in E.
    injection E as <- _. apply Hset.
  - intros b i. apply styled_child_box. exact Hg.
  - intros b. unfold child_box_all. repeat apply styled_child_box. exact Hg.
  - intros p. unfold StatusBarGroupM.resize_from_parent. cbn [parent bar].
    destruct p as [p |]; [| exact Hg].
    destruct (StatusBarGroupM.shrink_children _ 0 (g_children p)).
    cbn [fst bar]. apply styled_update_boxes. exact Hg.
  - intros t. unfold StatusBarGroupM.init, StatusBarGroupM.resize_from_parent.
    cbn [parent bar].
    assert (Hnew : styled (mkStatusBarGroup (rect (bar t)) THIN_DOWN_BOX
                             (mkSlots None None None)
                             (mkSlots FLAT_BOX FLAT_BOX FLAT_BOX))).
    { intros q ib. destruct q; discriminate. }
    destruct (parent t) as [p |]; [| exact Hnew].
    destruct (StatusBarGroupM.shrink_children _ 0 (g_children p)).
    cbn [fst bar]. apply styled_update_boxes. exact Hnew.
Qed.

Lemma slot_styles_kept_witness :
  styled (fst (StatusBarGroupM.set (H := example_platform) (H0 := example_metrics)
                 (Some "Hi") SBAR_RIGHT (child_box THIN_UP_BOX SBAR_RIGHT occupied_bar))).
Proof.
  assert (Hocc : styled occupied_bar).
  { intros q ib. destruct q; cbn; intros E; try discriminate E.
    injection E as <-. reflexivity. }
  assert (H1 : styled (child_box THIN_UP_BOX SBAR_RIGHT occupied_bar)).
  { exact (proj1 (proj2 (proj2
      (slot_styles_kept (H := example_platform) (H0 := example_metrics)
         occupied_bar Hocc))) THIN_UP_BOX SBAR_RIGHT). }
  exact (proj1 (slot_styles_kept (H := example_platform) (H0 := example_metrics)
                  _ H1) (Some "Hi") SBAR_RIGHT).
Defined.

Lemma wrap_sub_r (a b : Z) : I32.wrap (a - I32.wrap b) = I32.wrap (a - b).
Proof.
  unfold I32.wrap at 2.
  rewrite (Z.mod_eq (b + 2 ^ 31) (2 ^ 32)) by lia.
  replace (a - (b + 2 ^ 31 - 2 ^ 32 * ((b + 2 ^ 31) / 2 ^ 32) - 2 ^ 31))
    with (a - b + ((b + 2 ^ 31) / 2 ^ 32) * 2 ^ 32) by lia.
  unfold I32.wrap. f_equal.
  replace (a - b + (b + 2 ^ 31) / 2 ^ 32 * 2 ^ 32 + 2 ^ 31)
    with (a - b + 2 ^ 31 + (b + 2 ^ 31) / 2 ^ 32 * 2 ^ 32) by lia.
  apply Z_mod_plus_full.
Qed.

(** X11.  [set] touches one slot only: the bar's rectangle, box and slot
    styles and the two other slots are as before, whatever the text.  With a
    non-empty text it allocates (clearing the current group and adding the
    child) exactly when the slot held no box, always asks for one redraw,
    and on an occupied slot it re-uses the box: same box style, alignment
    and y, new label. *)
Theorem set_touches_one_slot `{Platform} `{LabelMetrics} (t : option string)
  (pos : Position) (g : StatusBarGroup) :
  let g' := fst (StatusBarGroupM.set t pos g) in
  rect g' = rect g /\ box g' = box g /\ b_ g' = b_ g
  /\ (forall q, q <> pos -> get q (tf_ g') = get q (tf_ g))
  /\ (StatusBarGroupM.no_text t = false ->
      snd (StatusBarGroupM.set t pos g) =
      match get pos (tf_ g) with
      | Some _ => []
      | None => [ev_current_0; ev_add pos]
      end ++ [ev_redraw]
      /\ exists b',
           get pos (tf_ g') = Some b'
           /\ ib_label b' = t
           /\ forall b0, get pos (tf_ g) = Some b0 ->
                         ib_box b' = ib_box b0
                         /\ ib_align b' = ib_align b0
                         /\ y_ (ib_rect b') = y_ (ib_rect b0)).
Proof.
  intros g'. unfold g'.
  destruct (StatusBarGroupM.no_text t) eqn:Et.
  - rewrite (set_no_text t pos g Et).
    destruct (get pos (tf_ g)); cbn [fst]; unfold StatusBarGroupM.with_tf;
      cbn [rect box b_ tf_]; repeat split; try discriminate;
      intros q Hq; apply get_put_other; exact Hq.
  - rewrite (set_text_box t pos g Et). cbn [fst snd].
    unfold StatusBarGroupM.with_tf. cbn [rect box b_ tf_].
    repeat split.
    + intros q Hq. apply get_put_other. exact Hq.
    + rewrite get_put_same.
      match goal with
      | |- context [StatusBarGroupM.update_box g (Some ?b) pos] =>
        destruct (update_box_geometry g b pos) as (b' & Eb' & Hl & _);
        destruct (update_box_keeps g (Some b) pos b' Eb')
          as (b1 & E1 & Hbox & _ & Hal & Hy & _)
      end.
      injection E1 as <-.
      exists b'. split; [exact Eb' |]. split.
      * rewrite Hl. destruct (get pos (tf_ g)); reflexivity.
      * intros b0 E0. rewrite E0 in *. cbn in *. auto.
Qed.

Lemma set_touches_one_slot_witness :
  snd (StatusBarGroupM.set (H := example_platform) (H0 := example_metrics)
         (Some "Hi") SBAR_RIGHT occupied_bar) = [] ++ [ev_redraw].
Proof.
  exact (proj1 (proj2 (proj2 (proj2 (proj2
    (set_touches_one_slot (H := example_platform) (H0 := example_metrics)
       (Some "Hi") SBAR_RIGHT occupied_bar)))) eq_refl)).
Defined.

(** X12.  After [child_box(b, i)] the slot [i] is recorded with [b], a box
    already shown there is drawn with [b] and keeps its label, rectangle and
    alignment, and the other slots are as before; a text set at [i]
    afterwards is shown in a box drawn with [b] and padded for [b]:
    its width is the measured width plus [(dw(b)+1)*2]. *)
Theorem child_box_then_set `{Platform} `{LabelMetrics} (b : Box) (i : Position)
  (g : StatusBarGroup) :
  get i (b_ (child_box b i g)) = b
  /\ rect (child_box b i g) = rect g
  /\ box (child_box b i g) = box g
  /\ (forall q, q <> i ->
       get q (b_ (child_box b i g)) = get q (b_ g)
       /\ get q (tf_ (child_box b i g)) = get q (tf_ g))
  /\ (forall b0, get i (tf_ g) = Some b0 ->
       get i (tf_ (child_box b i g)) =
       Some (mkInvisibleBox b (ib_rect b0) (ib_label b0) (ib_align b0)))
  /\ (get i (tf_ g) = None -> get i (tf_ (child_box b i g)) = None)
  /\ (forall t, StatusBarGroupM.no_text t = false ->
       exists ib,
         get i (tf_ (fst (StatusBarGroupM.set t i (child_box b i g)))) = Some ib
         /\ ib_box ib = b
         /\ ib_label ib = t
         /\ exists b1,
              ib_box b1 = b /\ ib_label b1 = t
              /\ w_ (ib_rect ib) =
                 fst (measure_label b1) +i (box_dw b +i 1) *i 2).
Proof.
  assert (Hb : get i (b_ (child_box b i g)) = b).
  { unfold child_box. destruct (get i (tf_ _)); unfold StatusBarGroupM.with_tf;
      cbn [b_]; apply get_put_same. }
  assert (Htf : forall b0, get i (tf_ g) = Some b0 ->
                get i (tf_ (child_box b i g)) =
                Some (mkInvisibleBox b (ib_rect b0) (ib_label b0) (ib_align b0))).
  { intros b0 E0. unfold child_box. cbn [tf_]. rewrite E0.
    unfold StatusBarGroupM.with_tf. cbn [tf_]. apply get_put_same. }
  assert (Hnone : get i (tf_ g) = None -> get i (tf_ (child_box b i g)) = None).
  { intros E0. unfold child_box. cbn [tf_]. rewrite E0. cbn [tf_]. exact E0. }
  split; [exact Hb |]. split; [| split; [| split; [| split; [| split]]]].
  - unfold child_box. destruct (get i (tf_ _)); reflexivity.
  - unfold child_box. destruct (get i (tf_ _)); reflexivity.
  - intros q Hq. unfold child_box. cbn [tf_].
    destruct (get i (tf_ g)); unfold StatusBarGroupM.with_tf; cbn [b_ tf_];
      rewrite ?get_put_other by exact Hq; auto.
  - exact Htf.
  - exact Hnone.
  - intros t Ht.
    rewrite (set_text_box t i (child_box b i g) Ht). cbn [fst].
    unfold StatusBarGroupM.with_tf. cbn [tf_]. rewrite get_put_same.
    match goal with
    | |- context [StatusBarGroupM.update_box _ (Some ?bb) i] => set (b1 := bb)
    end.
    assert (Hb1 : ib_box b1 = b /\ ib_label b1 = t).
    { unfold b1. destruct (get i (tf_ g)) as [b0 |] eqn:E0.
      - rewrite (Htf b0 eq_refl). split; reflexivity.
      - rewrite (Hnone eq_refl). split; [exact Hb | reflexivity]. }
    destruct (update_box_geometry (child_box b i g) b1 i)
      as (ib & Eib & Hl & Hw & _).
    destruct (update_box_keeps (child_box b i g) (Some b1) i ib Eib)
      as (b2 & E2 & Hbox & _).
    injection E2 as <-.
    exists ib. split; [exact Eib |].
    split; [rewrite Hbox; apply Hb1 |].
    split; [rewrite Hl; apply Hb1 |].
    exists b1. split; [apply Hb1 |]. split; [apply Hb1 |].
    rewrite Hw, Hb. reflexivity.
Qed.

Lemma child_box_then_set_witness :
  exists ib,
    get SBAR_LEFT
      (tf_ (fst (StatusBarGroupM.set (H := example_platform) (H0 := example_metrics)
                   (Some "Hi") SBAR_LEFT
                   (child_box THIN_UP_BOX SBAR_LEFT placed_bar)))) = Some ib
    /\ ib_box ib = THIN_UP_BOX
    /\ ib_label ib = Some "Hi"
    /\ exists b1,
         ib_box b1 = THIN_UP_BOX /\ ib_label b1 = Some "Hi"
         /\ w_ (ib_rect ib) =
            fst (measure_label (LabelMetrics := example_metrics) b1)
            +i (box_dw THIN_UP_BOX +i 1) *i 2.
Proof.
  exact (proj2 (proj2 (proj2 (proj2 (proj2 (proj2
    (child_box_then_set (H := example_platform) (H0 := example_metrics)
       THIN_UP_BOX SBAR_LEFT placed_bar)))))) (Some "Hi") eq_refl).
Defined.

(** X13.  A slot box created by [set] is centred vertically in the bar, with
    [box_dh(box()) + BORDER_WIDTH] above and as much below (bottom edge plus
    that margin is the bar's height); the left slot starts at the [dx] of the
    bar's box, and the right slot ends [dw + BORDER_WIDTH] before the bar's
    right edge [r()]. *)
Theorem new_slot_margins `{Platform} `{LabelMetrics} (t : option string)
  (pos : Position) (g : StatusBarGroup) :
  StatusBarGroupM.no_text t = false ->
  get pos (tf_ g) = None ->
  exists b',
    get pos (tf_ (fst (StatusBarGroupM.set t pos g))) = Some b'
    /\ y_ (ib_rect b') = box_dh (box g) +i StatusBarGroupM.BORDER_WIDTH
    /\ rect_b (ib_rect b') +i (box_dh (box g) +i StatusBarGroupM.BORDER_WIDTH) =
       I32.wrap (h_ (rect g))
    /\ (pos = SBAR_LEFT -> x_ (ib_rect b') = box_dx (box g))
    /\ (pos = SBAR_RIGHT ->
        rect_r (ib_rect b') =
        rect_r (rect g) -i box_dw (box g) -i StatusBarGroupM.BORDER_WIDTH).
Proof.
  intros Ht Hempty.
  rewrite (set_text_box t pos g Ht). cbn [fst]. rewrite Hempty.
  unfold StatusBarGroupM.with_tf. cbn [tf_]. rewrite get_put_same.
  match goal with
  | |- context [StatusBarGroupM.update_box g (Some ?bb) pos] => set (b1 := bb)
  end.
  destruct (update_box_geometry g b1 pos) as (b' & Eb' & _ & _ & Hx).
  destruct (update_box_keeps g (Some b1) pos b' Eb')
    as (b2 & E2 & _ & _ & _ & Hy & Hh).
  injection E2 as <-.
  exists b'. split; [exact Eb' |].
  assert (Ey : y_ (ib_rect b') = box_dh (box g) +i StatusBarGroupM.BORDER_WIDTH)
    by (rewrite Hy; reflexivity).
  split; [exact Ey |]. split; [| split].
  - unfold rect_b. rewrite Ey, Hh.
    set (m := box_dh (box g) +i StatusBarGroupM.BORDER_WIDTH).
    unfold I32.add, I32.sub, I32.mul.
    rewrite wrap_add_l.
    replace (m + I32.wrap (h_ (rect g) - I32.wrap (m * 2)) + m)
      with (m + m + I32.wrap (h_ (rect g) - I32.wrap (m * 2))) by lia.
    rewrite wrap_add_r.
    replace (m + m + (h_ (rect g) - I32.wrap (m * 2)))
      with (m + m + h_ (rect g) - I32.wrap (m * 2)) by lia.
    rewrite wrap_sub_r. f_equal. lia.
  - intros ->. exact Hx.
  - intros ->. unfold rect_r at 1. rewrite Hx.
    set (w := w_ (ib_rect b')). set (r := rect_r (rect g)).
    set (d := box_dw (box g)). set (bw := StatusBarGroupM.BORDER_WIDTH).
    unfold I32.add, I32.sub.
    rewrite wrap_add_l.
    replace (I32.wrap (I32.wrap (r - w) - d) - bw + w)
      with (I32.wrap (I32.wrap (r - w) - d) + (w - bw)) by lia.
    rewrite wrap_add_l.
    replace (I32.wrap (r - w) - d + (w - bw))
      with (I32.wrap (r - w) + (w - bw - d)) by lia.
    rewrite wrap_add_l, wrap_sub_l. f_equal. lia.
Qed.

Lemma new_slot_margins_witness :
  exists b',
    get SBAR_RIGHT
      (tf_ (fst (StatusBarGroupM.set (H := example_platform) (H0 := example_metrics)
                   (Some "Hello") SBAR_RIGHT placed_bar))) = Some b'
    /\ y_ (ib_rect b') = 4
    /\ rect_b (ib_rect b') +i 4 = 24
    /\ (SBAR_RIGHT = SBAR_LEFT -> x_ (ib_rect b') = 1)
    /\ (SBAR_RIGHT = SBAR_RIGHT -> rect_r (ib_rect b') = 296).
Proof.
  exact (new_slot_margins (H := example_platform) (H0 := example_metrics)
           (Some "Hello") SBAR_RIGHT placed_bar eq_refl eq_refl).
Defined.

(* ================================================================== *)
(** * Properties of the UTF-8 functions *)

Section Bytes.

Lemma char_code_range (b : ascii) : 0 <= char_code b < 256.
Proof. destruct b as [[] [] [] [] [] [] [] []]; vm_compute; split; congruence. Qed.

Lemma char_code_to_char (z : Z) : 0 <= z < 256 -> char_code (to_char z) = z.
Proof.
  intros Hz. unfold char_code, to_char.
  rewrite Z.mod_small by exact Hz.
  rewrite N_ascii_embedding.
  - apply Z2N.id. lia.
  - apply N2Z.inj_lt. rewrite Z2N.id by lia. apply Hz.
Qed.

Lemma to_char_code (b : ascii) : to_char (char_code b) = b.
Proof. destruct b as [[] [] [] [] [] [] [] []]; reflexivity. Qed.

(** A property of the values a byte can take, checked byte by byte. *)
Lemma byte_cases (P : Z -> Prop) :
  (forall b : ascii, P (char_code b)) -> forall z, 0 <= z < 256 -> P z.
Proof.
  intros HP z Hz. rewrite <- (char_code_to_char z Hz). apply HP.
Qed.

(** The masks of the decoder on a byte of each class. *)
Lemma continuation_bits (z : Z) :
  0 <= z < 256 ->
  ((Z.land z 0xc0 =? 0x80) = true <-> 0x80 <= z < 0xc0)
  /\ (0x80 <= z < 0xc0 -> Z.land z 0x3f = z - 0x80).
Proof.
  revert z. apply byte_cases.
  intros b. destruct b as [[] [] [] [] [] [] [] []]; vm_compute;
    (split; [split; [intros E; try discriminate E; split; congruence
                    | intros [A B]; try reflexivity;
                      exfalso; (apply A; reflexivity) || discriminate B]
            | intros [A B]; try reflexivity;
              exfalso; (apply A; reflexivity) || discriminate B]).
Qed.

Lemma lead_bits (z : Z) :
  0 <= z < 256 ->
  (0xc0 <= z < 0xe0 -> Z.land z 0x1f = z - 0xc0)
  /\ (0xe0 <= z < 0xf0 -> Z.land z 0x0f = z - 0xe0)
  /\ (0xf0 <= z < 0xf8 -> Z.land z 0x07 = z - 0xf0).
Proof.
  revert z. apply byte_cases.
  intros b. destruct b as [[] [] [] [] [] [] [] []]; vm_compute;
    (repeat split; intros [A B]; try reflexivity;
     exfalso; (apply A; reflexivity) || discriminate B).
Qed.

(** The bytes the encoder builds with [|]. *)
Lemma lor_bits (z : Z) :
  0 <= z < 256 ->
  (z < 0x40 -> Z.lor 0x80 z = 0x80 + z)
  /\ (z < 0x20 -> Z.lor 0xc0 z = 0xc0 + z)
  /\ (z < 0x10 -> Z.lor 0xe0 z = 0xe0 + z)
  /\ (z < 0x08 -> Z.lor 0xf0 z = 0xf0 + z).
Proof.
  revert z. apply byte_cases.
  intros b. destruct b as [[] [] [] [] [] [] [] []]; vm_compute;
    (repeat split; intros A; try reflexivity; discriminate A).
Qed.

End Bytes.

(** Settles the comparisons that the hypotheses decide. *)
Ltac cmp :=
  repeat match goal with
         | |- context [?a <? ?b] =>
           first [ rewrite (proj2 (Z.ltb_lt a b)) by lia
                 | rewrite (proj2 (Z.ltb_ge a b)) by lia ]
         | |- context [?a =? ?b] =>
           first [ rewrite (proj2 (Z.eqb_eq a b)) by lia
                 | rewrite (proj2 (Z.eqb_neq a b)) by lia ]
         end.

Section Utf8Decode.

Import Utf8.

Lemma continuation_to_char (z : Z) :
  0x80 <= z < 0xc0 ->
  not_continuation (to_char z) = false
  /\ Z.land (char_code (to_char z)) 0x3f = z - 0x80
  /\ char_code (to_char z) = z.
Proof.
  intros Hz. assert (Hb : 0 <= z < 256) by lia.
  destruct (continuation_bits z Hb) as [Hc Hm].
  unfold not_continuation. rewrite (char_code_to_char z Hb).
  rewrite (proj2 Hc Hz), (Hm Hz). auto.
Qed.

Lemma decode1 (c : Z) (rest : string) :
  0 <= c < 0x80 ->
  utf8decode (String (to_char c) rest) = Some (c, 1).
Proof.
  intros Hc. unfold utf8decode. rewrite char_code_to_char by lia. cmp.
  reflexivity.
Qed.

Lemma decode2 (c c1 : Z) (rest : string) :
  0xc2 <= c < 0xe0 -> 0x80 <= c1 < 0xc0 ->
  utf8decode (String (to_char c) (String (to_char c1) rest)) =
  Some ((c - 0xc0) * 64 + (c1 - 0x80), 2).
Proof.
  intros Hc H1. unfold utf8decode.
  destruct (continuation_to_char c1 H1) as (N1 & M1 & _).
  rewrite (char_code_to_char c) by lia. rewrite N1, M1. cmp.
  destruct (lead_bits c ltac:(lia)) as (L & _). rewrite L by lia.
  rewrite Z.shiftl_mul_pow2 by lia. reflexivity.
Qed.

Lemma decode3 (c c1 c2 : Z) (rest : string) :
  0xe0 <= c < 0xf0 -> 0x80 <= c1 < 0xc0 -> 0x80 <= c2 < 0xc0 ->
  (c = 0xe0 -> 0xa0 <= c1) ->
  utf8decode (String (to_char c) (String (to_char c1) (String (to_char c2) rest))) =
  Some ((c - 0xe0) * 4096 + (c1 - 0x80) * 64 + (c2 - 0x80), 3).
Proof.
  intros Hc H1 H2 Hlong. unfold utf8decode.
  destruct (continuation_to_char c1 H1) as (N1 & M1 & C1).
  destruct (continuation_to_char c2 H2) as (N2 & M2 & _).
  rewrite (char_code_to_char c) by lia. rewrite N1, M1, N2, M2, C1.
  destruct (lead_bits c ltac:(lia)) as (_ & L & _). rewrite L by lia.
  rewrite !Z.shiftl_mul_pow2 by lia.
  destruct (Z.eq_dec c 0xe0) as [E | E].
  - specialize (Hlong E). subst c. cmp. reflexivity.
  - cmp. reflexivity.
Qed.

Lemma decode4 (c c1 c2 c3 : Z) (rest : string) :
  0xf0 <= c <= 0xf4 ->
  0x80 <= c1 < 0xc0 -> 0x80 <= c2 < 0xc0 -> 0x80 <= c3 < 0xc0 ->
  (c = 0xf0 -> 0x90 <= c1) ->
  (c = 0xf4 -> c1 <= 0x8f) ->
  utf8decode (String (to_char c) (String (to_char c1) (String (to_char c2)
               (String (to_char c3) rest)))) =
  Some ((c - 0xf0) * 262144 + (c1 - 0x80) * 4096 + (c2 - 0x80) * 64
        + (c3 - 0x80), 4).
Proof.
  intros Hc H1 H2 H3 Hlong Hmax. unfold utf8decode.
  destruct (continuation_to_char c1 H1) as (N1 & M1 & C1).
  destruct (continuation_to_char c2 H2) as (N2 & M2 & _).
  destruct (continuation_to_char c3 H3) as (N3 & M3 & _).
  rewrite (char_code_to_char c) by lia.
  rewrite N1, M1, N2, M2, N3, M3, C1. cbn [orb].
  destruct (lead_bits c ltac:(lia)) as (_ & _ & L). rewrite L by lia.
  rewrite !Z.shiftl_mul_pow2 by lia.
  destruct (Z.eq_dec c 0xf0) as [E | E];
    [| destruct (Z.eq_dec c 0xf4) as [E4 | E4]].
  - specialize (Hlong E). subst c. cmp. reflexivity.
  - specialize (Hmax E4). subst c. cmp. reflexivity.
  - cmp. reflexivity.
Qed.

End Utf8Decode.

Section Utf8Encode.

Import Utf8.

Lemma low6 (z : Z) : Z.land z 0x3F = z mod 64.
Proof. change 0x3F with (Z.ones 6). apply Z.land_ones. lia. Qed.

Lemma shr (z n : Z) : 0 <= n -> Z.shiftr z n = z / 2 ^ n.
Proof. intros Hn. apply Z.shiftr_div_pow2. exact Hn. Qed.

Lemma encode1 (ucs : Z) :
  0 <= ucs < 0x80 ->
  utf8encode ucs = (1, String (to_char ucs) EmptyString).
Proof. intros Hu. unfold utf8encode. cmp. reflexivity. Qed.

Lemma encode2 (ucs : Z) :
  0x80 <= ucs < 0x800 ->
  utf8encode ucs =
  (2, String (to_char (0xc0 + ucs / 64))
        (String (to_char (0x80 + ucs mod 64)) EmptyString)).
Proof.
  intros Hu. unfold utf8encode. cmp.
  rewrite low6, shr by lia. change (2 ^ 6) with 64.
  assert (Hq : 0 <= ucs / 64 < 0x20)
    by (split; [apply Z.div_pos | apply Z.div_lt_upper_bound]; lia).
  assert (Hr : 0 <= ucs mod 64 < 64) by (apply Z.mod_pos_bound; lia).
  destruct (lor_bits (ucs / 64) ltac:(lia)) as (_ & L & _).
  destruct (lor_bits (ucs mod 64) ltac:(lia)) as (L0 & _).
  rewrite L, L0 by lia. reflexivity.
Qed.

Lemma encode3 (ucs : Z) :
  0x800 <= ucs < 0x10000 ->
  utf8encode ucs =
  (3, String (to_char (0xe0 + ucs / 4096))
        (String (to_char (0x80 + (ucs / 64) mod 64))
           (String (to_char (0x80 + ucs mod 64)) EmptyString))).
Proof.
  intros Hu. unfold utf8encode. cmp.
  rewrite !low6, !shr by lia. change (2 ^ 6) with 64. change (2 ^ 12) with 4096.
  assert (Hq : 0 <= ucs / 4096 < 0x10)
    by (split; [apply Z.div_pos | apply Z.div_lt_upper_bound]; lia).
  assert (Hm : 0 <= (ucs / 64) mod 64 < 64) by (apply Z.mod_pos_bound; lia).
  assert (Hr : 0 <= ucs mod 64 < 64) by (apply Z.mod_pos_bound; lia).
  destruct (lor_bits (ucs / 4096) ltac:(lia)) as (_ & _ & L & _).
  destruct (lor_bits ((ucs / 64) mod 64) ltac:(lia)) as (L1 & _).
  destruct (lor_bits (ucs mod 64) ltac:(lia)) as (L0 & _).
  rewrite L, L1, L0 by lia. reflexivity.
Qed.

Lemma encode4 (ucs : Z) :
  0x10000 <= ucs < 0x10ffff ->
  utf8encode ucs =
  (4, String (to_char (0xf0 + ucs / 262144))
        (String (to_char (0x80 + (ucs / 4096) mod 64))
           (String (to_char (0x80 + (ucs / 64) mod 64))
              (String (to_char (0x80 + ucs mod 64)) EmptyString)))).
Proof.
  intros Hu. unfold utf8encode. cmp.
  rewrite !low6, !shr by lia.
  change (2 ^ 6) with 64. change (2 ^ 12) with 4096. change (2 ^ 18) with 262144.
  assert (Hq : 0 <= ucs / 262144 < 0x08)
    by (split; [apply Z.div_pos | apply Z.div_lt_upper_bound]; lia).
  assert (Hm2 : 0 <= (ucs / 4096) mod 64 < 64) by (apply Z.mod_pos_bound; lia).
  assert (Hm : 0 <= (ucs / 64) mod 64 < 64) by (apply Z.mod_pos_bound; lia).
  assert (Hr : 0 <= ucs mod 64 < 64) by (apply Z.mod_pos_bound; lia).
  destruct (lor_bits (ucs / 262144) ltac:(lia)) as (_ & _ & _ & L).
  destruct (lor_bits ((ucs / 4096) mod 64) ltac:(lia)) as (L2 & _).
  destruct (lor_bits ((ucs / 64) mod 64) ltac:(lia)) as (L1 & _).
  destruct (lor_bits (ucs mod 64) ltac:(lia)) as (L0 & _).
  rewrite L, L2, L1, L0 by lia. reflexivity.
Qed.

Lemma encode_illegal (ucs : Z) :
  0x10ffff <= ucs ->
  utf8encode ucs =
  (3, String (to_char 0xef) (String (to_char 0xbf)
        (String (to_char 0xbd) EmptyString))).
Proof. intros Hu. unfold utf8encode. cmp. reflexivity. Qed.

End Utf8Encode.

(** X14.  [utf8decode] undoes [utf8encode] on every code below 0x10ffff,
    whatever bytes follow: it returns the code and the length [utf8encode]
    returned, which is [utf8bytes] of the code and the number of bytes
    written.  From 0x10ffff on (that code included) [utf8encode] writes the
    three bytes of U+FFFD, which decode as 0xfffd. *)
Theorem utf8_encode_decode (ucs : Z) (rest : string) :
  0 <= ucs ->
  let '(n, buf) := Utf8.utf8encode ucs in
  n = Utf8.utf8bytes ucs
  /\ Z.of_nat (String.length buf) = n
  /\ (ucs < 0x10ffff -> Utf8.utf8decode (buf ++ rest) = Some (ucs, n))
  /\ (0x10ffff <= ucs -> Utf8.utf8decode (buf ++ rest) = Some (0xfffd, 3)).
Proof.
  intros Hpos.
  destruct (Z_lt_le_dec ucs 0x80) as [H1 | H1];
    [| destruct (Z_lt_le_dec ucs 0x800) as [H2 | H2];
       [| destruct (Z_lt_le_dec ucs 0x10000) as [H3 | H3];
          [| destruct (Z_lt_le_dec ucs 0x10ffff) as [H4 | H4]]]].
  - rewrite encode1 by lia. unfold Utf8.utf8bytes. cmp.
    repeat split; try lia. intros _. cbn [append]. apply decode1. lia.
  - rewrite encode2 by lia. unfold Utf8.utf8bytes. cmp.
    repeat split; try lia. intros _. cbn [append].
    assert (Hq : 2 <= ucs / 64 < 0x20)
      by (split; [apply Z.div_le_lower_bound | apply Z.div_lt_upper_bound]; lia).
    pose proof (Z.mod_pos_bound ucs 64 ltac:(lia)) as Hr.
    rewrite decode2 by lia. do 2 f_equal.
    pose proof (Z.div_mod ucs 64 ltac:(lia)). lia.
  - rewrite encode3 by lia. unfold Utf8.utf8bytes. cmp.
    repeat split; try lia. intros _. cbn [append].
    assert (Hq : 0 <= ucs / 4096 < 0x10)
      by (split; [apply Z.div_pos | apply Z.div_lt_upper_bound]; lia).
    pose proof (Z.mod_pos_bound (ucs / 64) 64 ltac:(lia)) as Hm.
    pose proof (Z.mod_pos_bound ucs 64 ltac:(lia)) as Hr.
    pose proof (Z.div_mod ucs 64 ltac:(lia)) as D0.
    pose proof (Z.div_mod (ucs / 64) 64 ltac:(lia)) as D1.
    assert (D2 : ucs / 64 / 64 = ucs / 4096)
      by (rewrite Z.div_div by lia; reflexivity).
    rewrite decode3 by lia.
    do 2 f_equal. lia.
  - rewrite encode4 by lia. unfold Utf8.utf8bytes. cmp.
    repeat split; try lia. intros _. cbn [append].
    assert (Hq : 0 <= ucs / 262144 <= 4)
      by (split; [apply Z.div_pos | apply Z.lt_succ_r, Z.div_lt_upper_bound]; lia).
    pose proof (Z.mod_pos_bound (ucs / 4096) 64 ltac:(lia)) as Hm2.
    pose proof (Z.mod_pos_bound (ucs / 64) 64 ltac:(lia)) as Hm.
    pose proof (Z.mod_pos_bound ucs 64 ltac:(lia)) as Hr.
    pose proof (Z.div_mod ucs 64 ltac:(lia)) as D0.
    pose proof (Z.div_mod (ucs / 64) 64 ltac:(lia)) as D1.
    pose proof (Z.div_mod (ucs / 4096) 64 ltac:(lia)) as D2.
    assert (E1 : ucs / 64 / 64 = ucs / 4096)
      by (rewrite Z.div_div by lia; reflexivity).
    assert (E2 : ucs / 4096 / 64 = ucs / 262144)
      by (rewrite Z.div_div by lia; reflexivity).
    rewrite decode4 by lia.
    do 2 f_equal. lia.
  - rewrite encode_illegal by lia. unfold Utf8.utf8bytes. cmp.
    repeat split; lia.
Qed.

Lemma utf8_encode_decode_witness :
  Utf8.utf8decode (snd (Utf8.utf8encode 0x20ac) ++ "abc") = Some (0x20ac, 3).
Proof.
  pose proof (utf8_encode_decode 0x20ac "abc") as Hrt.
  change (Utf8.utf8encode 0x20ac)
    with (3, String (to_char 0xe2) (String (to_char 0x82)
               (String (to_char 0xac) EmptyString))) in Hrt.
  destruct (Hrt ltac:(lia)) as (_ & _ & Hdec & _).
  apply Hdec. lia.
Defined.

Section Utf8Inversion.

Import Utf8.

Lemma some_pair_inv (a b v m : Z) : Some (a, b) = Some (v, m) -> v = a /\ m = b.
Proof. intros E. split; congruence. Qed.

Lemma continuation_inv (p : ascii) :
  not_continuation p = false ->
  0x80 <= char_code p < 0xc0 /\ Z.land (char_code p) 0x3f = char_code p - 0x80.
Proof.
  unfold not_continuation. intros N. apply negb_false_iff in N.
  destruct (continuation_bits (char_code p) (char_code_range p)) as [R M].
  apply R in N. split; [exact N | apply M; exact N].
Qed.

Lemma cp1252_range (b : ascii) :
  0x80 <= char_code b < 0xa0 ->
  0x80 <= nth (Z.to_nat (char_code b - 0x80)) cp1252 0 < 0x10000.
Proof.
  destruct b as [[] [] [] [] [] [] [] []]; vm_compute;
    intros [A B]; try (split; congruence);
    exfalso; (apply A; reflexivity) || discriminate B.
Qed.

(** What a result of the decoder says about the bytes it read. *)
Lemma decode_cases (p0 : ascii) (rest : string) (u n : Z) :
  utf8decode (String p0 rest) = Some (u, n) ->
  (n = 1 /\ 0 <= u < 0x10000
   /\ (char_code p0 < 0x80 \/ 0xa0 <= char_code p0 -> u = char_code p0))
  \/ (exists p1 r, rest = String p1 r /\ n = 2
        /\ 0xc2 <= char_code p0 < 0xe0 /\ 0x80 <= char_code p1 < 0xc0
        /\ u = (char_code p0 - 0xc0) * 64 + (char_code p1 - 0x80))
  \/ (exists p1 p2 r, rest = String p1 (String p2 r) /\ n = 3
        /\ 0xe0 <= char_code p0 < 0xf0 /\ 0x80 <= char_code p1 < 0xc0
        /\ 0x80 <= char_code p2 < 0xc0
        /\ (char_code p0 = 0xe0 -> 0xa0 <= char_code p1)
        /\ u = (char_code p0 - 0xe0) * 4096 + (char_code p1 - 0x80) * 64
               + (char_code p2 - 0x80))
  \/ (exists p1 p2 p3 r, rest = String p1 (String p2 (String p3 r)) /\ n = 4
        /\ 0xf0 <= char_code p0 <= 0xf4 /\ 0x80 <= char_code p1 < 0xc0
        /\ 0x80 <= char_code p2 < 0xc0 /\ 0x80 <= char_code p3 < 0xc0
        /\ (char_code p0 = 0xf0 -> 0x90 <= char_code p1)
        /\ (char_code p0 = 0xf4 -> char_code p1 <= 0x8f)
        /\ u = (char_code p0 - 0xf0) * 262144 + (char_code p1 - 0x80) * 4096
               + (char_code p2 - 0x80) * 64 + (char_code p3 - 0x80)).
Proof.
  intros H. unfold utf8decode in H.
  pose proof (char_code_range p0) as R0.
  destruct (lead_bits (char_code p0) R0) as (L2 & L3 & L4).
  assert (Fail : forall v m, Some (char_code p0, 1) = Some (v, m) ->
                 0xa0 <= char_code p0 ->
                 m = 1 /\ 0 <= v < 0x10000
                 /\ (char_code p0 < 0x80 \/ 0xa0 <= char_code p0 ->
                     v = char_code p0)).
  { intros v m E Hc. apply some_pair_inv in E; destruct E as [-> ->]. repeat split; try lia. }
  destruct (Z.ltb_spec (char_code p0) 0x80) as [C1 | C1].
  { apply some_pair_inv in H; destruct H as [-> ->]. left. repeat split; try lia. }
  destruct (Z.ltb_spec (char_code p0) 0xa0) as [C2 | C2].
  { assert (Eu : u = nth (Z.to_nat (char_code p0 - 0x80)) cp1252 0)
      by congruence.
    assert (En : n = 1) by congruence.
    pose proof (cp1252_range p0 ltac:(lia)) as T. rewrite <- Eu in T.
    left. split; [exact En | split; [lia | intros [A | A]; lia]]. }
  destruct (Z.ltb_spec (char_code p0) 0xc2) as [C3 | C3].
  { left. apply Fail; [exact H | lia]. }
  destruct rest as [| p1 r1].
  { left. apply Fail; [exact H | lia]. }
  destruct (not_continuation p1) eqn:N1.
  { left. apply Fail; [exact H | lia]. }
  apply continuation_inv in N1. destruct N1 as [R1 M1].
  cbv zeta in H.
  assert (Three : forall v m,
    match r1 with
    | EmptyString => Some (char_code p0, 1)
    | String p2 _ =>
      if not_continuation p2 then Some (char_code p0, 1)
      else Some (Z.shiftl (Z.land (char_code p0) 0x0f) 12
                 + Z.shiftl (Z.land (char_code p1) 0x3f) 6
                 + Z.land (char_code p2) 0x3f, 3)
    end = Some (v, m) ->
    0xe0 <= char_code p0 < 0xf0 ->
    (m = 1 /\ 0 <= v < 0x10000
     /\ (char_code p0 < 0x80 \/ 0xa0 <= char_code p0 -> v = char_code p0))
    \/ (exists p2 r, r1 = String p2 r /\ m = 3
          /\ 0x80 <= char_code p2 < 0xc0
          /\ v = (char_code p0 - 0xe0) * 4096 + (char_code p1 - 0x80) * 64
                 + (char_code p2 - 0x80))).
  { intros v m E Hc. destruct r1 as [| p2 r2].
    { left. apply Fail; [exact E | lia]. }
    destruct (not_continuation p2) eqn:N2.
    { left. apply Fail; [exact E | lia]. }
    apply continuation_inv in N2. destruct N2 as [R2 M2].
    right. exists p2, r2. apply some_pair_inv in E; destruct E as [-> ->].
    rewrite L3, M1, M2 by lia. rewrite !Z.shiftl_mul_pow2 by lia.
    repeat split; try lia. }
  assert (Four : forall v m,
    match r1 with
    | String p2 (String p3 _) =>
      if not_continuation p2 || not_continuation p3
      then Some (char_code p0, 1)
      else Some (Z.shiftl (Z.land (char_code p0) 0x07) 18
                 + Z.shiftl (Z.land (char_code p1) 0x3f) 12
                 + Z.shiftl (Z.land (char_code p2) 0x3f) 6
                 + Z.land (char_code p3) 0x3f, 4)
    | _ => Some (char_code p0, 1)
    end = Some (v, m) ->
    0xf0 <= char_code p0 <= 0xf4 ->
    (m = 1 /\ 0 <= v < 0x10000
     /\ (char_code p0 < 0x80 \/ 0xa0 <= char_code p0 -> v = char_code p0))
    \/ (exists p2 p3 r, r1 = String p2 (String p3 r) /\ m = 4
          /\ 0x80 <= char_code p2 < 0xc0 /\ 0x80 <= char_code p3 < 0xc0
          /\ v = (char_code p0 - 0xf0) * 262144 + (char_code p1 - 0x80) * 4096
                 + (char_code p2 - 0x80) * 64 + (char_code p3 - 0x80))).
  { intros v m E Hc. destruct r1 as [| p2 [| p3 r3]].
    { left. apply Fail; [exact E | lia]. }
    { left. apply Fail; [exact E | lia]. }
    destruct (not_continuation p2) eqn:N2.
    { left. apply Fail; [exact E | lia]. }
    destruct (not_continuation p3) eqn:N3.
    { left. apply Fail; [exact E | lia]. }
    apply continuation_inv in N2. destruct N2 as [R2 M2].
    apply continuation_inv in N3. destruct N3 as [R3 M3].
    right. exists p2, p3, r3. cbn [orb] in E. apply some_pair_inv in E; destruct E as [-> ->].
    rewrite L4, M1, M2, M3 by lia. rewrite !Z.shiftl_mul_pow2 by lia.
    repeat split; try lia. }
  destruct (Z.ltb_spec (char_code p0) 0xe0) as [C4 | C4].
  { right. left. exists p1, r1. apply some_pair_inv in H; destruct H as [-> ->].
    rewrite L2, M1 by lia. rewrite Z.shiftl_mul_pow2 by lia.
    repeat split; try lia. }
  destruct (Z.eqb_spec (char_code p0) 0xe0) as [C5 | C5].
  { destruct (Z.ltb_spec (char_code p1) 0xa0) as [C6 | C6].
    { left. apply Fail; [exact H | lia]. }
    destruct (Three u n H ltac:(lia)) as [F | (p2 & r & -> & -> & R2 & ->)].
    { left. exact F. }
    right. right. left. exists p1, p2, r. repeat split; try lia. }
  destruct (Z.ltb_spec (char_code p0) 0xf0) as [C6 | C6].
  { destruct (Three u n H ltac:(lia)) as [F | (p2 & r & -> & -> & R2 & ->)].
    { left. exact F. }
    right. right. left. exists p1, p2, r. repeat split; try lia. }
  destruct (Z.eqb_spec (char_code p0) 0xf0) as [C7 | C7].
  { destruct (Z.ltb_spec (char_code p1) 0x90) as [C8 | C8].
    { left. apply Fail; [exact H | lia]. }
    destruct (Four u n H ltac:(lia))
      as [F | (p2 & p3 & r & -> & -> & R2 & R3 & ->)].
    { left. exact F. }
    right. right. right. exists p1, p2, p3, r. repeat split; try lia. }
  destruct (Z.ltb_spec (char_code p0) 0xf4) as [C8 | C8].
  { destruct (Four u n H ltac:(lia))
      as [F | (p2 & p3 & r & -> & -> & R2 & R3 & ->)].
    { left. exact F. }
    right. right. right. exists p1, p2, p3, r. repeat split; try lia. }
  destruct (Z.eqb_spec (char_code p0) 0xf4) as [C9 | C9].
  { destruct (Z.ltb_spec 0x8f (char_code p1)) as [C10 | C10].
    { left. apply Fail; [exact H | lia]. }
    destruct (Four u n H ltac:(lia))
      as [F | (p2 & p3 & r & -> & -> & R2 & R3 & ->)].
    { left. exact F. }
    right. right. right. exists p1, p2, p3, r. repeat split; try lia. }
  left. apply Fail; [exact H | lia].
Qed.

End Utf8Inversion.

Section Utf8Results.

Import Utf8.

Lemma decode_some (p0 : ascii) (rest : string) :
  utf8decode (String p0 rest) <> None.
Proof.
  unfold utf8decode. intros E.
  repeat match type of E with
         | context [if ?b then _ else _] => destruct b
         | context [match ?r with EmptyString => _ | String _ _ => _ end] =>
           destruct r
         end; discriminate E.
Qed.

Lemma utf8len_cases (p0 : ascii) :
  (0xc2 <= char_code p0 < 0xe0 -> utf8len p0 = 2)
  /\ (0xe0 <= char_code p0 < 0xf0 -> utf8len p0 = 3)
  /\ (0xf0 <= char_code p0 <= 0xf4 -> utf8len p0 = 4).
Proof. unfold utf8len. repeat split; intros Hc; cmp; reflexivity. Qed.

Lemma substring_prefix_2 (a b : ascii) (r : string) :
  substring 0 (Z.to_nat 2) (String a (String b r)) =
  String a (String b EmptyString).
Proof. destruct r; reflexivity. Qed.

Lemma substring_prefix_3 (a b c : ascii) (r : string) :
  substring 0 (Z.to_nat 3) (String a (String b (String c r))) =
  String a (String b (String c EmptyString)).
Proof. destruct r; reflexivity. Qed.

Lemma substring_prefix_4 (a b c d : ascii) (r : string) :
  substring 0 (Z.to_nat 4) (String a (String b (String c (String d r)))) =
  String a (String b (String c (String d EmptyString))).
Proof. destruct r; reflexivity. Qed.

End Utf8Results.

(** X15.  On a range that is not empty [utf8decode] always has a result: a
    length between 1 and 4 that does not pass the end of the range, and a
    code that is at most 0x10ffff.  The length is 1 whenever the first byte
    is outside 0xc2..0xf4, and a result of length 1 is the first byte itself
    unless that byte is one of the CP1252 codes 0x80..0x9f. *)
Theorem utf8decode_bounds (p0 : ascii) (rest : string) :
  exists u n,
    Utf8.utf8decode (String p0 rest) = Some (u, n)
    /\ 1 <= n <= 4
    /\ n <= Z.of_nat (String.length (String p0 rest))
    /\ 0 <= u <= 0x10ffff
    /\ (char_code p0 < 0xc2 \/ 0xf4 < char_code p0 -> n = 1)
    /\ (n = 1 -> char_code p0 < 0x80 \/ 0xa0 <= char_code p0 ->
        u = char_code p0).
Proof.
  destruct (Utf8.utf8decode (String p0 rest)) as [[u n] |] eqn:E;
    [| exfalso; exact (decode_some p0 rest E)].
  exists u, n. split; [reflexivity |].
  pose proof (char_code_range p0) as R0.
  destruct (decode_cases p0 rest u n E)
    as [(-> & Ru & Hu)
       | [(p1 & r & -> & -> & C0 & C1 & ->)
         | [(p1 & p2 & r & -> & -> & C0 & C1 & C2 & Lo & ->)
           | (p1 & p2 & p3 & r & -> & -> & C0 & C1 & C2 & C3 & Lo & Hi & ->)]]];
    cbn [String.length]; repeat split; try lia; intros; lia.
Qed.

(** X16.  A result of [utf8decode] longer than one byte is never an overlong
    form: its length is [utf8len] of the first byte, and unless the code is
    0x10ffff, [utf8encode] of the code writes back exactly the bytes that
    were read and returns the same length. *)
Theorem utf8decode_shortest_form (p0 : ascii) (rest : string) (u n : Z) :
  Utf8.utf8decode (String p0 rest) = Some (u, n) -> 1 < n ->
  Utf8.utf8len p0 = n
  /\ 0x80 <= u
  /\ (u <> 0x10ffff ->
      Utf8.utf8encode u = (n, substring 0 (Z.to_nat n) (String p0 rest))).
Proof.
  intros E Hn.
  destruct (utf8len_cases p0) as (U2 & U3 & U4).
  destruct (decode_cases p0 rest u n E)
    as [(-> & Ru & Hu)
       | [(p1 & r & -> & -> & C0 & C1 & Eu)
         | [(p1 & p2 & r & -> & -> & C0 & C1 & C2 & Lo & Eu)
           | (p1 & p2 & p3 & r & -> & -> & C0 & C1 & C2 & C3 & Lo & Hi & Eu)]]].
  - lia.
  - split; [apply U2; lia | split; [lia | intros _]].
    assert (Q : u / 64 = char_code p0 - 0xc0)
      by (symmetry; apply Z.div_unique with (char_code p1 - 0x80); lia).
    assert (M : u mod 64 = char_code p1 - 0x80)
      by (symmetry; apply Z.mod_unique with (char_code p0 - 0xc0); lia).
    rewrite encode2 by lia. rewrite Q, M.
    replace (0xc0 + (char_code p0 - 0xc0)) with (char_code p0) by lia.
    replace (0x80 + (char_code p1 - 0x80)) with (char_code p1) by lia.
    rewrite !to_char_code. apply f_equal. symmetry. apply substring_prefix_2.
  - split; [apply U3; lia | split; [lia | intros _]].
    assert (M : u mod 64 = char_code p2 - 0x80)
      by (symmetry;
          apply Z.mod_unique
            with ((char_code p0 - 0xe0) * 64 + (char_code p1 - 0x80)); lia).
    assert (Q : u / 64 = (char_code p0 - 0xe0) * 64 + (char_code p1 - 0x80))
      by (symmetry; apply Z.div_unique with (char_code p2 - 0x80); lia).
    assert (M1 : (u / 64) mod 64 = char_code p1 - 0x80)
      by (rewrite Q; symmetry;
          apply Z.mod_unique with (char_code p0 - 0xe0); lia).
    assert (Q1 : u / 4096 = char_code p0 - 0xe0)
      by (change 4096 with (64 * 64); rewrite <- Z.div_div by lia; rewrite Q;
          symmetry; apply Z.div_unique with (char_code p1 - 0x80); lia).
    rewrite encode3 by lia. rewrite Q1, M1, M.
    replace (0xe0 + (char_code p0 - 0xe0)) with (char_code p0) by lia.
    replace (0x80 + (char_code p1 - 0x80)) with (char_code p1) by lia.
    replace (0x80 + (char_code p2 - 0x80)) with (char_code p2) by lia.
    rewrite !to_char_code. apply f_equal. symmetry. apply substring_prefix_3.
  - split; [apply U4; lia | split; [lia | intros Hne]].
    assert (M : u mod 64 = char_code p3 - 0x80)
      by (symmetry;
          apply Z.mod_unique
            with ((char_code p0 - 0xf0) * 4096 + (char_code p1 - 0x80) * 64
                  + (char_code p2 - 0x80)); lia).
    assert (Q : u / 64 = (char_code p0 - 0xf0) * 4096
                         + (char_code p1 - 0x80) * 64 + (char_code p2 - 0x80))
      by (symmetry; apply Z.div_unique with (char_code p3 - 0x80); lia).
    assert (M1 : (u / 64) mod 64 = char_code p2 - 0x80)
      by (rewrite Q; symmetry;
          apply Z.mod_unique
            with ((char_code p0 - 0xf0) * 64 + (char_code p1 - 0x80)); lia).
    assert (Q1 : u / 4096 = (char_code p0 - 0xf0) * 64 + (char_code p1 - 0x80))
      by (change 4096 with (64 * 64); rewrite <- Z.div_div by lia; rewrite Q;
          symmetry; apply Z.div_unique with (char_code p2 - 0x80); lia).
    assert (M2 : (u / 4096) mod 64 = char_code p1 - 0x80)
      by (rewrite Q1; symmetry;
          apply Z.mod_unique with (char_code p0 - 0xf0); lia).
    assert (Q2 : u / 262144 = char_code p0 - 0xf0)
      by (change 262144 with (4096 * 64); rewrite <- Z.div_div by lia;
          rewrite Q1; symmetry;
          apply Z.div_unique with (char_code p1 - 0x80); lia).
    rewrite encode4 by lia. rewrite Q2, M2, M1, M.
    replace (0xf0 + (char_code p0 - 0xf0)) with (char_code p0) by lia.
    replace (0x80 + (char_code p1 - 0x80)) with (char_code p1) by lia.
    replace (0x80 + (char_code p2 - 0x80)) with (char_code p2) by lia.
    replace (0x80 + (char_code p3 - 0x80)) with (char_code p3) by lia.
    rewrite !to_char_code. apply f_equal. symmetry. apply substring_prefix_4.
Qed.

Lemma utf8decode_shortest_form_witness :
  Utf8.utf8len (to_char 0xe2) = 3
  /\ Utf8.utf8encode 0x20ac =
     (3, String (to_char 0xe2) (String (to_char 0x82)
           (String (to_char 0xac) EmptyString))).
Proof.
  destruct (utf8decode_shortest_form (to_char 0xe2)
              (String (to_char 0x82) (String (to_char 0xac) "tail"))
              0x20ac 3 eq_refl ltac:(lia)) as (Hl & _ & He).
  split; [exact Hl | apply He; lia].
Defined.

Section Utf8Test.

Import Utf8.

Lemma skip_app (buf rest : string) :
  skip (String.length buf) (buf ++ rest) = rest.
Proof. induction buf as [| b buf IH]; [reflexivity | exact IH]. Qed.

Lemma length_app (a b : string) :
  String.length (a ++ b) = (String.length a + String.length b)%nat.
Proof. induction a as [| c a IH]; cbn; [reflexivity | rewrite IH; reflexivity]. Qed.

Lemma skip_length (n : nat) (s : string) :
  (String.length (skip n s) <= String.length s)%nat.
Proof.
  revert s. induction n as [| n IH]; intros s; [cbn; lia |].
  destruct s as [| b s]; cbn [skip String.length]; [lia |].
  specialize (IH s). lia.
Qed.

Lemma high_bit_spec (b : ascii) : high_bit b = (0x80 <=? char_code b).
Proof. destruct b as [[] [] [] [] [] [] [] []]; reflexivity. Qed.

Lemma high_bit_to_char (z : Z) :
  0 <= z < 256 -> high_bit (to_char z) = (0x80 <=? z).
Proof. intros Hz. rewrite high_bit_spec, char_code_to_char by exact Hz. reflexivity. Qed.

(** The bytes of one code, as the decoder and the tester see them. *)
Lemma encode_shape (ucs : Z) (rest : string) :
  0 <= ucs ->
  exists b0 tl v,
    snd (utf8encode ucs) = String b0 tl
    /\ Z.to_nat (utf8bytes ucs) = String.length (String b0 tl)
    /\ (high_bit b0 = false -> utf8bytes ucs = 1)
    /\ (high_bit b0 = true -> 2 <= utf8bytes ucs <= 4)
    /\ utf8decode (String b0 (tl ++ rest)) = Some (v, utf8bytes ucs).
Proof.
  intros Hpos.
  destruct (Z_lt_le_dec ucs 0x80) as [H1 | H1];
    [| destruct (Z_lt_le_dec ucs 0x800) as [H2 | H2];
       [| destruct (Z_lt_le_dec ucs 0x10000) as [H3 | H3];
          [| destruct (Z_lt_le_dec ucs 0x10ffff) as [H4 | H4]]]].
  - rewrite encode1 by lia. unfold utf8bytes. cmp.
    eexists _, _, _. split; [reflexivity |].
    rewrite high_bit_to_char by lia.
    split; [reflexivity |]. split; [reflexivity |].
    split; [intros Hb; apply Z.leb_le in Hb; lia |].
    cbn [append]. apply decode1. lia.
  - rewrite encode2 by lia. unfold utf8bytes. cmp.
    assert (Hq : 2 <= ucs / 64 < 0x20)
      by (split; [apply Z.div_le_lower_bound | apply Z.div_lt_upper_bound]; lia).
    pose proof (Z.mod_pos_bound ucs 64 ltac:(lia)) as Hr.
    eexists _, _, _. split; [reflexivity |].
    rewrite high_bit_to_char by lia.
    split; [reflexivity |].
    split; [intros Hb; apply Z.leb_gt in Hb; lia |].
    split; [intros _; lia |].
    cbn [append]. apply decode2; lia.
  - rewrite encode3 by lia. unfold utf8bytes. cmp.
    assert (Hq : 0 <= ucs / 4096 < 0x10)
      by (split; [apply Z.div_pos | apply Z.div_lt_upper_bound]; lia).
    pose proof (Z.mod_pos_bound (ucs / 64) 64 ltac:(lia)) as Hm.
    pose proof (Z.mod_pos_bound ucs 64 ltac:(lia)) as Hr.
    pose proof (Z.div_mod ucs 64 ltac:(lia)) as D0.
    pose proof (Z.div_mod (ucs / 64) 64 ltac:(lia)) as D1.
    assert (D2 : ucs / 64 / 64 = ucs / 4096)
      by (rewrite Z.div_div by lia; reflexivity).
    eexists _, _, _. split; [reflexivity |].
    rewrite high_bit_to_char by lia.
    split; [reflexivity |].
    split; [intros Hb; apply Z.leb_gt in Hb; lia |].
    split; [intros _; lia |].
    cbn [append]. apply decode3; lia.
  - rewrite encode4 by lia. unfold utf8bytes. cmp.
    assert (Hq : 0 <= ucs / 262144 <= 4)
      by (split; [apply Z.div_pos | apply Z.lt_succ_r, Z.div_lt_upper_bound]; lia).
    pose proof (Z.mod_pos_bound (ucs / 4096) 64 ltac:(lia)) as Hm2.
    pose proof (Z.mod_pos_bound (ucs / 64) 64 ltac:(lia)) as Hm.
    pose proof (Z.mod_pos_bound ucs 64 ltac:(lia)) as Hr.
    pose proof (Z.div_mod ucs 64 ltac:(lia)) as D0.
    pose proof (Z.div_mod (ucs / 64) 64 ltac:(lia)) as D1.
    pose proof (Z.div_mod (ucs / 4096) 64 ltac:(lia)) as D2.
    assert (E1 : ucs / 64 / 64 = ucs / 4096)
      by (rewrite Z.div_div by lia; reflexivity).
    assert (E2 : ucs / 4096 / 64 = ucs / 262144)
      by (rewrite Z.div_div by lia; reflexivity).
    eexists _, _, _. split; [reflexivity |].
    rewrite high_bit_to_char by lia.
    split; [reflexivity |].
    split; [intros Hb; apply Z.leb_gt in Hb; lia |].
    split; [intros _; lia |].
    cbn [append]. apply decode4; lia.
  - rewrite encode_illegal by lia. unfold utf8bytes. cmp.
    eexists _, _, _. split; [reflexivity |].
    split; [reflexivity |].
    split; [intros Hb; discriminate Hb |].
    split; [intros _; lia |].
    reflexivity.
Qed.

Lemma utf8test_loop_encode (l : list Z) :
  Forall (fun ucs => 0 <= ucs) l ->
  forall (turns : nat) (ret : Z),
    1 <= ret -> (String.length (encode_all l) <= turns)%nat ->
    utf8test_loop turns (encode_all l) ret =
    Some (fold_left Z.max (map utf8bytes l) ret).
Proof.
  induction 1 as [| ucs l Hpos Hl IH]; intros turns ret Hret Hturns.
  - destruct turns; reflexivity.
  - cbn [encode_all map fold_left] in *.
    destruct (encode_shape ucs (encode_all l) Hpos)
      as (b0 & tl & v & Eb & Elen & Hlow & Hhigh & Edec).
    rewrite Eb in *. cbn [append] in *.
    destruct turns as [| turns]; [cbn in Hturns; lia |].
    cbn [utf8test_loop]. destruct (high_bit b0) eqn:Hb.
    + rewrite Edec. specialize (Hhigh eq_refl). cmp.
      change (String b0 (tl ++ encode_all l))
        with (String b0 tl ++ encode_all l)%string.
      rewrite Elen, skip_app.
      replace (if ret <? utf8bytes ucs then utf8bytes ucs else ret)
        with (Z.max ret (utf8bytes ucs))
        by (destruct (Z.ltb_spec ret (utf8bytes ucs)); lia).
      apply IH; [lia |].
      cbn [String.length] in Hturns. rewrite length_app in Hturns.
      lia.
    + specialize (Hlow eq_refl). rewrite Hlow in *.
      assert (Etl : tl = EmptyString).
      { cbn [String.length] in Elen. destruct tl; [reflexivity |].
        cbn [String.length] in Elen. change (Z.to_nat 1) with 1%nat in Elen.
        lia. }
      subst tl. cbn [append].
      replace (Z.max ret 1) with ret by lia.
      apply IH; [lia |]. cbn [String.length append] in Hturns. lia.
Qed.

Lemma utf8test_loop_range (turns : nat) :
  forall (s : string) (ret : Z),
    0 <= ret <= 4 -> (String.length s <= turns)%nat ->
    exists r, utf8test_loop turns s ret = Some r /\ 0 <= r <= 4
              /\ (r = 0 \/ ret <= r).
Proof.
  induction turns as [| turns IH]; intros s ret Hret Hturns.
  - destruct s; [| cbn in Hturns; lia]. exists ret. cbn. repeat split; lia.
  - destruct s as [| p0 rest].
    + exists ret. cbn. repeat split; lia.
    + cbn [utf8test_loop]. destruct (high_bit p0).
      * destruct (utf8decode (String p0 rest)) as [[u n] |] eqn:E;
          [| exfalso; exact (decode_some p0 rest E)].
        destruct (decode_cases p0 rest u n E)
          as [(-> & _)
             | [(p1 & r & -> & -> & _)
               | [(p1 & p2 & r & -> & -> & _)
                 | (p1 & p2 & p3 & r & -> & -> & _)]]].
        -- exists 0. cbn. repeat split; lia.
        -- change (2 <? 2) with false. cbv iota.
           destruct (IH (skip (Z.to_nat 2) (String p0 (String p1 r)))
                        (if ret <? 2 then 2 else ret))
             as (x & Ex & Rx & Mx).
           { destruct (Z.ltb_spec ret 2); lia. }
           { change (Z.to_nat 2) with 2%nat.
             cbn [skip String.length] in *. lia. }
           exists x. split; [exact Ex | split; [exact Rx |]].
           destruct (Z.ltb_spec ret 2); lia.
        -- change (3 <? 2) with false. cbv iota.
           destruct (IH (skip (Z.to_nat 3) (String p0 (String p1 (String p2 r))))
                        (if ret <? 3 then 3 else ret))
             as (x & Ex & Rx & Mx).
           { destruct (Z.ltb_spec ret 3); lia. }
           { change (Z.to_nat 3) with 3%nat.
             cbn [skip String.length] in *. lia. }
           exists x. split; [exact Ex | split; [exact Rx |]].
           destruct (Z.ltb_spec ret 3); lia.
        -- change (4 <? 2) with false. cbv iota.
           destruct (IH (skip (Z.to_nat 4)
                           (String p0 (String p1 (String p2 (String p3 r)))))
                        (if ret <? 4 then 4 else ret))
             as (x & Ex & Rx & Mx).
           { destruct (Z.ltb_spec ret 4); lia. }
           { change (Z.to_nat 4) with 4%nat.
             cbn [skip String.length] in *. lia. }
           exists x. split; [exact Ex | split; [exact Rx |]].
           destruct (Z.ltb_spec ret 4); lia.
      * apply IH; [exact Hret | cbn in Hturns; lia].
Qed.

Lemma utf8test_loop_ascii (s : string) :
  all_ascii s = true ->
  forall (turns : nat) (ret : Z),
    (String.length s <= turns)%nat -> utf8test_loop turns s ret = Some ret.
Proof.
  induction s as [| b s IH]; intros Ha turns ret Hturns.
  - destruct turns; reflexivity.
  - cbn [all_ascii] in Ha. apply andb_true_iff in Ha. destruct Ha as [Hb Ha].
    apply negb_true_iff in Hb.
    destruct turns as [| turns]; [cbn in Hturns; lia |].
    cbn [utf8test_loop]. rewrite Hb. apply IH; [exact Ha |].
    cbn in Hturns. lia.
Qed.

Lemma utf8test_loop_one (turns : nat) :
  forall (s : string) (ret : Z),
    1 <= ret <= 4 -> (String.length s <= turns)%nat ->
    utf8test_loop turns s ret = Some 1 -> ret = 1 /\ all_ascii s = true.
Proof.
  induction turns as [| turns IH]; intros s ret Hret Hturns Hone.
  - destruct s; [| cbn in Hturns; lia]. cbn in Hone. split; [congruence | reflexivity].
  - destruct s as [| p0 rest].
    + cbn in Hone. split; [congruence | reflexivity].
    + cbn [utf8test_loop] in Hone. cbn [all_ascii].
      destruct (high_bit p0).
      * exfalso.
        destruct (utf8decode (String p0 rest)) as [[u n] |] eqn:E;
          [| discriminate Hone].
        destruct (Z.ltb_spec n 2) as [Hn | Hn]; [discriminate Hone |].
        assert (Hn4 : n <= 4 /\ (1 <= Z.to_nat n)%nat).
        { destruct (decode_cases p0 rest u n E)
            as [(-> & _)
               | [(p1 & r & -> & -> & _)
                 | [(p1 & p2 & r & -> & -> & _)
                   | (p1 & p2 & p3 & r & -> & -> & _)]]]; lia. }
        apply IH in Hone.
        -- destruct (Z.ltb_spec ret n); lia.
        -- destruct (Z.ltb_spec ret n); lia.
        -- destruct Hn4 as [_ Hn1].
           destruct (Z.to_nat n) as [| k]; [lia |].
           cbn [skip]. cbn [String.length] in Hturns.
           pose proof (skip_length k rest). lia.
      * cbn [negb andb]. apply IH; [exact Hret | cbn in Hturns; lia | exact Hone].
Qed.

End Utf8Test.

(** X17.  [utf8test] accepts whatever [utf8encode] writes: on the bytes of
    any list of codes, written one after the other, it returns the longest
    length [utf8bytes] gives for one of them, and 1 for no code at all; it
    never returns 0 there. *)
Theorem utf8test_of_encoded (l : list Z) :
  Forall (fun ucs => 0 <= ucs) l ->
  Utf8.utf8test (Utf8.encode_all l) =
  Some (fold_left Z.max (map Utf8.utf8bytes l) 1)
  /\ 1 <= fold_left Z.max (map Utf8.utf8bytes l) 1.
Proof.
  intros Hl. split.
  - unfold Utf8.utf8test. apply utf8test_loop_encode; [exact Hl | lia | lia].
  - assert (G : forall (m : list Z) (a : Z), a <= fold_left Z.max m a).
    { induction m as [| x m IH]; intros a; cbn [fold_left]; [lia |].
      specialize (IH (Z.max a x)). lia. }
    apply G.
Qed.

Lemma utf8test_of_encoded_witness :
  Utf8.utf8test (Utf8.encode_all [0x41; 0x20ac; 0xe9]) = Some 3.
Proof.
  apply (utf8test_of_encoded [0x41; 0x20ac; 0xe9]).
  repeat constructor; lia.
Defined.

(** X18.  [utf8test] returns on every string, and what it returns is one of
    0, 1, 2, 3 and 4.  It returns 1 exactly when no byte of the string has
    the high bit set. *)
Theorem utf8test_range (src : string) :
  exists r, Utf8.utf8test src = Some r /\ 0 <= r <= 4
            /\ (r = 1 <-> Utf8.all_ascii src = true).
Proof.
  destruct (utf8test_loop_range (String.length src) src 1 ltac:(lia)
              ltac:(lia)) as (r & Er & Rr & _).
  exists r. split; [exact Er | split; [exact Rr |]].
  split.
  - intros ->.
    apply (utf8test_loop_one (String.length src) src 1); [lia | lia | exact Er].
  - intros Ha. unfold Utf8.utf8test in Er.
    rewrite utf8test_loop_ascii in Er by (exact Ha || lia). congruence.
Qed.

Section Utf8Moves.

Import Utf8.

Lemma get_skip (a k : nat) :
  forall buf, String.get (a + k) buf = String.get k (skip a buf).
Proof.
  induction a as [| a IH]; intros buf; [reflexivity |].
  destruct buf as [| b buf]; cbn [skip Nat.add String.get].
  - destruct k; reflexivity.
  - apply IH.
Qed.

Lemma skip_get (a : nat) :
  forall buf b, String.get a buf = Some b ->
                skip a buf = String b (skip (S a) buf).
Proof.
  induction a as [| a IH]; intros buf b Hg; destruct buf as [| c buf];
    try discriminate Hg.
  - cbn in Hg. injection Hg as ->. reflexivity.
  - cbn [String.get] in Hg. cbn [skip]. rewrite (IH buf b Hg). reflexivity.
Qed.

Lemma length_skip (a : nat) :
  forall buf, String.length (skip a buf) = (String.length buf - a)%nat.
Proof.
  induction a as [| a IH]; intros buf; [cbn; lia |].
  destruct buf as [| c buf]; cbn [skip String.length]; [reflexivity |].
  rewrite IH. lia.
Qed.

Lemma lead_eq (buf : string) (a : nat) :
  lead buf a =
  match String.get a buf with
  | None => None
  | Some b =>
    if negb (high_bit b) then None
    else if bit_40 b then Some a
    else match a with
         | O => None
         | S a' => lead buf a'
         end
  end.
Proof. destruct a; reflexivity. Qed.

Lemma lead_spec (buf : string) (a0 : nat) :
  forall a, lead buf a0 = Some a ->
  (a <= a0)%nat
  /\ exists b, String.get a buf = Some b /\ not_continuation b = true.
Proof.
  assert (Hbits : forall b, high_bit b = true -> bit_40 b = true ->
                            not_continuation b = true).
  { intros b. destruct b as [[] [] [] [] [] [] [] []]; vm_compute; congruence. }
  induction a0 as [| a0 IH]; intros a Hl; rewrite lead_eq in Hl;
    destruct (String.get _ buf) as [b |] eqn:Hg; try discriminate Hl;
    destruct (high_bit b) eqn:H80; try discriminate Hl;
    destruct (bit_40 b) eqn:H40; try discriminate Hl; cbn [negb] in Hl.
  - injection Hl as <-. split; [lia |]. exists b. auto.
  - injection Hl as <-. split; [lia |]. exists b. auto.
  - destruct (IH a Hl) as [Hle Hb]. split; [lia | exact Hb].
Qed.

Lemma lead_continuation (buf : string) (a : nat) (b : ascii) :
  String.get (S a) buf = Some b -> not_continuation b = false ->
  lead buf (S a) = lead buf a.
Proof.
  intros Hg Hb. rewrite (lead_eq buf (S a)), Hg.
  revert Hb. destruct b as [[] [] [] [] [] [] [] []]; vm_compute;
    congruence || reflexivity.
Qed.

Lemma lead_here (buf : string) (a : nat) (b : ascii) :
  String.get a buf = Some b -> 0xc2 <= char_code b ->
  lead buf a = Some a.
Proof.
  intros Hg Hb. rewrite lead_eq, Hg.
  revert Hb. destruct b as [[] [] [] [] [] [] [] []]; vm_compute;
    intros Hb; try reflexivity; exfalso; apply Hb; reflexivity.
Qed.

Lemma not_continuation_range (b : ascii) :
  0x80 <= char_code b < 0xc0 -> not_continuation b = false.
Proof.
  intros Hb. unfold not_continuation. apply negb_false_iff.
  apply (continuation_bits (char_code b) (char_code_range b)). exact Hb.
Qed.

(** The character that was decoded at [a] is found again from its end. *)
Lemma lead_back (buf : string) (a : nat) (p0 : ascii) (rest : string)
      (u n : Z) :
  skip a buf = String p0 rest ->
  utf8decode (String p0 rest) = Some (u, n) -> 1 < n ->
  lead buf (a + Z.to_nat n - 1) = Some a.
Proof.
  intros Hs E Hn.
  assert (G : forall k, String.get (a + k) buf = String.get k (String p0 rest))
    by (intros k; rewrite get_skip, Hs; reflexivity).
  assert (G0 : String.get a buf = Some p0)
    by (rewrite <- (Nat.add_0_r a) at 1; rewrite G; reflexivity).
  destruct (decode_cases p0 rest u n E)
    as [(-> & _)
       | [(p1 & r & -> & -> & C0 & C1 & _)
         | [(p1 & p2 & r & -> & -> & C0 & C1 & C2 & _)
           | (p1 & p2 & p3 & r & -> & -> & C0 & C1 & C2 & C3 & _)]]].
  - lia.
  - change (Z.to_nat 2) with 2%nat.
    replace (a + 2 - 1)%nat with (S a) by lia.
    rewrite (lead_continuation buf a p1).
    + apply (lead_here buf a p0 G0). lia.
    + replace (S a) with (a + 1)%nat by lia. rewrite G. reflexivity.
    + apply not_continuation_range. exact C1.
  - change (Z.to_nat 3) with 3%nat.
    replace (a + 3 - 1)%nat with (S (S a)) by lia.
    rewrite (lead_continuation buf (S a) p2).
    + rewrite (lead_continuation buf a p1).
      * apply (lead_here buf a p0 G0). lia.
      * replace (S a) with (a + 1)%nat by lia. rewrite G. reflexivity.
      * apply not_continuation_range. exact C1.
    + replace (S (S a)) with (a + 2)%nat by lia. rewrite G. reflexivity.
    + apply not_continuation_range. exact C2.
  - change (Z.to_nat 4) with 4%nat.
    replace (a + 4 - 1)%nat with (S (S (S a))) by lia.
    rewrite (lead_continuation buf (S (S a)) p3).
    + rewrite (lead_continuation buf (S a) p2).
      * rewrite (lead_continuation buf a p1).
        -- apply (lead_here buf a p0 G0). lia.
        -- replace (S a) with (a + 1)%nat by lia. rewrite G. reflexivity.
        -- apply not_continuation_range. exact C1.
      * replace (S (S a)) with (a + 2)%nat by lia. rewrite G. reflexivity.
      * apply not_continuation_range. exact C2.
    + replace (S (S (S a))) with (a + 3)%nat by lia. rewrite G. reflexivity.
    + apply not_continuation_range. exact C3.
Qed.

Lemma decode_len (p0 : ascii) (rest : string) (u n : Z) :
  utf8decode (String p0 rest) = Some (u, n) ->
  1 <= n <= 4 /\ (Z.to_nat n <= String.length (String p0 rest))%nat.
Proof.
  intros E.
  destruct (decode_cases p0 rest u n E)
    as [(-> & _)
       | [(p1 & r & -> & -> & _)
         | [(p1 & p2 & r & -> & -> & _)
           | (p1 & p2 & p3 & r & -> & -> & _)]]];
    cbn [String.length]; lia.
Qed.

Lemma get_some (buf : string) :
  forall p, (p < String.length buf)%nat -> exists b, String.get p buf = Some b.
Proof.
  induction buf as [| c buf IH]; intros p Hp; [cbn in Hp; lia |].
  destruct p as [| p]; [exists c; reflexivity |].
  cbn in Hp. cbn [String.get]. apply IH. lia.
Qed.

(** Either both functions return [p], or they return the two ends of the
    character that [utf8decode] reads at the byte the search stops at. *)
Lemma moves_cases (buf : string) (p : nat) :
  (p < String.length buf)%nat ->
  (utf8back buf p = Some p /\ utf8fwd buf p = Some p)
  \/ (exists a ba rest u n,
        (a < p)%nat /\ String.get a buf = Some ba
        /\ not_continuation ba = true
        /\ skip a buf = String ba rest
        /\ utf8decode (String ba rest) = Some (u, n)
        /\ 1 < n <= 4 /\ (a + Z.to_nat n <= String.length buf)%nat
        /\ (p < a + Z.to_nat n)%nat
        /\ utf8back buf p = Some a
        /\ utf8fwd buf p = Some (a + Z.to_nat n)%nat).
Proof.
  intros Hp. destruct (get_some buf p Hp) as [b Hg].
  unfold utf8back, utf8fwd. rewrite Hg.
  destruct (not_continuation b); [left; split; reflexivity |].
  destruct p as [| p']; [left; split; reflexivity |].
  destruct (lead buf p') as [a |] eqn:Hl; [| left; split; reflexivity].
  destruct (lead_spec buf p' a Hl) as (Hle & ba & Hga & Hba).
  rewrite (skip_get a buf ba Hga).
  destruct (utf8decode (String ba (skip (S a) buf))) as [[u n] |] eqn:E;
    [| exfalso; exact (decode_some _ _ E)].
  destruct (decode_len _ _ _ _ E) as [Hn Hlen].
  rewrite <- (skip_get a buf ba Hga), length_skip in Hlen.
  destruct (Nat.ltb_spec (S p') (a + Z.to_nat n)) as [Hlt | Hge];
    [| left; split; reflexivity].
  right. exists a, ba, (skip (S a) buf), u, n.
  repeat split; try lia; try assumption.
  apply skip_get. exact Hga.
Qed.

End Utf8Moves.

(** X19.  For [p] before [end], [utf8back] and [utf8fwd] both return: the
    first moves [p] back by three bytes at most, the second forward by three
    bytes at most and never past [end].  Either both move or none does, and
    when they move, [utf8decode] at the place [utf8back] returns reads a
    character that ends at the place [utf8fwd] returns.  Applied to their
    own results, [utf8back] and (before [end]) [utf8fwd] do not move
    again. *)
Theorem utf8back_utf8fwd (buf : string) (p : nat) :
  (p < String.length buf)%nat ->
  exists r r',
    Utf8.utf8back buf p = Some r /\ Utf8.utf8fwd buf p = Some r'
    /\ (p - 3 <= r <= p)%nat /\ (p <= r' <= p + 3)%nat
    /\ (r' <= String.length buf)%nat
    /\ ((r < p)%nat <-> (p < r')%nat)
    /\ ((r < p)%nat ->
        exists u, Utf8.utf8decode (Utf8.skip r buf) =
                  Some (u, Z.of_nat (r' - r)))
    /\ Utf8.utf8back buf r = Some r
    /\ ((r' < String.length buf)%nat -> Utf8.utf8fwd buf r' = Some r').
Proof.
  intros Hp.
  destruct (moves_cases buf p Hp)
    as [[Eb Ef]
       | (a & ba & rest & u & n & Hap & Hga & Hba & Hs & E & Hn & Hlen & Hlt
          & Eb & Ef)].
  - exists p, p. repeat split; try lia; try assumption.
    intros _. exact Ef.
  - exists a, (a + Z.to_nat n)%nat.
    split; [exact Eb |]. split; [exact Ef |].
    split; [lia |]. split; [lia |]. split; [exact Hlen |].
    split; [split; lia |].
    split.
    { intros _. exists u. rewrite Hs, E.
      replace (Z.of_nat (a + Z.to_nat n - a)) with n by lia. reflexivity. }
    split.
    { unfold Utf8.utf8back. rewrite Hga, Hba. reflexivity. }
    intros Hend. destruct (get_some buf _ Hend) as [b' Hg'].
    pose proof (lead_back buf a ba rest u n Hs E ltac:(lia)) as Hl.
    remember (a + Z.to_nat n)%nat as q eqn:Eq.
    unfold Utf8.utf8fwd. rewrite Hg'.
    destruct (Utf8.not_continuation b'); [reflexivity |].
    destruct q as [| q']; [reflexivity |].
    replace (S q' - 1)%nat with q' in Hl by lia.
    rewrite Hl, Hs, E, <- Eq, Nat.ltb_irrefl. reflexivity.
Qed.

Lemma utf8back_utf8fwd_witness :
  exists r r',
    Utf8.utf8back euro_text 2 = Some r /\ Utf8.utf8fwd euro_text 2 = Some r'
    /\ (2 - 3 <= r <= 2)%nat /\ (2 <= r' <= 2 + 3)%nat
    /\ (r' <= String.length euro_text)%nat
    /\ ((r < 2)%nat <-> (2 < r')%nat)
    /\ ((r < 2)%nat ->
        exists u, Utf8.utf8decode (Utf8.skip r euro_text) =
                  Some (u, Z.of_nat (r' - r)))
    /\ Utf8.utf8back euro_text r = Some r
    /\ ((r' < String.length euro_text)%nat -> Utf8.utf8fwd euro_text r' = Some r').
Proof.
  apply (utf8back_utf8fwd euro_text 2). vm_compute. lia.
Defined.

Section Utf8Latin1.

Import Utf8.

Lemma u32_small (z : Z) : 0 <= z < 2 ^ 32 -> u32 z = z.
Proof. intros Hz. unfold u32. apply Z.mod_small. exact Hz. Qed.

(** The two bytes [utf8froma] stores for a byte with the high bit set are
    the ones [utf8encode] writes for its code. *)
Lemma encode_latin1 (b : ascii) :
  (char_code b < 0x80 ->
   snd (utf8encode (char_code b)) = String b EmptyString)
  /\ (0x80 <= char_code b ->
      snd (utf8encode (char_code b)) =
      String (to_char (Z.lor 0xc0 (Z.shiftr (char_code b) 6)))
        (String (to_char (Z.lor 0x80 (Z.land (char_code b) 0x3F)))
           EmptyString)).
Proof.
  pose proof (char_code_range b) as R.
  split; intros Hb; unfold utf8encode; cmp; cbn [snd].
  - rewrite to_char_code. reflexivity.
  - reflexivity.
Qed.

Lemma codes_cons (b : ascii) (r : string) :
  encode_all (codes (String b r)) =
  (snd (utf8encode (char_code b)) ++ encode_all (codes r))%string.
Proof. reflexivity. Qed.

Lemma conv_length (s : string) :
  (String.length s <= String.length (encode_all (codes s))
   <= 2 * String.length s)%nat
  /\ (String.length (encode_all (codes s)) = String.length s <->
      all_ascii s = true).
Proof.
  induction s as [| b s [IH1 IH2]]; [cbn; split; [lia | tauto] |].
  rewrite codes_cons, length_app. cbn [all_ascii String.length].
  rewrite high_bit_spec.
  destruct (encode_latin1 b) as [Lo Hi].
  destruct (Z.leb_spec 0x80 (char_code b)) as [Hb | Hb].
  - rewrite (Hi Hb). cbn [String.length negb andb]. split; [lia |].
    split; [lia | discriminate].
  - rewrite (Lo Hb). cbn [String.length negb andb]. split; [lia |].
    rewrite <- IH2. lia.
Qed.

Lemma froma_rest_spec (s : string) :
  forall count,
    0 <= count -> count + 2 * Z.of_nat (String.length s) < 2 ^ 32 ->
    froma_rest s count =
    count + Z.of_nat (String.length (encode_all (codes s))).
Proof.
  induction s as [| b s IH]; intros count H0 Hmax; [cbn; lia |].
  rewrite codes_cons, length_app. cbn [froma_rest].
  cbn [String.length] in Hmax.
  destruct (encode_latin1 b) as [Lo Hi].
  destruct (Z.ltb_spec (char_code b) 0x80) as [Hb | Hb].
  - rewrite (Lo Hb), u32_small by lia. rewrite IH by lia.
    cbn [String.length]. lia.
  - rewrite (Hi Hb), u32_small by lia. rewrite IH by lia.
    cbn [String.length]. lia.
Qed.

Lemma froma_fill_spec (s : string) :
  forall dstlen count,
    0 <= count < dstlen ->
    count + 2 * Z.of_nat (String.length s) < 2 ^ 32 ->
    fst (froma_fill s dstlen count) =
    count + Z.of_nat (String.length (encode_all (codes s)))
    /\ Forall (fun w : Store => count <= fst w < dstlen)
              (snd (froma_fill s dstlen count))
    /\ (exists ws i, snd (froma_fill s dstlen count) = ws ++ [(i, zero)])
    /\ (count + Z.of_nat (String.length (encode_all (codes s))) < dstlen ->
        snd (froma_fill s dstlen count) =
        stores_of count (encode_all (codes s) ++ String zero EmptyString)).
Proof.
  induction s as [| b s IH]; intros dstlen count Hc Hmax.
  - cbn. repeat split; try lia.
    + repeat constructor; cbn; lia.
    + exists [], count. reflexivity.
  - rewrite codes_cons, length_app. cbn [froma_fill].
    cbn [String.length] in Hmax.
    destruct (encode_latin1 b) as [Lo Hi].
    destruct (Z.ltb_spec (char_code b) 0x80) as [Hb | Hb].
    + rewrite (Lo Hb). rewrite !u32_small by lia. rewrite to_char_code.
      cbn [String.length append].
      destruct (Z.geb_spec (count + 1) dstlen) as [Hfull | Hroom].
      * cbn [fst snd]. rewrite froma_rest_spec by lia.
        split; [lia |]. split; [repeat constructor; cbn; lia |].
        split; [exists [(count, b)], (count + 1 - 1); reflexivity |].
        intros Hfit. lia.
      * destruct (IH dstlen (count + 1) ltac:(lia) ltac:(lia))
          as (En & Hin & (ws' & i & Elast) & Eall).
        destruct (froma_fill s dstlen (count + 1)) as [n ws].
        cbn [fst snd] in *.
        split; [lia |]. split.
        { constructor; [cbn; lia |].
          eapply Forall_impl; [| exact Hin]. cbn. intros w Hw. lia. }
        split; [exists ((count, b) :: ws'), i; rewrite Elast; reflexivity |].
        intros Hfit. cbn [stores_of]. rewrite Eall by lia. reflexivity.
    + rewrite (Hi Hb).
      rewrite (u32_small (count + 2)), (u32_small (count + 1)),
        (u32_small (count + 1 + 1)) by lia.
      cbn [String.length append].
      destruct (Z.geb_spec (count + 2) dstlen) as [Hfull | Hroom].
      * cbn [fst snd]. rewrite froma_rest_spec by lia.
        split; [lia |]. split; [repeat constructor; cbn; lia |].
        split; [exists [], count; reflexivity |].
        intros Hfit. lia.
      * replace (count + 1 + 1) with (count + 2) by lia.
        destruct (IH dstlen (count + 2) ltac:(lia) ltac:(lia))
          as (En & Hin & (ws' & i & Elast) & Eall).
        destruct (froma_fill s dstlen (count + 2)) as [n ws].
        cbn [fst snd] in *.
        split; [lia |]. split.
        { constructor; [cbn; lia |]. constructor; [cbn; lia |].
          eapply Forall_impl; [| exact Hin]. cbn. intros w Hw. lia. }
        split.
        { eexists (_ :: _ :: ws'), i. rewrite Elast. reflexivity. }
        intros Hfit. cbn [stores_of].
        replace (count + 1 + 1) with (count + 2) by lia.
        rewrite Eall by lia. reflexivity.
Qed.

End Utf8Latin1.

(** X20.  [utf8froma] returns the number of bytes of the whole conversion,
    whatever [dstlen] is: the length of what [utf8encode] writes for the
    codes of the bytes of [src], which is [srclen] exactly when no byte has
    the high bit set.  It stores nothing when [dstlen] is 0, and otherwise
    only at indices below [dstlen], with a zero byte stored last.  When the
    value returned is below [dstlen], the stores are the bytes of the
    conversion and a closing zero, one index after the other from 0. *)
Theorem utf8froma_result (dstlen : Z) (src : string) :
  0 <= dstlen < 2 ^ 32 -> Z.of_nat (String.length src) < 2 ^ 31 ->
  let conv := Utf8.encode_all (Utf8.codes src) in
  fst (Utf8.utf8froma dstlen src) = Z.of_nat (String.length conv)
  /\ (fst (Utf8.utf8froma dstlen src) = Z.of_nat (String.length src) <->
      Utf8.all_ascii src = true)
  /\ Forall (fun w : Utf8.Store => 0 <= fst w < dstlen)
            (snd (Utf8.utf8froma dstlen src))
  /\ (0 < dstlen ->
      exists ws i, snd (Utf8.utf8froma dstlen src) = ws ++ [(i, zero)])
  /\ (Z.of_nat (String.length conv) < dstlen ->
      snd (Utf8.utf8froma dstlen src) =
      Utf8.stores_of 0 (conv ++ String zero EmptyString)).
Proof.
  intros Hd Hs conv.
  assert (Hcount : fst (Utf8.utf8froma dstlen src) =
                   Z.of_nat (String.length conv)
                   /\ Forall (fun w : Utf8.Store => 0 <= fst w < dstlen)
                             (snd (Utf8.utf8froma dstlen src))
                   /\ (0 < dstlen ->
                       exists ws i, snd (Utf8.utf8froma dstlen src) =
                                    ws ++ [(i, zero)])
                   /\ (Z.of_nat (String.length conv) < dstlen ->
                       snd (Utf8.utf8froma dstlen src) =
                       Utf8.stores_of 0 (conv ++ String zero EmptyString))).
  { unfold Utf8.utf8froma.
    destruct (Z.eqb_spec dstlen 0) as [Hz | Hnz].
    - cbn [fst snd]. rewrite froma_rest_spec by lia.
      split; [reflexivity |]. split; [constructor |]. split; intros; lia.
    - destruct (froma_fill_spec src dstlen 0 ltac:(lia) ltac:(lia))
        as (En & Hin & Hlast & Eall).
      split; [exact En |]. split; [exact Hin |].
      split; [intros _; exact Hlast | exact Eall]. }
  destruct Hcount as (En & Hin & Hlast & Eall).
  split; [exact En |]. split; [| auto].
  rewrite En. destruct (conv_length src) as [_ Hiff].
  rewrite <- Hiff. unfold conv. lia.
Qed.

Lemma utf8froma_result_witness :
  Utf8.utf8froma 8 (String "a" (String (to_char 0xe9) EmptyString)) =
  (3, [(0, "a"%char); (1, to_char 0xc3); (2, to_char 0xa9); (3, zero)]).
Proof.
  pose proof (utf8froma_result 8 (String "a" (String (to_char 0xe9) EmptyString))
                ltac:(lia) ltac:(cbn; lia)) as (En & _ & _ & _ & Eall).
  rewrite (surjective_pairing (Utf8.utf8froma 8 _)), En, Eall.
  - reflexivity.
  - vm_compute. reflexivity.
Defined.

Section Utf8ToLatin1.

Import Utf8.

(** What [utf8decode] reads at the two bytes of a Latin-1 byte. *)
Lemma decode_latin1 (b : ascii) (rest : string) :
  0x80 <= char_code b ->
  0xc2 <= char_code (to_char (Z.lor 0xc0 (Z.shiftr (char_code b) 6)))
  /\ utf8decode
       (String (to_char (Z.lor 0xc0 (Z.shiftr (char_code b) 6)))
          (String (to_char (Z.lor 0x80 (Z.land (char_code b) 0x3F))) rest)) =
     Some (char_code b, 2).
Proof.
  intros Hb. pose proof (char_code_range b) as R.
  rewrite low6, shr by lia. change (2 ^ 6) with 64.
  assert (Hq : 2 <= char_code b / 64 < 4)
    by (split; [apply Z.div_le_lower_bound | apply Z.div_lt_upper_bound]; lia).
  pose proof (Z.mod_pos_bound (char_code b) 64 ltac:(lia)) as Hr.
  pose proof (Z.div_mod (char_code b) 64 ltac:(lia)) as D.
  destruct (lor_bits (char_code b / 64) ltac:(lia)) as (_ & L & _).
  destruct (lor_bits (char_code b mod 64) ltac:(lia)) as (L0 & _).
  rewrite L, L0 by lia.
  split; [rewrite char_code_to_char by lia; lia |].
  rewrite decode2 by lia. do 2 f_equal. lia.
Qed.

Lemma toa_fill_conv (s : string) :
  forall (turns : nat) (dstlen count : Z),
    0 <= count -> count + Z.of_nat (String.length s) < dstlen ->
    dstlen < 2 ^ 32 ->
    (String.length (encode_all (codes s)) <= turns)%nat ->
    toa_fill turns (encode_all (codes s)) dstlen count =
    Some (count + Z.of_nat (String.length s),
          stores_of count (s ++ String zero EmptyString)).
Proof.
  induction s as [| b s IH]; intros turns dstlen count H0 Hfit Hd Hturns.
  - assert (E : toa_fill turns EmptyString dstlen count =
                Some (count, [(count, zero)])) by (destruct turns; reflexivity).
    change (encode_all (codes EmptyString)) with EmptyString. rewrite E.
    cbn [String.length append stores_of]. change (Z.of_nat 0) with 0.
    rewrite Z.add_0_r. reflexivity.
  - rewrite codes_cons in *. rewrite length_app in Hturns.
    cbn [String.length] in Hfit.
    destruct (encode_latin1 b) as [Lo Hi].
    pose proof (char_code_range b) as R.
    destruct (Z.ltb_spec (char_code b) 0x80) as [Hb | Hb].
    + rewrite (Lo Hb) in *. cbn [append String.length] in *.
      destruct turns as [| turns]; [lia |].
      cbn [toa_fill]. cmp. rewrite to_char_code.
      rewrite (u32_small (count + 1)) by lia.
      destruct (Z.geb_spec (count + 1) dstlen) as [Hfull | _]; [lia |].
      rewrite IH by lia. cbn [stores_of append].
      apply f_equal. apply f_equal2; [lia | reflexivity].
    + rewrite (Hi Hb) in *. cbn [append String.length] in *.
      destruct turns as [| turns]; [lia |].
      destruct (decode_latin1 b (encode_all (codes s)) Hb) as [Hlead Hdec].
      cbn [toa_fill]. rewrite Hdec. cmp. rewrite to_char_code.
      change (Z.to_nat 2) with 2%nat. cbn [skip].
      rewrite (u32_small (count + 1)) by lia.
      destruct (Z.geb_spec (count + 1) dstlen) as [Hfull | _]; [lia |].
      rewrite IH by lia. cbn [stores_of append].
      apply f_equal. apply f_equal2; [lia | reflexivity].
Qed.

End Utf8ToLatin1.

(** X21.  [utf8toa] undoes [utf8froma]: on the bytes that [utf8froma] stores
    for [src] (what [utf8encode] writes for the codes of its bytes), and with
    room for them and the closing zero, it returns [srclen] and stores the
    bytes of [src] and a closing zero, one index after the other from 0.
    The bytes 0x80..0x9f come back as they were, not as their CP1252
    codes. *)
Theorem utf8toa_utf8froma (src : string) (dstlen : Z) :
  Z.of_nat (String.length src) < dstlen -> dstlen < 2 ^ 32 ->
  Utf8.utf8toa (Utf8.encode_all (Utf8.codes src)) dstlen =
  Some (Z.of_nat (String.length src),
        Utf8.stores_of 0 (src ++ String zero EmptyString)).
Proof.
  intros Hfit Hd. unfold Utf8.utf8toa.
  destruct (Z.eqb_spec dstlen 0) as [Hz | _]; [lia |].
  rewrite toa_fill_conv by lia. reflexivity.
Qed.

Lemma utf8toa_utf8froma_witness :
  Utf8.utf8toa
    (Utf8.encode_all
       (Utf8.codes (String "a" (String (to_char 0x85) EmptyString)))) 3 =
  Some (2, [(0, "a"%char); (1, to_char 0x85); (2, zero)]).
Proof.
  apply (utf8toa_utf8froma (String "a" (String (to_char 0x85) EmptyString)) 3).
  - cbn. lia.
  - lia.
Defined.
